(** * catchy: cognitive-complexity engine

    A shallow embedding of the complexity calculator
    ([catchy/complexity/cognitive_complexity.cpp]), the language
    extractors ([catchy/parser/languages/cpp_parser.cpp],
    [python_parser.cpp]), the parser registry
    ([catchy/parser/parser_factory.cpp]) and the per-function loop of the
    orchestrator ([catchy/analysis/analyzer.cpp]), with the properties the
    specification states about them.

    Conventions.
    - [size_t] and [uint32_t] values are integers in [Z]; every C++
      arithmetic operation on them is written with its wrap-around.
    - A tree-sitter syntax tree is a rose tree of [Node]s.  A [TSNode]
      handle is a node together with the chain of its ancestors (nearest
      first), which is what [ts_node_parent] walks; the null handle is
      [None].
    - [std::unordered_map] is a [gmap]; [std::vector] is a [list] whose
      [push_back] appends at the end. *)

From Stdlib Require Import ZArith List String Ascii Bool Lia.
From stdpp Require Import base strings gmap.
Import ListNotations.

Local Open Scope Z_scope.
Local Open Scope string_scope.

(** ** Machine integers *)

Module MachineInt.

Definition SIZE_MAX_plus_1 : Z := 2 ^ 64.
Definition UINT32_MAX_plus_1 : Z := 2 ^ 32.

Definition size_t_wrap (z : Z) : Z := z mod SIZE_MAX_plus_1.
Definition uint32_wrap (z : Z) : Z := z mod UINT32_MAX_plus_1.

(** [a + b], [n++] and [n--] on [size_t]. *)
Definition size_t_add (a b : Z) : Z := size_t_wrap (a + b).
Definition size_t_incr (n : Z) : Z := size_t_wrap (n + 1).
Definition size_t_decr (n : Z) : Z := size_t_wrap (n - 1).

(** [a + b] on [uint32_t]. *)
Definition uint32_add (a b : Z) : Z := uint32_wrap (a + b).

Definition is_size_t (z : Z) : Prop := 0 <= z < SIZE_MAX_plus_1.

End MachineInt.
Import MachineInt.

(** ** Syntax trees (the tree-sitter interface the code consumes) *)

Module TreeSitter.

(** One node of the parsed tree: its type tag ([ts_node_type]), the
    field name under which its parent holds it (if any), its byte span,
    the rows of its start and end points, and its children in document
    order ([ts_node_child]). *)
#[local] Unset Elimination Schemes.
Inductive Node : Type := mkNode {
  node_type : string;
  node_field : option string;
  start_byte : Z;
  end_byte : Z;
  start_row : Z;
  end_row : Z;
  children : list Node
}.
#[local] Set Elimination Schemes.

(** A non-null [TSNode]: the node and its ancestors, nearest first. *)
Record TSNode : Type := mkTSNode {
  ts_parents : list Node;
  ts_node : Node
}.

Definition has_field (field : string) (c : Node) : bool :=
  match node_field c with
  | Some f => String.eqb f field
  | None => false
  end.

(** [ts_node_child_by_field_name]: the first child held under [field]. *)
Definition ts_node_child_by_field_name (n : Node) (field : string) : option Node :=
  find (has_field field) (children n).

(** The same lookup with the continuation applied to the child found,
    the form under which the recursive traversals go through it. *)
Fixpoint with_field_child {A : Type} (field : string) (k : Node -> A) (dflt : A)
    (kids : list Node) : A :=
  match kids with
  | [] => dflt
  | c :: rest =>
      if has_field field c then k c else with_field_child field k dflt rest
  end.

(** [ts_node_parent] on a handle. *)
Definition ts_node_parent (h : TSNode) : option TSNode :=
  match ts_parents h with
  | [] => None
  | p :: up => Some (mkTSNode up p)
  end.

(** Number of nodes of a subtree. *)
Fixpoint node_size (n : Node) : nat :=
  S (fold_right (fun c acc => (node_size c + acc)%nat) 0%nat (children n)).

(** Induction over a tree with the hypothesis on every child. *)
Section NodeInd.
Variable P : Node -> Prop.
Hypothesis step : forall ty fld sb eb sr er kids,
  Forall P kids -> P (mkNode ty fld sb eb sr er kids).

Fixpoint Node_forall_ind (n : Node) : P n :=
  match n with
  | mkNode ty fld sb eb sr er kids =>
      step ty fld sb eb sr er kids
        ((fix go (l : list Node) : Forall P l :=
            match l with
            | [] => @List.Forall_nil Node P
            | c :: l' => @List.Forall_cons Node P c l' (Node_forall_ind c) (go l')
            end) kids)
  end.
End NodeInd.

End TreeSitter.
Import TreeSitter.

(** ** The complexity calculator (cognitive_complexity.cpp) *)

Module Complexity.

Record ComplexityFactor : Type := mkFactor {
  description : string;
  increment : Z;
  line_number : Z
}.

Record ComplexityResult : Type := mkResult {
  total_complexity : Z;
  nesting_level : Z;
  factors : list ComplexityFactor;
  function_complexities : gmap string Z
}.

(** A default-constructed [ComplexityResult]. *)
Definition new_result : ComplexityResult := mkResult 0 0 [] ∅.

Definition set_nesting_level (result : ComplexityResult) (level : Z) : ComplexityResult :=
  mkResult (total_complexity result) level (factors result)
           (function_complexities result).

(** [total_complexity += amount; factors.push_back({reason, amount, line})],
    the common body of the four [increment_for_*] functions. *)
Definition add_factor (result : ComplexityResult) (amount : Z) (reason : string)
    (line : Z) : ComplexityResult :=
  mkResult (size_t_add (total_complexity result) amount)
           (nesting_level result)
           (factors result ++ [mkFactor reason amount line])%list
           (function_complexities result).

Definition increment_for_nesting (result : ComplexityResult) (level : Z)
    (reason : string) (line : Z) : ComplexityResult :=
  add_factor result level reason line.

Definition increment_for_structural (result : ComplexityResult)
    (reason : string) (line : Z) : ComplexityResult :=
  add_factor result 1 reason line.

Definition increment_for_fundamental (result : ComplexityResult)
    (reason : string) (line : Z) : ComplexityResult :=
  add_factor result 1 reason line.

Definition increment_for_hybrid (result : ComplexityResult)
    (reason : string) (line : Z) : ComplexityResult :=
  add_factor result 1 reason line.

(** Membership in a [static const std::unordered_set<std::string>]. *)
Definition count_in (set : list string) (type : string) : bool :=
  existsb (String.eqb type) set.

Definition control_structures : list string :=
  [ "if_statement"; "for_statement"; "while_statement"; "do_statement";
    "catch_clause"; "case_statement"; "for_range_loop"; "elif_clause";
    "else_clause" ].

Definition nesting_structures : list string :=
  [ "if_statement"; "for_statement"; "while_statement"; "do_statement";
    "catch_clause"; "for_range_loop" ].

Definition is_control_structure (type : string) : bool :=
  count_in control_structures type.

Definition increases_nesting_level (type : string) : bool :=
  count_in nesting_structures type.

Definition is_boolean_operator (node : Node) : bool :=
  node_type node =? "binary_expression".

(** The loop of [analyze_control_flow] that climbs [ts_node_parent] until
    it meets a [function_definition] or runs out of parents. *)
Fixpoint is_nested (parents : list Node) : bool :=
  match parents with
  | [] => false
  | parent :: up =>
      if node_type parent =? "function_definition" then true else is_nested up
  end.

(** The test guarding the hybrid increment: an [if_statement] whose
    parent exists and is an [else_clause] or an [elif_clause]. *)
Definition is_else_if (parents : list Node) (type : string) : bool :=
  if type =? "if_statement" then
    match parents with
    | [] => false
    | parent :: _ =>
        (node_type parent =? "else_clause") || (node_type parent =? "elif_clause")
    end
  else false.

(** The block under [if (is_control_structure(node_type))]. *)
Definition score_control_structure (parents : list Node) (type : string)
    (line : Z) (result : ComplexityResult) : ComplexityResult :=
  if is_else_if parents type then
    increment_for_hybrid result "else-if chain" line
  else
    let result := increment_for_structural result type line in
    if increases_nesting_level type && (0 <? nesting_level result)%Z then
      increment_for_nesting result (nesting_level result) ("Nested " ++ type) line
    else result.

Fixpoint analyze_control_flow (parents : list Node) (node : Node)
    (source_code : string) (result : ComplexityResult) {struct node}
    : ComplexityResult :=
  let type := node_type node in
  let line := uint32_add (start_row node) 1 in
  if type =? "function_definition" then
    if is_nested parents then result
    else
      with_field_child "body"
        (fun body => analyze_control_flow (node :: parents) body source_code result)
        result (children node)
  else
    let result :=
      if is_control_structure type
      then score_control_structure parents type line result
      else result in
    let increases_nesting := increases_nesting_level type in
    let result :=
      if increases_nesting
      then set_nesting_level result (size_t_incr (nesting_level result))
      else result in
    let result :=
      fold_left
        (fun acc child => analyze_control_flow (node :: parents) child source_code acc)
        (children node) result in
    if increases_nesting
    then set_nesting_level result (size_t_decr (nesting_level result))
    else result.

(** [calculate]: a null root gives the default result; for a
    [function_definition] or [method_definition] root the traversal
    starts at its [body] field (and gives the default result when there
    is none); any other root is traversed itself. *)
Definition calculate (root_node : option TSNode) (source_code : string)
    : ComplexityResult :=
  let result := new_result in
  match root_node with
  | None => result
  | Some root =>
      let type := node_type (ts_node root) in
      if (type =? "function_definition") || (type =? "method_definition") then
        match ts_node_child_by_field_name (ts_node root) "body" with
        | None => result
        | Some body =>
            analyze_control_flow (ts_node root :: ts_parents root) body
              source_code (set_nesting_level result 0)
        end
      else
        analyze_control_flow (ts_parents root) (ts_node root)
          source_code (set_nesting_level result 0)
  end.

(** [analyze_boolean_operators]: defined by the class, called by nothing. *)
Definition analyze_boolean_operators (node : option Node)
    (result : ComplexityResult) : ComplexityResult :=
  match node with
  | None => result
  | Some node =>
      if node_type node =? "binary_expression" then
        match nth_error (children node) 1 with
        | None => result
        | Some operator_node =>
            let operator_type := node_type operator_node in
            let line := uint32_add (start_row node) 1 in
            if (operator_type =? "&&") || (operator_type =? "||") then
              increment_for_fundamental result
                ("Boolean operator: " ++ operator_type) line
            else result
        end
      else result
  end.

End Complexity.

(** ** The earlier revision of the calculator

    The repository also holds the revision of [cognitive_complexity.cpp]
    that the one above replaced (it goes with the header whose helper
    functions take a [TSNode]).  Its sets and its traversal differ: switch
    statements are control structures and nesting constructs, else and
    elif clauses are not scored, only an [else_clause] parent makes an
    [if_statement] an else-if, and function definitions met during the
    traversal are entered like any other node. *)

Module EarlierRevision.
Import Complexity.

Definition control_structures : list string :=
  [ "if_statement"; "for_statement"; "for_range_loop"; "while_statement";
    "do_statement"; "catch_clause"; "switch_statement"; "case_statement" ].

Definition nesting_structures : list string :=
  [ "if_statement"; "for_statement"; "for_range_loop"; "while_statement";
    "do_statement"; "catch_clause"; "switch_statement" ].

Definition is_control_structure (n : Node) : bool :=
  count_in control_structures (node_type n).

Definition increases_nesting_level (n : Node) : bool :=
  count_in nesting_structures (node_type n).

Definition is_else_if (parents : list Node) (type : string) : bool :=
  if type =? "if_statement" then
    match parents with
    | [] => false
    | parent :: _ => node_type parent =? "else_clause"
    end
  else false.

Definition score_control_structure (parents : list Node) (n : Node)
    (line : Z) (result : ComplexityResult) : ComplexityResult :=
  if is_else_if parents (node_type n) then
    increment_for_hybrid result "else-if statement" line
  else
    let result :=
      increment_for_structural result ("Control structure: " ++ node_type n) line in
    if increases_nesting_level n && (0 <? nesting_level result)%Z then
      increment_for_nesting result (nesting_level result)
        ("Nested " ++ node_type n) line
    else result.

Fixpoint analyze_control_flow (parents : list Node) (n : Node)
    (source_code : string) (result : ComplexityResult) {struct n}
    : ComplexityResult :=
  let line := uint32_add (start_row n) 1 in
  let increases_nesting := increases_nesting_level n in
  let result :=
    if is_control_structure n
    then score_control_structure parents n line result
    else result in
  let result :=
    if increases_nesting
    then set_nesting_level result (size_t_incr (nesting_level result))
    else result in
  let result :=
    fold_left
      (fun acc child => analyze_control_flow (n :: parents) child source_code acc)
      (children n) result in
  if increases_nesting
  then set_nesting_level result (size_t_decr (nesting_level result))
  else result.

End EarlierRevision.

(** ** Extractors: shared base (parser_base.hpp, parser_base.cpp) *)

Module ParserBase.

Record FunctionInfo : Type := mkFunctionInfo {
  name : string;
  start_line : Z;
  end_line : Z;
  body : string;
  node : option TSNode;
  parameters : list string
}.

Record ParserContext : Type := mkParserContext {
  file_content : string;
  file_path : string
}.

(** [ParserBase::extract_node_text]: the slice of the source under the
    node, or the empty string when the span does not fit the source. *)
Definition extract_node_text (n : Node) (source_code : string) : string :=
  let start_byte := start_byte n in
  let end_byte := end_byte n in
  if ((start_byte >? end_byte) || (end_byte >? Z.of_nat (String.length source_code)))%Z
  then ""
  else String.substring (Z.to_nat start_byte) (Z.to_nat (end_byte - start_byte))
         source_code.

(** The first result found when [f] is tried on the elements in order. *)
Fixpoint first_some {A B : Type} (f : A -> option B) (l : list A) : option B :=
  match l with
  | [] => None
  | x :: rest =>
      match f x with
      | Some y => Some y
      | None => first_some f rest
      end
  end.

End ParserBase.
Import ParserBase.

(** ** The C++ extractor (cpp_parser.cpp) *)

Module CppParser.

Definition get_extensions : list string :=
  [ "cpp"; "cxx"; "cc"; "hpp"; "hxx"; "h" ].

Definition get_language_name : string := "cpp".

Definition is_qualified (type : string) : bool :=
  (type =? "qualified_identifier") || (type =? "scoped_identifier").

(** What one iteration of the loop of [find_function_name] does with the
    node it popped, apart from the [function_declarator] case: return it
    when it is an [identifier], return the [name] field of a qualified or
    scoped identifier when there is one, otherwise [None] (its children
    go on the stack). *)
Definition name_at (current : Node) : option Node :=
  if node_type current =? "identifier" then Some current
  else if is_qualified (node_type current)
       then ts_node_child_by_field_name current "name"
       else None.

(** [find_function_name], by recursion on the tree.  The stack of the
    source visits the subtree of the node on top completely before the
    nodes below it, so the search of a node is the search of its subtree;
    a [function_declarator] is searched through its [declarator] field
    only and its other children are never pushed. *)
Fixpoint find_function_name (declarator : Node) : option Node :=
  if node_type declarator =? "function_declarator" then
    with_field_child "declarator" find_function_name None (children declarator)
  else
    match name_at declarator with
    | Some found => Some found
    | None => first_some find_function_name (children declarator)
    end.

(** The loop as the source writes it, over an explicit stack (top of the
    stack first) and with a step budget; [None] is a spent budget. *)
Fixpoint find_function_name_loop (fuel : nat) (nodes : list Node)
    : option (option Node) :=
  match fuel with
  | O => None
  | S fuel =>
      match nodes with
      | [] => Some None
      | current :: nodes =>
          if node_type current =? "function_declarator" then
            match ts_node_child_by_field_name current "declarator" with
            | Some decl =>
                match find_function_name_loop fuel [decl] with
                | None => None
                | Some (Some found) => Some (Some found)
                | Some None => find_function_name_loop fuel nodes
                end
            | None => find_function_name_loop fuel nodes
            end
          else
            match name_at current with
            | Some found => Some (Some found)
            | None => find_function_name_loop fuel (children current ++ nodes)
            end
      end
  end.

(** The [FunctionInfo] built for a [function_definition] whose name node
    is [name_node]. *)
Definition make_info (parents : list Node) (n : Node) (name_node : Node)
    (source class_scope : string) : FunctionInfo :=
  let name := extract_node_text name_node source in
  let name := if String.eqb class_scope "" then name
              else class_scope ++ "::" ++ name in
  let body := match ts_node_child_by_field_name n "body" with
              | Some body => extract_node_text body source
              | None => ""
              end in
  mkFunctionInfo name
    (uint32_add (start_row n) 1) (uint32_add (end_row n) 1)
    body (Some (mkTSNode parents n)) [].

(** The name node of a [function_definition] candidate: the result of
    [find_function_name] on its [declarator] field, when both exist. *)
Definition resolve_name (n : Node) : option Node :=
  match ts_node_child_by_field_name n "declarator" with
  | Some declarator => find_function_name declarator
  | None => None
  end.

(** [collect_functions]: [functions] is the vector being filled. *)
Fixpoint collect_functions (parents : list Node) (n : Node) (source : string)
    (functions : list FunctionInfo) (class_scope : string) {struct n}
    : list FunctionInfo :=
  let descend :=
    fold_left
      (fun acc child => collect_functions (n :: parents) child source acc class_scope)
      (children n) functions in
  if node_type n =? "function_definition" then
    match resolve_name n with
    | Some name_node =>
        (functions ++ [make_info parents n name_node source class_scope])%list
    | None => descend
    end
  else descend.

Section WithProvider.
(** [ts_parser_parse_string] for the C++ grammar: the tree of a text,
    or nothing when no tree could be built. *)
Variable ts_parse : string -> option Node.

Definition parse_functions (context : ParserContext) : list FunctionInfo :=
  if String.eqb (file_content context) "" then []
  else
    match ts_parse (file_content context) with
    | None => []
    | Some root_node =>
        collect_functions [] root_node (file_content context) [] ""
    end.
End WithProvider.

End CppParser.

(** ** The Python extractor (python_parser.cpp) *)

Module PythonParser.

Definition get_extensions : list string := [ "py" ].

Definition get_language_name : string := "python".

(** The loop that climbs the parents of a function and prefixes the name
    with the name of every enclosing [function_definition] that has a
    [name] field. *)
Fixpoint qualify (parents : list Node) (source : string) (name : string) : string :=
  match parents with
  | [] => name
  | parent :: up =>
      let name :=
        if node_type parent =? "function_definition" then
          match ts_node_child_by_field_name parent "name" with
          | Some parent_name => extract_node_text parent_name source ++ "." ++ name
          | None => name
          end
        else name in
      qualify up source name
  end.

(** The [FunctionInfo] built for the function node [func_node]. *)
Definition make_info (func_parents : list Node) (func_node : Node)
    (source : string) : FunctionInfo :=
  let name :=
    match ts_node_child_by_field_name func_node "name" with
    | Some name_node =>
        qualify func_parents source (extract_node_text name_node source)
    | None => ""
    end in
  let body :=
    match ts_node_child_by_field_name func_node "body" with
    | Some body => extract_node_text body source
    | None => ""
    end in
  mkFunctionInfo name
    (uint32_add (start_row func_node) 1) (uint32_add (end_row func_node) 1)
    body (Some (mkTSNode func_parents func_node)) [].

(** [collect_functions]: [functions] is the vector being filled.  A
    [decorated_definition] without a [definition] field ends the call
    before the children are visited. *)
Fixpoint collect_functions (parents : list Node) (n : Node) (source : string)
    (functions : list FunctionInfo) {struct n} : list FunctionInfo :=
  let descend (functions : list FunctionInfo) :=
    fold_left
      (fun acc child => collect_functions (n :: parents) child source acc)
      (children n) functions in
  if node_type n =? "function_definition" then
    descend (functions ++ [make_info parents n source])%list
  else if node_type n =? "decorated_definition" then
    match ts_node_child_by_field_name n "definition" with
    | None => functions
    | Some func_node =>
        descend (functions ++ [make_info (n :: parents) func_node source])%list
    end
  else descend functions.

Section WithProvider.
(** [ts_parser_parse_string] for the Python grammar. *)
Variable ts_parse : string -> option Node.

Definition parse_functions (context : ParserContext) : list FunctionInfo :=
  if String.eqb (file_content context) "" then []
  else
    match ts_parse (file_content context) with
    | None => []
    | Some root_node =>
        collect_functions [] root_node (file_content context) []
    end.
End WithProvider.

End PythonParser.

(** ** The parser registry (parser_factory.cpp) *)

Module ParserFactory.

(** The registered extractor classes; [clone] makes a fresh instance of
    the same class. *)
Inductive Parser : Type := Cpp | Python.

Definition get_language_name (p : Parser) : string :=
  match p with
  | Cpp => CppParser.get_language_name
  | Python => PythonParser.get_language_name
  end.

Definition get_extensions (p : Parser) : list string :=
  match p with
  | Cpp => CppParser.get_extensions
  | Python => PythonParser.get_extensions
  end.

Definition clone (p : Parser) : Parser := p.

Record Factory : Type := mkFactory {
  parsers_ : gmap string Parser;
  extensions_ : gmap string string
}.

Definition empty_factory : Factory := mkFactory ∅ ∅.

(** [register_parser]: a null parser changes nothing; otherwise the
    parser is stored under its language name and every extension it
    claims is pointed to that name, replacing earlier entries. *)
Definition register_parser (f : Factory) (parser : option Parser) : Factory :=
  match parser with
  | None => f
  | Some p =>
      let language_name := get_language_name p in
      mkFactory
        (<[language_name := p]> (parsers_ f))
        (fold_left (fun exts ext => <[ext := language_name]> exts)
           (get_extensions p) (extensions_ f))
  end.

Definition create_parser (f : Factory) (language : string) : option Parser :=
  match parsers_ f !! language with
  | Some p => Some (clone p)
  | None => None
  end.

(** Index of the last occurrence of [c] in [s] ([i] is the index of the
    head of [s], [found] the last occurrence seen so far). *)
Fixpoint rfind_from (c : ascii) (s : string) (i : nat) (found : option nat)
    : option nat :=
  match s with
  | EmptyString => found
  | String a rest =>
      rfind_from c rest (S i) (if Ascii.eqb a c then Some i else found)
  end.

Definition rfind (c : ascii) (s : string) : option nat := rfind_from c s 0%nat None.

Definition suffix_from (i : nat) (s : string) : string :=
  String.substring i (String.length s - i) s.

(** [std::filesystem::path::filename] for a POSIX path: what follows the
    last directory separator. *)
Definition path_filename (path : string) : string :=
  match rfind "/"%char path with
  | Some i => suffix_from (S i) path
  | None => path
  end.

(** [std::filesystem::path::extension], after the C++ standard library:
    empty for the file names [.] and [..], for a file name without a
    period and for one whose only period is its first character;
    otherwise the part of the file name that starts at its last period. *)
Definition path_extension (path : string) : string :=
  let filename := path_filename path in
  if String.eqb filename "." || String.eqb filename ".." then ""
  else
    match rfind "."%char filename with
    | None => ""
    | Some O => ""
    | Some i => suffix_from i filename
    end.

(** [ext[0] == '.'  ?  ext.substr(1)  :  ext]. *)
Definition strip_dot (ext : string) : string :=
  match ext with
  | String a rest => if Ascii.eqb a "."%char then rest else ext
  | EmptyString => ext
  end.

Definition create_parser_for_file (f : Factory) (filename : string)
    : option Parser :=
  let ext := path_extension filename in
  if String.eqb ext "" then None
  else
    let ext := strip_dot ext in
    match extensions_ f !! ext with
    | Some language => create_parser f language
    | None => None
    end.

End ParserFactory.

(** ** The orchestrator (analyzer.cpp) *)

Module Analyzer.
Import Complexity ParserFactory.

Record AnalysisResult : Type := mkAnalysisResult {
  file_path : string;
  language : string;
  function_name : string;
  start_line : Z;
  end_line : Z;
  complexity : Z;
  factors : list ComplexityFactor
}.

(** The registry as the constructor of [Analyzer] leaves it: the C++
    parser registered first, the Python parser second. *)
Definition registered_factory : Factory :=
  register_parser (register_parser empty_factory (Some Cpp)) (Some Python).

Definition detect_language (f : Factory) (file_path : string) : string :=
  match create_parser_for_file f file_path with
  | Some parser => get_language_name parser
  | None => ""
  end.

(** [std::string::substr(pos, count)] for [pos <= size]. *)
Definition substr (s : string) (pos count : Z) : string :=
  String.substring (Z.to_nat pos)
    (Z.to_nat (Z.min count (Z.of_nat (String.length s) - pos))) s.

(** The first result found when [f] is tried on the elements from the
    last to the first. *)
Fixpoint last_some {A B : Type} (f : A -> option B) (l : list A) : option B :=
  match l with
  | [] => None
  | x :: rest =>
      match last_some f rest with
      | Some y => Some y
      | None => f x
      end
  end.

(** The text returned from inside the loop of [extract_function_name]
    when the node popped is an [identifier] whose span fits the source. *)
Definition identifier_text (current : Node) (source : string) : option string :=
  if (node_type current =? "identifier")
     && (start_byte current <? Z.of_nat (String.length source))%Z
     && (end_byte current <=? Z.of_nat (String.length source))%Z
  then Some (substr source (start_byte current)
               (uint32_wrap (end_byte current - start_byte current)))
  else None.

(** The search of [extract_function_name]; its stack receives the
    children first to last, so the last child is popped (and its subtree
    searched) first. *)
Fixpoint search_identifier (n : Node) (source : string) : option string :=
  match identifier_text n source with
  | Some text => Some text
  | None => last_some (fun child => search_identifier child source) (children n)
  end.

Definition extract_function_name (n : Node) (source : string) : string :=
  match search_identifier n source with
  | Some text => text
  | None => ""
  end.

(** The loop as the source writes it, over an explicit stack (top of the
    stack first) and with a step budget; [None] is a spent budget.  The
    children are pushed first to last, which leaves the last one on top. *)
Fixpoint extract_function_name_loop (fuel : nat) (nodes : list Node)
    (source : string) : option string :=
  match fuel with
  | O => None
  | S fuel =>
      match nodes with
      | [] => Some ""
      | current :: nodes =>
          match identifier_text current source with
          | Some text => Some text
          | None =>
              extract_function_name_loop fuel
                (rev (children current) ++ nodes)%list source
          end
      end
  end.

(** The name prefixed with the names of the enclosing functions, as
    [find_function_node] rebuilds it. *)
Fixpoint full_name (parents : list Node) (source : string) (name : string) : string :=
  match parents with
  | [] => name
  | parent :: up =>
      let name :=
        if node_type parent =? "function_definition" then
          match ts_node_child_by_field_name parent "name" with
          | Some parent_name =>
              extract_function_name parent_name source ++ "." ++ name
          | None => name
          end
        else name in
      full_name up source name
  end.

(** The function node behind a candidate: the node itself, or the
    [definition] field of a [decorated_definition]. *)
Definition actual_func_node (parents : list Node) (n : Node) : option TSNode :=
  if node_type n =? "decorated_definition" then
    match ts_node_child_by_field_name n "definition" with
    | Some definition => Some (mkTSNode (n :: parents) definition)
    | None => None
    end
  else Some (mkTSNode parents n).

Definition python_name_matches (actual : TSNode) (function_name source : string)
    : bool :=
  match ts_node_child_by_field_name (ts_node actual) "name" with
  | Some name_node =>
      String.eqb
        (full_name (ts_parents actual) source (extract_function_name name_node source))
        function_name
  | None => false
  end.

Definition cpp_name_matches (n : Node) (function_name source : string) : bool :=
  match CppParser.resolve_name n with
  | Some name_node => String.eqb (extract_function_name name_node source) function_name
  | None => false
  end.

Fixpoint find_function_node (parents : list Node) (n : Node)
    (function_name source : string) {struct n} : option TSNode :=
  let type := node_type n in
  let search_children :=
    first_some
      (fun child => find_function_node (n :: parents) child function_name source)
      (children n) in
  let cpp_then_children :=
    if (type =? "function_definition") && cpp_name_matches n function_name source
    then Some (mkTSNode parents n)
    else search_children in
  if (type =? "function_definition") || (type =? "decorated_definition") then
    match actual_func_node parents n with
    | None => None
    | Some actual =>
        if python_name_matches actual function_name source
        then Some actual
        else cpp_then_children
    end
  else cpp_then_children.

(** One iteration of the loop over the extracted functions. *)
Definition analyze_function (path lang content : string) (root_node : Node)
    (threshold : Z) (results : list AnalysisResult) (func : FunctionInfo)
    : list AnalysisResult :=
  if String.eqb (name func) "" then results
  else
    match find_function_node [] root_node (name func) content with
    | Some function_node =>
        let complexity_result := calculate (Some function_node) content in
        let result :=
          mkAnalysisResult path lang (name func)
            (ParserBase.start_line func) (ParserBase.end_line func)
            (total_complexity complexity_result)
            (Complexity.factors complexity_result) in
        if (complexity result >=? threshold)%Z
        then (results ++ [result])%list
        else results
    | None => results
    end.

Section WithProvider.
(** [ts_parser_parse_string] under the grammar of a language. *)
Variable ts_parse : Parser -> string -> option Node.

Definition parse_functions (parser : Parser) (context : ParserContext)
    : list FunctionInfo :=
  match parser with
  | Cpp => CppParser.parse_functions (ts_parse Cpp) context
  | Python => PythonParser.parse_functions (ts_parse Python) context
  end.

Definition grammar_of (lang : string) : option Parser :=
  if lang =? "cpp" then Some Cpp
  else if lang =? "python" then Some Python
  else None.

(** [analyze_content]: an unsupported language, a failed parse and an
    unknown parser each give no result; [initialize] of the parser made
    by the registry succeeds, its tree-sitter parser having been
    allocated. *)
Definition analyze_content (f : Factory) (threshold : Z)
    (content path lang : string) : list AnalysisResult :=
  match grammar_of lang with
  | None => []
  | Some grammar =>
      match ts_parse grammar content with
      | None => []
      | Some root_node =>
          match create_parser f lang with
          | None => []
          | Some parser =>
              let functions :=
                parse_functions parser (mkParserContext content path) in
              fold_left (analyze_function path lang content root_node threshold)
                functions []
          end
      end
  end.
End WithProvider.

End Analyzer.

(** ** Notions used to state the properties *)

Module Notions.
Import Complexity ParserFactory.

(** The loop of [analyze_control_flow] over the children of [n]. *)
Definition analyze_children (parents : list Node) (n : Node)
    (source_code : string) (result : ComplexityResult) : ComplexityResult :=
  fold_left
    (fun acc child => analyze_control_flow (n :: parents) child source_code acc)
    (children n) result.

(** The sum of the increments of a factor list, added up in [size_t]. *)
Definition sum_increments (fs : list ComplexityFactor) : Z :=
  fold_left (fun acc f => size_t_add acc (increment f)) fs 0%Z.

(** The same sum in the integers. *)
Definition exact_sum (fs : list ComplexityFactor) : Z :=
  fold_right Z.add 0%Z (map increment fs).

(** The total and the factor list of a result agree. *)
Definition consistent (r : ComplexityResult) : Prop :=
  total_complexity r = sum_increments (factors r).

(** No increment of the factor list and no nesting level is negative. *)
Definition nonnegative (r : ComplexityResult) : Prop :=
  (0 <= nesting_level r)%Z
  /\ Forall (fun f => (0 <= increment f)%Z) (factors r).

(** What an [if_statement] outside an else-if position adds: a
    structural factor of 1 and, when the level before entering it is
    above zero, a nesting factor of that level. *)
Definition if_score (line : Z) (r : ComplexityResult) : ComplexityResult :=
  let r1 := increment_for_structural r "if_statement" line in
  if (0 <? nesting_level r)%Z
  then increment_for_nesting r1 (nesting_level r) "Nested if_statement" line
  else r1.

(** Some node of the subtree has a control-structure type. *)
Fixpoint has_control_structure (n : Node) : bool :=
  is_control_structure (node_type n) || existsb has_control_structure (children n).

(** A subtree without control structures. *)
Definition plain (n : Node) : Prop := has_control_structure n = false.

(** A node type the traversal passes through without scoring:
    neither a control structure nor a function definition. *)
Definition is_wrapper (type : string) : bool :=
  negb (is_control_structure type) && negb (type =? "function_definition").

(** [only_construct x n]: [x] is [n], or [n] is a wrapper with exactly
    one child that is not plain, in which [x] is found the same way. *)
Inductive only_construct (x : Node) : Node -> Prop :=
| only_here : only_construct x x
| only_inside (n m : Node) (before after : list Node) :
    is_wrapper (node_type n) = true ->
    children n = (before ++ m :: after)%list ->
    Forall plain before ->
    Forall plain after ->
    only_construct x m ->
    only_construct x n.

(** The parent at the head of the chain is no else-clause and no
    elif-clause. *)
Definition not_under_else (parents : list Node) : Prop :=
  match parents with
  | [] => True
  | parent :: _ =>
      (node_type parent =? "else_clause") || (node_type parent =? "elif_clause")
      = false
  end.

(** The tree with the inside of every function definition removed. *)
Fixpoint strip_functions (n : Node) : Node :=
  mkNode (node_type n) (node_field n) (start_byte n) (end_byte n)
    (start_row n) (end_row n)
    (if node_type n =? "function_definition" then []
     else map strip_functions (children n)).

(** A function node with the inside of the function definitions nested
    in it removed. *)
Definition strip_nested_functions (fn : Node) : Node :=
  mkNode (node_type fn) (node_field fn) (start_byte fn) (end_byte fn)
    (start_row fn) (end_row fn) (map strip_functions (children fn)).

(** The loops of the two [collect_functions] over the children of [n]. *)
Definition cpp_collect_children (parents : list Node) (n : Node)
    (source : string) (functions : list FunctionInfo) (class_scope : string)
    : list FunctionInfo :=
  fold_left
    (fun acc child =>
       CppParser.collect_functions (n :: parents) child source acc class_scope)
    (children n) functions.

Definition python_collect_children (parents : list Node) (n : Node)
    (source : string) (functions : list FunctionInfo) : list FunctionInfo :=
  fold_left
    (fun acc child => PythonParser.collect_functions (n :: parents) child source acc)
    (children n) functions.

(** Number of nodes in the subtrees of a stack. *)
Fixpoint stack_size (nodes : list Node) : nat :=
  match nodes with
  | [] => 0%nat
  | n :: rest => (node_size n + stack_size rest)%nat
  end.

(** The Python walk does not go below a [decorated_definition] that has
    no [definition] field. *)
Definition cuts_walk (n : Node) : bool :=
  (node_type n =? "decorated_definition")
  && match ts_node_child_by_field_name n "definition" with
     | Some _ => false
     | None => true
     end.

(** [reaches ps n ps' d]: below [n] (whose parents are [ps]) lies [d]
    with parents [ps'], and no node from [n] down to the parent of [d]
    cuts the walk. *)
Inductive reaches : list Node -> Node -> list Node -> Node -> Prop :=
| reaches_here ps n : reaches ps n ps n
| reaches_child ps n c ps' d :
    cuts_walk n = false ->
    In c (children n) ->
    reaches (n :: ps) c ps' d ->
    reaches ps n ps' d.

(** [d] lies strictly below [n]. *)
Inductive below (n : Node) : Node -> Prop :=
| below_child c : In c (children n) -> below n c
| below_deeper c d : In c (children n) -> below c d -> below n d.

(** The unit comes from the definition [d], found at or below [n]. *)
Definition unit_from (n : Node) (strictly : bool) (info : FunctionInfo) : Prop :=
  exists ps d,
    ParserBase.node info = Some (mkTSNode ps d)
    /\ (below n d \/ (strictly = false /\ d = n)).

Definition to_lower (c : ascii) : ascii :=
  let code := nat_of_ascii c in
  if (65 <=? code)%nat && (code <=? 90)%nat
  then ascii_of_nat (code + 32)
  else c.

Fixpoint lowercase (s : string) : string :=
  match s with
  | EmptyString => EmptyString
  | String c rest => String (to_lower c) (lowercase rest)
  end.

(** Extension resolution as the specification words it: the extension
    without its leading dot and lowercased, looked up in the registry. *)
Definition create_for_extension_as_specified (f : Factory) (path : string)
    : option Parser :=
  let ext := path_extension path in
  if String.eqb ext "" then None
  else
    match extensions_ f !! lowercase (strip_dot ext) with
    | Some language => create_parser f language
    | None => None
    end.

End Notions.

(** ** Sample trees *)

Module Samples.

(** A line of source text with its newline. *)
Definition line (s : string) : string :=
  s ++ String (Ascii.ascii_of_nat 10) EmptyString.

(** The double-quote character, as a string. *)
Definition quote : string := String (Ascii.ascii_of_nat 34) EmptyString.

(** One function whose body is a single [if]. *)
Definition bare_if_source : string :=
  line "void f(int a) {" ++
  line "  if (a) {" ++
  line "    g();" ++
  line "  }" ++
  line "}".

Definition bare_if_if : Node :=
  mkNode "if_statement" None 18 39 1 3
    [ mkNode "if" None 18 20 1 1 [];
      mkNode "condition_clause" (Some "condition") 21 24 1 1
        [ mkNode "identifier" (Some "value") 22 23 1 1 [] ];
      mkNode "compound_statement" (Some "consequence") 25 39 1 3
        [ mkNode "expression_statement" None 31 35 2 2
            [ mkNode "call_expression" None 31 34 2 2
                [ mkNode "identifier" (Some "function") 31 32 2 2 [];
                  mkNode "argument_list" (Some "arguments") 32 34 2 2 [] ] ] ] ].

Definition bare_if_body : Node :=
  mkNode "compound_statement" (Some "body") 14 41 0 4
    [ bare_if_if ].

Definition bare_if_function : Node :=
  mkNode "function_definition" None 0 41 0 4
    [ mkNode "primitive_type" (Some "type") 0 4 0 0 [];
      mkNode "function_declarator" (Some "declarator") 5 13 0 0
        [ mkNode "identifier" (Some "declarator") 5 6 0 0 [];
          mkNode "parameter_list" (Some "parameters") 6 13 0 0 [] ];
      bare_if_body ].

Definition bare_if_tree : Node :=
  mkNode "translation_unit" None 0 42 0 5
    [ bare_if_function ].

(** One function whose body is a [for] holding an [if]. *)
Definition for_if_source : string :=
  line "void f(int n) {" ++
  line "  for (;;) {" ++
  line "    if (n) {" ++
  line "      g();" ++
  line "    }" ++
  line "  }" ++
  line "}".

Definition for_if_if : Node :=
  mkNode "if_statement" None 33 58 2 4
    [ mkNode "if" None 33 35 2 2 [];
      mkNode "condition_clause" (Some "condition") 36 39 2 2
        [ mkNode "identifier" (Some "value") 37 38 2 2 [] ];
      mkNode "compound_statement" (Some "consequence") 40 58 2 4
        [ mkNode "expression_statement" None 48 52 3 3 [] ] ].

Definition for_if_for_body : Node :=
  mkNode "compound_statement" (Some "body") 27 62 1 5
    [ for_if_if ].

Definition for_if_for : Node :=
  mkNode "for_statement" None 18 62 1 5
    [ mkNode "for" None 18 21 1 1 [];
      for_if_for_body ].

Definition for_if_body : Node :=
  mkNode "compound_statement" (Some "body") 14 64 0 6
    [ for_if_for ].

Definition for_if_function : Node :=
  mkNode "function_definition" None 0 64 0 6
    [ mkNode "primitive_type" (Some "type") 0 4 0 0 [];
      mkNode "function_declarator" (Some "declarator") 5 13 0 0
        [ mkNode "identifier" (Some "declarator") 5 6 0 0 [];
          mkNode "parameter_list" (Some "parameters") 6 13 0 0 [] ];
      for_if_body ].

Definition for_if_tree : Node :=
  mkNode "translation_unit" None 0 65 0 7
    [ for_if_function ].

(** One function whose body is a [switch] with an [if] under its only [case]. *)
Definition switch_if_source : string :=
  line "void f(int a) {" ++
  line "  switch (a) {" ++
  line "    case 1:" ++
  line "      if (a) {" ++
  line "      }" ++
  line "  }" ++
  line "}".

Definition switch_if_switch : Node :=
  mkNode "switch_statement" None 18 69 1 5
    [ mkNode "switch" None 18 24 1 1 [];
      mkNode "condition_clause" (Some "condition") 25 28 1 1 [];
      mkNode "compound_statement" (Some "body") 29 69 1 5
        [ mkNode "case_statement" None 35 65 2 4
            [ mkNode "case" None 35 39 2 2 [];
              mkNode "number_literal" (Some "value") 40 41 2 2 [];
              mkNode "if_statement" None 49 65 3 4
                [ mkNode "if" None 49 51 3 3 [];
                  mkNode "condition_clause" (Some "condition") 52 55 3 3 [];
                  mkNode "compound_statement" (Some "consequence") 56 65 3 4 [] ] ] ] ].

Definition switch_if_body : Node :=
  mkNode "compound_statement" (Some "body") 14 71 0 6
    [ switch_if_switch ].

Definition switch_if_function : Node :=
  mkNode "function_definition" None 0 71 0 6
    [ mkNode "primitive_type" (Some "type") 0 4 0 0 [];
      mkNode "function_declarator" (Some "declarator") 5 13 0 0
        [ mkNode "identifier" (Some "declarator") 5 6 0 0 [];
          mkNode "parameter_list" (Some "parameters") 6 13 0 0 [] ];
      switch_if_body ].

Definition switch_if_tree : Node :=
  mkNode "translation_unit" None 0 72 0 7
    [ switch_if_function ].

(** One function without control structures; its body holds a logical AND. *)
Definition boolean_only_source : string :=
  line "bool f(bool a, bool b) {" ++
  line "  return a && b;" ++
  line "}".

Definition boolean_only_conjunction : Node :=
  mkNode "binary_expression" None 34 40 1 1
    [ mkNode "identifier" (Some "left") 34 35 1 1 [];
      mkNode "&&" (Some "operator") 36 38 1 1 [];
      mkNode "identifier" (Some "right") 39 40 1 1 [] ].

Definition boolean_only_body : Node :=
  mkNode "compound_statement" (Some "body") 23 43 0 2
    [ mkNode "return_statement" None 27 41 1 1
        [ mkNode "return" None 27 33 1 1 [];
          boolean_only_conjunction ] ].

Definition boolean_only_function : Node :=
  mkNode "function_definition" None 0 43 0 2
    [ mkNode "primitive_type" (Some "type") 0 4 0 0 [];
      mkNode "function_declarator" (Some "declarator") 5 22 0 0
        [ mkNode "identifier" (Some "declarator") 5 6 0 0 [];
          mkNode "parameter_list" (Some "parameters") 6 22 0 0 [] ];
      boolean_only_body ].

Definition boolean_only_tree : Node :=
  mkNode "translation_unit" None 0 44 0 3
    [ boolean_only_function ].

(** A Python function holding a nested function that holds an [if]. *)
Definition py_nested_source : string :=
  line "def outer():" ++
  line "    def inner():" ++
  line "        if x:" ++
  line "            pass" ++
  line "    return inner".

Definition py_nested_inner : Node :=
  mkNode "function_definition" None 17 60 1 3
    [ mkNode "def" None 17 20 1 1 [];
      mkNode "identifier" (Some "name") 21 26 1 1 [];
      mkNode "parameters" (Some "parameters") 26 28 1 1 [];
      mkNode "block" (Some "body") 38 60 2 3
        [ mkNode "if_statement" None 38 60 2 3
            [ mkNode "if" None 38 40 2 2 [];
              mkNode "identifier" (Some "condition") 41 42 2 2 [];
              mkNode "block" (Some "consequence") 56 60 3 3
                [ mkNode "pass_statement" None 56 60 3 3 [] ] ] ] ].

Definition py_nested_outer_body : Node :=
  mkNode "block" (Some "body") 17 77 1 4
    [ py_nested_inner;
      mkNode "return_statement" None 65 77 4 4
        [ mkNode "identifier" None 72 77 4 4 [] ] ].

Definition py_nested_outer : Node :=
  mkNode "function_definition" None 0 77 0 4
    [ mkNode "def" None 0 3 0 0 [];
      mkNode "identifier" (Some "name") 4 9 0 0 [];
      mkNode "parameters" (Some "parameters") 9 11 0 0 [];
      py_nested_outer_body ].

Definition py_nested_tree : Node :=
  mkNode "module" None 0 78 0 5
    [ py_nested_outer ].

(** A C++ function definition holding another function definition. *)
Definition cpp_nested_source : string :=
  line "void outer() {" ++
  line "  void inner() {" ++
  line "  }" ++
  line "}".

Definition cpp_nested_inner : Node :=
  mkNode "function_definition" None 17 35 1 2
    [ mkNode "primitive_type" (Some "type") 17 21 1 1 [];
      mkNode "function_declarator" (Some "declarator") 22 29 1 1
        [ mkNode "identifier" (Some "declarator") 22 27 1 1 [];
          mkNode "parameter_list" (Some "parameters") 27 29 1 1 [] ];
      mkNode "compound_statement" (Some "body") 30 35 1 2 [] ].

Definition cpp_nested_outer_body : Node :=
  mkNode "compound_statement" (Some "body") 13 37 0 3
    [ cpp_nested_inner ].

Definition cpp_nested_outer : Node :=
  mkNode "function_definition" None 0 37 0 3
    [ mkNode "primitive_type" (Some "type") 0 4 0 0 [];
      mkNode "function_declarator" (Some "declarator") 5 12 0 0
        [ mkNode "identifier" (Some "declarator") 5 10 0 0 [];
          mkNode "parameter_list" (Some "parameters") 10 12 0 0 [] ];
      cpp_nested_outer_body ].

Definition cpp_nested_tree : Node :=
  mkNode "translation_unit" None 0 38 0 4
    [ cpp_nested_outer ].

(** An operator function, whose declarator holds no [identifier] outside
    its parameter list, followed by a plain function. *)
Definition operator_and_get_source : string :=
  line "bool operator==(A x, A y) {" ++
  line "  return true;" ++
  line "}" ++
  line "int get() {" ++
  line "  return 1;" ++
  line "}".

Definition operator_and_get_operator : Node :=
  mkNode "function_definition" None 0 44 0 2
    [ mkNode "primitive_type" (Some "type") 0 4 0 0 [];
      mkNode "function_declarator" (Some "declarator") 5 25 0 0
        [ mkNode "operator_name" (Some "declarator") 5 15 0 0 [];
          mkNode "parameter_list" (Some "parameters") 15 25 0 0
            [ mkNode "parameter_declaration" None 16 19 0 0
                [ mkNode "type_identifier" (Some "type") 16 17 0 0 [];
                  mkNode "identifier" (Some "declarator") 18 19 0 0 [] ];
              mkNode "parameter_declaration" None 21 24 0 0
                [ mkNode "type_identifier" (Some "type") 21 22 0 0 [];
                  mkNode "identifier" (Some "declarator") 23 24 0 0 [] ] ] ];
      mkNode "compound_statement" (Some "body") 26 44 0 2 [] ].

Definition operator_and_get_get : Node :=
  mkNode "function_definition" None 45 70 3 5
    [ mkNode "primitive_type" (Some "type") 45 48 3 3 [];
      mkNode "function_declarator" (Some "declarator") 49 54 3 3
        [ mkNode "identifier" (Some "declarator") 49 52 3 3 [];
          mkNode "parameter_list" (Some "parameters") 52 54 3 3 [] ];
      mkNode "compound_statement" (Some "body") 55 70 3 5 [] ].

Definition operator_and_get_tree : Node :=
  mkNode "translation_unit" None 0 71 0 6
    [ operator_and_get_operator;
      operator_and_get_get ].

(** A Python function whose body is an [if] / [elif] / [else] chain. *)
Definition py_elif_chain_source : string :=
  line "def f(a, b):" ++
  line "    if a:" ++
  line "        pass" ++
  line "    elif b:" ++
  line "        pass" ++
  line "    else:" ++
  line "        pass".

Definition py_elif_chain_elif : Node :=
  mkNode "elif_clause" (Some "alternative") 40 60 3 4
    [ mkNode "elif" None 40 44 3 3 [];
      mkNode "identifier" (Some "condition") 45 46 3 3 [];
      mkNode "block" (Some "consequence") 56 60 4 4
        [ mkNode "pass_statement" None 56 60 4 4 [] ] ].

Definition py_elif_chain_else : Node :=
  mkNode "else_clause" (Some "alternative") 65 83 5 6
    [ mkNode "else" None 65 69 5 5 [];
      mkNode "block" (Some "body") 79 83 6 6
        [ mkNode "pass_statement" None 79 83 6 6 [] ] ].

Definition py_elif_chain_if : Node :=
  mkNode "if_statement" None 17 83 1 6
    [ mkNode "if" None 17 19 1 1 [];
      mkNode "identifier" (Some "condition") 20 21 1 1 [];
      mkNode "block" (Some "consequence") 31 35 2 2
        [ mkNode "pass_statement" None 31 35 2 2 [] ];
      py_elif_chain_elif;
      py_elif_chain_else ].

Definition py_elif_chain_body : Node :=
  mkNode "block" (Some "body") 17 83 1 6
    [ py_elif_chain_if ].

Definition py_elif_chain_function : Node :=
  mkNode "function_definition" None 0 83 0 6
    [ mkNode "def" None 0 3 0 0 [];
      mkNode "identifier" (Some "name") 4 5 0 0 [];
      mkNode "parameters" (Some "parameters") 5 11 0 0 [];
      py_elif_chain_body ].

Definition py_elif_chain_tree : Node :=
  mkNode "module" None 0 84 0 7
    [ py_elif_chain_function ].

(** One C++ function whose body is an [if] / [else if] / [else] chain,
    as the C++ grammar of the build (tree-sitter-cpp v0.20.0) parses it:
    the [else] keyword and the alternative are children of the
    [if_statement] itself. *)
Definition direct_else_chain_source : string :=
  line "void f(int a, int b) {" ++
  line "  if (a) {" ++
  line "  } else if (b) {" ++
  line "  } else {" ++
  line "  }" ++
  line "}".

Definition direct_else_chain_else_if : Node :=
  mkNode "if_statement" (Some "alternative") 43 66 2 4
    [ mkNode "if" None 43 45 2 2 [];
      mkNode "condition_clause" (Some "condition") 46 49 2 2 [];
      mkNode "compound_statement" (Some "consequence") 50 55 2 3 [];
      mkNode "else" None 56 60 3 3 [];
      mkNode "compound_statement" (Some "alternative") 61 66 3 4 [] ].

Definition direct_else_chain_if : Node :=
  mkNode "if_statement" None 25 66 1 4
    [ mkNode "if" None 25 27 1 1 [];
      mkNode "condition_clause" (Some "condition") 28 31 1 1 [];
      mkNode "compound_statement" (Some "consequence") 32 37 1 2 [];
      mkNode "else" None 38 42 2 2 [];
      direct_else_chain_else_if ].

Definition direct_else_chain_body : Node :=
  mkNode "compound_statement" (Some "body") 21 68 0 5
    [ direct_else_chain_if ].

Definition direct_else_chain_function : Node :=
  mkNode "function_definition" None 0 68 0 5
    [ mkNode "primitive_type" (Some "type") 0 4 0 0 [];
      mkNode "function_declarator" (Some "declarator") 5 20 0 0
        [ mkNode "identifier" (Some "declarator") 5 6 0 0 [];
          mkNode "parameter_list" (Some "parameters") 6 20 0 0 [] ];
      direct_else_chain_body ].

Definition direct_else_chain_tree : Node :=
  mkNode "translation_unit" None 0 69 0 6
    [ direct_else_chain_function ].

(** The same with one more [else if]: every further else-if is the
    alternative of the [if_statement] before it. *)
Definition long_else_chain_source : string :=
  line "void f(int a, int b, int c) {" ++
  line "  if (a) {" ++
  line "  } else if (b) {" ++
  line "  } else if (c) {" ++
  line "  } else {" ++
  line "  }" ++
  line "}".

Definition long_else_chain_third : Node :=
  mkNode "if_statement" (Some "alternative") 68 91 3 5
    [ mkNode "if" None 68 70 3 3 [];
      mkNode "condition_clause" (Some "condition") 71 74 3 3 [];
      mkNode "compound_statement" (Some "consequence") 75 80 3 4 [];
      mkNode "else" None 81 85 4 4 [];
      mkNode "compound_statement" (Some "alternative") 86 91 4 5 [] ].

Definition long_else_chain_second : Node :=
  mkNode "if_statement" (Some "alternative") 50 91 2 5
    [ mkNode "if" None 50 52 2 2 [];
      mkNode "condition_clause" (Some "condition") 53 56 2 2 [];
      mkNode "compound_statement" (Some "consequence") 57 62 2 3 [];
      mkNode "else" None 63 67 3 3 [];
      long_else_chain_third ].

Definition long_else_chain_if : Node :=
  mkNode "if_statement" None 32 91 1 5
    [ mkNode "if" None 32 34 1 1 [];
      mkNode "condition_clause" (Some "condition") 35 38 1 1 [];
      mkNode "compound_statement" (Some "consequence") 39 44 1 2 [];
      mkNode "else" None 45 49 2 2 [];
      long_else_chain_second ].

Definition long_else_chain_function : Node :=
  mkNode "function_definition" None 0 93 0 6
    [ mkNode "primitive_type" (Some "type") 0 4 0 0 [];
      mkNode "function_declarator" (Some "declarator") 5 27 0 0
        [ mkNode "identifier" (Some "declarator") 5 6 0 0 [];
          mkNode "parameter_list" (Some "parameters") 6 27 0 0 [] ];
      mkNode "compound_statement" (Some "body") 28 93 0 6
        [ long_else_chain_if ] ].

Definition long_else_chain_tree : Node :=
  mkNode "translation_unit" None 0 94 0 7
    [ long_else_chain_function ].

(** The function [countVowels] of [examples/vowel_count.cpp], whose
    comments give the expected increments and the expected total 7. *)
Definition vowel_count_source : string :=
  line "std::string countVowels(const std::string& word) {" ++
  line "    int count = 0;" ++
  line "    std::vector<char> vowels = {'a', 'e', 'i', 'o', 'u'}; // List of vowels" ++
  line "" ++
  line "    // Iterate through each character in the word" ++
  line "    for (char c : word) { // +1" ++
  line "        for (char v : vowels) { // +2 (nesting level = 1)" ++
  line "            if (std::tolower(c) == v) { // +3 (nesting level = 2)" ++
  line "                count++;" ++
  line "            }" ++
  line "        }" ++
  line "    }" ++
  line "    " ++
  line "    if (count == 0) { // +1" ++
  line ("        return " ++ quote ++ "does not contain vowels" ++ quote ++ ";") ++
  line "    }" ++
  line ("    return " ++ quote ++ "contains " ++ quote ++ " + std::to_string(count) + " ++ quote ++ " vowels" ++ quote ++ ";") ++
  line "} // cognitive complexity = 7".

Definition vowel_count_inner_if : Node :=
  mkNode "if_statement" None 299 391 7 9
    [ mkNode "if" None 299 301 7 7 [];
      mkNode "condition_clause" (Some "condition") 302 324 7 7
        [ mkNode "binary_expression" (Some "value") 303 323 7 7
            [ mkNode "call_expression" (Some "left") 303 318 7 7 [];
              mkNode "==" (Some "operator") 319 321 7 7 [];
              mkNode "identifier" (Some "right") 322 323 7 7 [] ] ];
      mkNode "compound_statement" (Some "consequence") 325 391 7 9
        [ mkNode "comment" None 327 352 7 7 [];
          mkNode "expression_statement" None 369 377 8 8 [] ] ].

Definition vowel_count_inner_for : Node :=
  mkNode "for_range_loop" None 237 401 6 10
    [ mkNode "for" None 237 240 6 6 [];
      mkNode "primitive_type" (Some "type") 242 246 6 6 [];
      mkNode "identifier" (Some "declarator") 247 248 6 6 [];
      mkNode "identifier" (Some "right") 251 257 6 6 [];
      mkNode "compound_statement" (Some "body") 259 401 6 10
        [ mkNode "comment" None 261 286 6 6 [];
          vowel_count_inner_if ] ].

Definition vowel_count_outer_for : Node :=
  mkNode "for_range_loop" None 201 407 5 11
    [ mkNode "for" None 201 204 5 5 [];
      mkNode "primitive_type" (Some "type") 206 210 5 5 [];
      mkNode "identifier" (Some "declarator") 206 207 5 5 [];
      mkNode "identifier" (Some "right") 215 219 5 5 [];
      mkNode "compound_statement" (Some "body") 221 407 5 11
        [ mkNode "comment" None 223 228 5 5 [];
          vowel_count_inner_for ] ].

Definition vowel_count_last_if : Node :=
  mkNode "if_statement" None 417 488 13 15
    [ mkNode "if" None 417 419 13 13 [];
      mkNode "condition_clause" (Some "condition") 420 432 13 13
        [ mkNode "binary_expression" (Some "value") 421 431 13 13
            [ mkNode "identifier" (Some "left") 421 426 13 13 [];
              mkNode "==" (Some "operator") 427 429 13 13 [];
              mkNode "number_literal" (Some "right") 430 431 13 13 [] ] ];
      mkNode "compound_statement" (Some "consequence") 433 488 13 15
        [ mkNode "comment" None 435 440 13 13 [];
          mkNode "return_statement" None 449 482 14 14 [] ] ].

Definition vowel_count_body : Node :=
  mkNode "compound_statement" (Some "body") 49 550 0 17
    [ mkNode "declaration" None 55 69 1 1 [];
      mkNode "declaration" None 74 127 2 2 [];
      mkNode "comment" None 128 145 2 2 [];
      mkNode "comment" None 151 196 4 4 [];
      vowel_count_outer_for;
      vowel_count_last_if;
      mkNode "return_statement" None 493 548 16 16 [] ].

Definition vowel_count_function : Node :=
  mkNode "function_definition" None 0 550 0 17
    [ mkNode "qualified_identifier" (Some "type") 0 11 0 0 [];
      mkNode "function_declarator" (Some "declarator") 12 48 0 0
        [ mkNode "identifier" (Some "declarator") 12 23 0 0 [];
          mkNode "parameter_list" (Some "parameters") 23 48 0 0 [] ];
      vowel_count_body ].

Definition vowel_count_tree : Node :=
  mkNode "translation_unit" None 0 579 0 18
    [ vowel_count_function ].

End Samples.

(** ** The registry: listings and sequences of registrations *)

Module FactoryListing.
Import ParserFactory.

(** [get_supported_languages] and [get_supported_extensions] collect the
    keys of the two tables.  The order in which a [std::unordered_map] is
    walked is unspecified; the lists are given in the order in which the
    finite map enumerates its keys, and nothing below depends on it. *)
Definition get_supported_languages (f : Factory) : list string :=
  map fst (map_to_list (parsers_ f)).

Definition get_supported_extensions (f : Factory) : list string :=
  map fst (map_to_list (extensions_ f)).

(** The registry after the calls [register_parser] of [regs], first to
    last, on the empty registry. *)
Definition registrations (regs : list (option Parser)) : Factory :=
  fold_left register_parser regs empty_factory.

(** Every extension of the table leads to a stored parser that bears the
    recorded language name and claims the extension. *)
Definition registry_ok (f : Factory) : Prop :=
  forall ext lang,
    extensions_ f !! ext = Some lang ->
    exists p,
      parsers_ f !! lang = Some p
      /\ get_language_name p = lang
      /\ In ext (get_extensions p).

End FactoryListing.

(** ** Notions for the properties of the traversal *)

Module TraversalNotions.
Import Complexity.

(** A result without factors at a given nesting level. *)
Definition fresh_result (level : Z) : ComplexityResult := mkResult 0 level [] ∅.

(** The largest number of nesting constructs on a path from the node
    down to a leaf, the node included. *)
Fixpoint nesting_depth (n : Node) : Z :=
  (if increases_nesting_level (node_type n) then 1 else 0)
  + fold_right (fun child acc => Z.max (nesting_depth child) acc) 0 (children n).

(** [r] is [r0] with the factors [before] in front and [base] added to
    the total, at the same nesting level. *)
Definition extends (before : list ComplexityFactor) (base : Z)
    (r r0 : ComplexityResult) : Prop :=
  nesting_level r = nesting_level r0
  /\ factors r = (before ++ factors r0)%list
  /\ size_t_wrap (total_complexity r) = size_t_wrap (base + total_complexity r0).

(** The nesting level and every increment recorded lie between the
    given bounds. *)
Definition increments_within (low high : Z) (r : ComplexityResult) : Prop :=
  Forall (fun f => low <= increment f <= high) (factors r).

End TraversalNotions.

(** ** The entry points of the orchestrator (analyzer.cpp) *)

Module FileAnalysis.
Import Complexity ParserFactory Analyzer Notions.

(** The configuration members of [Analyzer]. *)
Record Settings : Type := mkSettings {
  language_ : string;
  complexity_threshold_ : Z;
  ignore_patterns_ : list string
}.

Section WithEnvironment.
(** [ts_parser_parse_string] under the grammar of a language. *)
Variable ts_parse : Parser -> string -> option Node.
(** [utils::read_file_content]; [None] is the exception thrown for a
    file that cannot be opened. *)
Variable read_file_content : string -> option string.
(** [utils::list_files]; [None] is the exception thrown for a directory
    that cannot be listed. *)
Variable list_files : string -> bool -> option (list string).
(** [utils::is_git_repo] and [utils::list_git_files]; [None] is an
    exception. *)
Variable is_git_repo : string -> bool.
Variable list_git_files : string -> option (list string).
(** [utils::matches_pattern]. *)
Variable matches_pattern : string -> string -> bool.

(** The language [analyze_file] works with: the one set on the analyzer,
    or the one detected from the file name when none is set. *)
Definition chosen_language (f : Factory) (s : Settings) (file_path : string)
    : string :=
  if String.eqb (language_ s) "" then detect_language f file_path
  else language_ s.

(** [analyze_file]: every exception ends in an empty list. *)
Definition analyze_file (f : Factory) (s : Settings) (file_path : string)
    : list AnalysisResult :=
  match read_file_content file_path with
  | None => []
  | Some content =>
      if String.eqb content "" then []
      else
        let lang := chosen_language f s file_path in
        if String.eqb lang "" then []
        else analyze_content ts_parse f (complexity_threshold_ s)
               content file_path lang
  end.

Definition should_analyze_file (f : Factory) (s : Settings) (file_path : string)
    : bool :=
  if existsb (matches_pattern file_path) (ignore_patterns_ s) then false
  else
    match create_parser_for_file f file_path with
    | Some _ => true
    | None => false
    end.

(** The loop shared by [analyze_directory] and [analyze_git_repository]. *)
Definition analyze_files (f : Factory) (s : Settings) (files : list string)
    : list AnalysisResult :=
  fold_left
    (fun results file =>
       if should_analyze_file f s file
       then (results ++ analyze_file f s file)%list
       else results)
    files [].

(** [analyze_directory]: a directory that cannot be listed leaves the
    result list as it was before the loop, empty. *)
Definition analyze_directory (f : Factory) (s : Settings)
    (directory_path : string) (recursive : bool) : list AnalysisResult :=
  match list_files directory_path recursive with
  | None => []
  | Some files => analyze_files f s files
  end.

Definition analyze_git_repository (f : Factory) (s : Settings)
    (repository_path : string) : list AnalysisResult :=
  if is_git_repo repository_path then
    match list_git_files repository_path with
    | None => []
    | Some files => analyze_files f s files
    end
  else [].

End WithEnvironment.

(** [h] is [n] with the parents [ps], or a node under [n] with the
    chain of its ancestors up to [n] put before [ps]. *)
Inductive located (ps : list Node) (n : Node) : TSNode -> Prop :=
| located_here : located ps n (mkTSNode ps n)
| located_child c h :
    In c (children n) -> located (n :: ps) c h -> located ps n h.

(** The two ways in which [find_function_node] accepts a node for a
    name: the Python way, through the [name] field of the function node
    and the names of its enclosing functions, and the C++ way, through
    the name found in the declarator. *)
Definition accepted_python (h : TSNode) (function_name source : string) : Prop :=
  python_name_matches h function_name source = true.

Definition accepted_cpp (h : TSNode) (function_name source : string) : Prop :=
  node_type (ts_node h) = "function_definition"
  /\ cpp_name_matches (ts_node h) function_name source = true.

(** An [identifier] node whose span fits the source the way both
    [extract_node_text] and [extract_function_name] ask for. *)
Definition fitting_identifier (n : Node) (source : string) : Prop :=
  node_type n = "identifier"
  /\ (0 <= start_byte n <= end_byte n)%Z
  /\ (start_byte n < Z.of_nat (String.length source))%Z
  /\ (end_byte n <= Z.of_nat (String.length source))%Z
  /\ (end_byte n < UINT32_MAX_plus_1)%Z.

(** The [name] field of every function definition among [nodes] is a
    fitting identifier. *)
Definition names_fit (nodes : list Node) (source : string) : Prop :=
  forall fn name_node,
    In fn nodes ->
    node_type fn = "function_definition" ->
    ts_node_child_by_field_name fn "name" = Some name_node ->
    fitting_identifier name_node source.

(** What [analyze_content] establishes for a result it returns. *)
Definition result_of (path lang content : string) (root_node : Node)
    (threshold : Z) (res : AnalysisResult) : Prop :=
  Analyzer.file_path res = path
  /\ Analyzer.language res = lang
  /\ Analyzer.function_name res <> ""
  /\ threshold <= Analyzer.complexity res
  /\ Analyzer.complexity res = sum_increments (Analyzer.factors res)
  /\ exists function_node,
       find_function_node [] root_node (Analyzer.function_name res) content
       = Some function_node
       /\ Analyzer.complexity res
          = total_complexity (calculate (Some function_node) content)
       /\ Analyzer.factors res
          = Complexity.factors (calculate (Some function_node) content).

(** The function name and the lines of a result and of a unit. *)
Definition result_key (res : AnalysisResult) : string * Z * Z :=
  (Analyzer.function_name res, Analyzer.start_line res, Analyzer.end_line res).

Definition unit_key (func : FunctionInfo) : string * Z * Z :=
  (ParserBase.name func, ParserBase.start_line func, ParserBase.end_line func).

End FileAnalysis.

(** ** Notions for the two extractors *)

Module ExtractorNotions.
Import ParserFactory Notions.

(** The C++ walk records [n] and does not go below it. *)
Definition is_cpp_unit_node (n : Node) : bool :=
  (node_type n =? "function_definition")
  && match CppParser.resolve_name n with
     | Some _ => true
     | None => false
     end.

(** [cpp_reaches ps n ps' d]: at or below [n] (whose parents are [ps])
    lies [d] with parents [ps'], and no node from [n] down to the parent
    of [d] is recorded by the C++ walk. *)
Inductive cpp_reaches : list Node -> Node -> list Node -> Node -> Prop :=
| cpp_reaches_here ps n : cpp_reaches ps n ps n
| cpp_reaches_child ps n c ps' d :
    is_cpp_unit_node n = false ->
    In c (children n) ->
    cpp_reaches (n :: ps) c ps' d ->
    cpp_reaches ps n ps' d.

(** The unit the C++ walk builds when it stands on [d]. *)
Definition cpp_unit_at (ps : list Node) (d : Node) (source class_scope : string)
    (info : FunctionInfo) : Prop :=
  node_type d = "function_definition"
  /\ exists name_node,
       CppParser.resolve_name d = Some name_node
       /\ info = CppParser.make_info ps d name_node source class_scope.

(** The unit the Python walk builds when it stands on [d]: for a function
    definition the unit of [d], for a decorated definition the unit of
    its [definition] field. *)
Definition python_unit_at (ps : list Node) (d : Node) (source : string)
    (info : FunctionInfo) : Prop :=
  (node_type d = "function_definition"
   /\ info = PythonParser.make_info ps d source)
  \/ (node_type d = "decorated_definition"
      /\ exists func_node,
           ts_node_child_by_field_name d "definition" = Some func_node
           /\ info = PythonParser.make_info (d :: ps) func_node source).

(** The names of the function definitions among [parents] that have a
    [name] field, nearest first. *)
Fixpoint enclosing_names (parents : list Node) (source : string) : list string :=
  match parents with
  | [] => []
  | parent :: up =>
      if node_type parent =? "function_definition" then
        match ts_node_child_by_field_name parent "name" with
        | Some parent_name =>
            extract_node_text parent_name source :: enclosing_names up source
        | None => enclosing_names up source
        end
      else enclosing_names up source
  end.

(** [d] is [n] or lies below it. *)
Definition at_or_below (n d : Node) : Prop := d = n \/ below n d.

(** What [find_function_name] accepts as a name under [declarator]. *)
Definition is_name_under (declarator found : Node) : Prop :=
  at_or_below declarator found
  /\ (node_type found = "identifier"
      \/ exists qualified,
           at_or_below declarator qualified
           /\ CppParser.is_qualified (node_type qualified) = true
           /\ ts_node_child_by_field_name qualified "name" = Some found).

End ExtractorNotions.

(** ** A decorated Python function *)

Module DecoratedSample.
Import Samples.

Definition decorated_source : string :=
  line "@cache" ++
  line "def f():" ++
  line "    pass".

Definition decorated_function : Node :=
  mkNode "function_definition" (Some "definition") 7 24 1 2
    [ mkNode "def" None 7 10 1 1 [];
      mkNode "identifier" (Some "name") 11 12 1 1 [];
      mkNode "parameters" (Some "parameters") 12 14 1 1
        [ mkNode "(" None 12 13 1 1 [];
          mkNode ")" None 13 14 1 1 [] ];
      mkNode ":" None 14 15 1 1 [];
      mkNode "block" (Some "body") 20 24 2 2
        [ mkNode "pass_statement" None 20 24 2 2
            [ mkNode "pass" None 20 24 2 2 [] ] ] ].

Definition decorated_definition : Node :=
  mkNode "decorated_definition" None 0 24 0 2
    [ mkNode "decorator" None 0 6 0 0
        [ mkNode "@" None 0 1 0 0 [];
          mkNode "identifier" None 1 6 0 0 [] ];
      decorated_function ].

Definition decorated_tree : Node :=
  mkNode "module" None 0 25 0 3
    [ decorated_definition ].

End DecoratedSample.

(** ** The summary of [display_results] (main.cpp) *)

Module Report.
Import Analyzer.

(** The two accumulators of [display_results]: the overall total and the
    total per file path.  [complexity_per_file[path] += c] starts a
    missing entry at 0. *)
Record Summary : Type := mkSummary {
  total_complexity : Z;
  complexity_per_file : gmap string Z
}.

Definition add_result (summary : Summary) (result : AnalysisResult) : Summary :=
  mkSummary
    (size_t_add (total_complexity summary) (Analyzer.complexity result))
    (<[Analyzer.file_path result :=
         size_t_add
           (default 0%Z (complexity_per_file summary !! Analyzer.file_path result))
           (Analyzer.complexity result)]>
       (complexity_per_file summary)).

Definition summarize (results : list AnalysisResult) : Summary :=
  fold_left add_result results (mkSummary 0 ∅).

(** The complexities of the results of one file, added up in [size_t]
    from [start]. *)
Definition file_total (path : string) (results : list AnalysisResult) (start : Z)
    : Z :=
  fold_left
    (fun acc r =>
       if String.eqb (Analyzer.file_path r) path
       then size_t_add acc (Analyzer.complexity r)
       else acc)
    results start.

Definition mentions (path : string) (results : list AnalysisResult) : bool :=
  existsb (fun r => String.eqb (Analyzer.file_path r) path) results.

(** The sum of the entries of the per-file table, in the integers. *)
Definition table_sum (table : gmap string Z) : Z :=
  map_fold (fun _ value acc => (value + acc)%Z) 0%Z table.

End Report.

(** ** Helper functions of the parser base, of the calculator and of
    the length conversion *)

Module Helpers.
Import ParserFactory Analyzer.

(** [ParserBase::get_function_name]: the text of the first [identifier]
    in the subtree, taken from an empty source text. *)
Fixpoint get_function_name_of (n : Node) : option string :=
  if node_type n =? "identifier" then Some (extract_node_text n "")
  else first_some get_function_name_of (children n).

Definition get_function_name (node : option Node) : option string :=
  match node with
  | None => None
  | Some n => get_function_name_of n
  end.

(** Some node of the subtree is an [identifier]. *)
Fixpoint has_identifier (n : Node) : bool :=
  (node_type n =? "identifier") || existsb has_identifier (children n).

(** [CognitiveComplexity::extract_node_text]: [substr] without a check
    of the span; [None] is the [std::out_of_range] that [substr] throws
    for a start behind the end of the text. *)
Definition calculator_extract_node_text (n : Node) (source_code : string)
    : option string :=
  let start := start_byte n in
  let end_ := end_byte n in
  if (start >? Z.of_nat (String.length source_code))%Z then None
  else Some (substr source_code start (uint32_wrap (end_ - start))).

(** [utils::safe_cast<uint32_t>] of a [size_t] value; [None] is the
    [std::overflow_error]. *)
Definition safe_cast_uint32 (value : Z) : option Z :=
  if ((value >? UINT32_MAX_plus_1 - 1) || (value <? 0))%Z then None
  else Some value.

Definition safe_string_length (str : string) : option Z :=
  safe_cast_uint32 (Z.of_nat (String.length str)).

Section WithProvider.
Variable ts_parse : Parser -> string -> option Node.

(** [parse_functions] of the two extractors with the conversion of the
    length written out: the overflow error is caught inside
    [parse_functions], which then returns the empty vector. *)
Definition checked_parse_functions (parser : Parser) (context : ParserContext)
    : list FunctionInfo :=
  if String.eqb (file_content context) "" then []
  else
    match safe_string_length (file_content context) with
    | None => []
    | Some _ =>
        match ts_parse parser (file_content context) with
        | None => []
        | Some root_node =>
            match parser with
            | Cpp =>
                CppParser.collect_functions [] root_node (file_content context) [] ""
            | Python =>
                PythonParser.collect_functions [] root_node (file_content context) []
            end
        end
    end.

(** [analyze_content] over the extractors with the check.  The parse of
    the orchestrator itself is handed the length reduced to [uint32_t];
    from 2^32 bytes on its tree is not looked at, no unit being
    extracted. *)
Definition checked_analyze_content (f : Factory) (threshold : Z)
    (content path lang : string) : list AnalysisResult :=
  match grammar_of lang with
  | None => []
  | Some grammar =>
      match ts_parse grammar content with
      | None => []
      | Some root_node =>
          match create_parser f lang with
          | None => []
          | Some parser =>
              let functions :=
                checked_parse_functions parser (mkParserContext content path) in
              fold_left (analyze_function path lang content root_node threshold)
                functions []
          end
      end
  end.
End WithProvider.

End Helpers.

(** * Properties *)

(** ** Machine integers and trees *)

Module BaseFacts.

Lemma size_t_wrap_range z : is_size_t (size_t_wrap z).
Proof.
  unfold is_size_t, size_t_wrap, SIZE_MAX_plus_1.
  apply Z.mod_pos_bound. lia.
Qed.

Lemma size_t_wrap_small z : is_size_t z -> size_t_wrap z = z.
Proof.
  unfold is_size_t, size_t_wrap. intros H. now apply Z.mod_small.
Qed.

Lemma size_t_decr_incr n : is_size_t n -> size_t_decr (size_t_incr n) = n.
Proof.
  unfold is_size_t, size_t_decr, size_t_incr, size_t_wrap, SIZE_MAX_plus_1.
  intros H.
  rewrite Zminus_mod_idemp_l.
  replace (n + 1 - 1) with n by lia.
  now apply Z.mod_small.
Qed.

Lemma size_t_add_wrap_l a b : size_t_add (size_t_wrap a) b = size_t_wrap (a + b).
Proof.
  unfold size_t_add, size_t_wrap. now rewrite Zplus_mod_idemp_l.
Qed.

Lemma with_field_child_spec {A : Type} field (k : Node -> A) dflt n :
  with_field_child field k dflt (children n) =
  match ts_node_child_by_field_name n field with
  | Some c => k c
  | None => dflt
  end.
Proof.
  unfold ts_node_child_by_field_name.
  induction (children n) as [|c rest IH]; simpl; [reflexivity|].
  destruct (has_field field c); [reflexivity | exact IH].
Qed.

Lemma with_field_child_In {A : Type} field (k : Node -> A) dflt kids (Q : A -> Prop) :
  Q dflt ->
  (forall c, In c kids -> Q (k c)) ->
  Q (with_field_child field k dflt kids).
Proof.
  intros Hd Hk. induction kids as [|c rest IH]; simpl; [exact Hd|].
  destruct (has_field field c).
  - apply Hk. now left.
  - apply IH. intros c' Hc'. apply Hk. now right.
Qed.

Lemma child_by_field_In n field c :
  ts_node_child_by_field_name n field = Some c -> In c (children n).
Proof.
  unfold ts_node_child_by_field_name. intros H.
  apply find_some in H. tauto.
Qed.

Lemma fold_left_preserves {A B : Type} (f : A -> B -> A) (Q : A -> Prop) l :
  (forall a b, In b l -> Q a -> Q (f a b)) ->
  forall a, Q a -> Q (fold_left f l a).
Proof.
  induction l as [|b l IH]; simpl; intros Hf a Ha; [exact Ha|].
  apply IH.
  - intros a' b' Hb'. apply Hf. now right.
  - apply Hf; [now left | exact Ha].
Qed.

End BaseFacts.

(** ** The complexity calculator *)

Module ComplexityFacts.
Import Complexity Notions BaseFacts.

(** *** Unfolding the traversal *)

Lemma analyze_control_flow_eq parents n src r :
  analyze_control_flow parents n src r =
  if node_type n =? "function_definition" then
    if is_nested parents then r
    else
      match ts_node_child_by_field_name n "body" with
      | Some body => analyze_control_flow (n :: parents) body src r
      | None => r
      end
  else
    let r1 :=
      if is_control_structure (node_type n)
      then score_control_structure parents (node_type n)
             (uint32_add (start_row n) 1) r
      else r in
    let r2 :=
      if increases_nesting_level (node_type n)
      then set_nesting_level r1 (size_t_incr (nesting_level r1))
      else r1 in
    let r3 := analyze_children parents n src r2 in
    if increases_nesting_level (node_type n)
    then set_nesting_level r3 (size_t_decr (nesting_level r3))
    else r3.
Proof.
  rewrite <- with_field_child_spec.
  destruct n; reflexivity.
Qed.

Lemma calculate_function parents fn body src :
  node_type fn = "function_definition" ->
  ts_node_child_by_field_name fn "body" = Some body ->
  calculate (Some (mkTSNode parents fn)) src =
  analyze_control_flow (fn :: parents) body src (set_nesting_level new_result 0).
Proof.
  intros Hty Hbody. unfold calculate. cbn [ts_node ts_parents].
  rewrite Hty, Hbody. reflexivity.
Qed.

(** Every nesting construct is a control structure. *)
Lemma nesting_is_control type :
  increases_nesting_level type = true -> is_control_structure type = true.
Proof.
  unfold increases_nesting_level, is_control_structure, count_in,
    nesting_structures, control_structures.
  cbn [existsb]. intros H.
  repeat (apply orb_prop in H; destruct H as [H|H]);
    try discriminate; rewrite H; cbn; rewrite ?orb_true_r; reflexivity.
Qed.

Lemma not_control_not_nesting type :
  is_control_structure type = false -> increases_nesting_level type = false.
Proof.
  intros H. destruct (increases_nesting_level type) eqn:E; [|reflexivity].
  apply nesting_is_control in E. congruence.
Qed.

(** *** The total is the sum of the increments *)

Lemma sum_increments_snoc fs f :
  sum_increments (fs ++ [f]) = size_t_add (sum_increments fs) (increment f).
Proof. unfold sum_increments. rewrite fold_left_app. reflexivity. Qed.

Lemma sum_increments_exact fs :
  sum_increments fs = size_t_wrap (exact_sum fs).
Proof.
  induction fs as [|f fs IH] using rev_ind.
  - reflexivity.
  - rewrite sum_increments_snoc, IH, size_t_add_wrap_l.
    unfold exact_sum. rewrite map_app, fold_right_app. cbn [map fold_right].
    f_equal.
    generalize (increment f) as k.
    induction (map increment fs) as [|x xs IHx]; intros k; cbn [fold_right]; [lia|].
    rewrite <- IHx. lia.
Qed.

Lemma consistent_add_factor r amount reason line :
  consistent r -> consistent (add_factor r amount reason line).
Proof.
  unfold consistent, add_factor. cbn [total_complexity factors].
  intros ->. now rewrite sum_increments_snoc.
Qed.

Lemma consistent_set_nesting_level r level :
  consistent r -> consistent (set_nesting_level r level).
Proof. intros H. exact H. Qed.

Lemma consistent_score parents type line r :
  consistent r -> consistent (score_control_structure parents type line r).
Proof.
  intros H. unfold score_control_structure, increment_for_hybrid,
    increment_for_structural, increment_for_nesting.
  destruct (is_else_if parents type).
  - now apply consistent_add_factor.
  - destruct (_ && _); repeat apply consistent_add_factor; exact H.
Qed.

Lemma consistent_analyze n : forall parents src r,
  consistent r -> consistent (analyze_control_flow parents n src r).
Proof.
  induction n as [ty fld sb eb sr er kids IH] using Node_forall_ind.
  intros parents src r Hr.
  rewrite analyze_control_flow_eq. cbn [node_type children start_row].
  destruct (ty =? "function_definition").
  - destruct (is_nested parents); [exact Hr|].
    destruct (ts_node_child_by_field_name _ _) as [body|] eqn:Hb; [|exact Hr].
    apply child_by_field_In in Hb. cbn [children] in Hb.
    rewrite List.Forall_forall in IH. now apply IH.
  - cbv zeta.
    assert (Hkids : forall r', consistent r' ->
              consistent (analyze_children parents
                            (mkNode ty fld sb eb sr er kids) src r')).
    { intros r' Hr'. unfold analyze_children. cbn [children].
      apply fold_left_preserves; [|exact Hr'].
      intros a c Hc Ha. rewrite List.Forall_forall in IH. now apply IH. }
    destruct (is_control_structure ty), (increases_nesting_level ty);
      repeat (first [ apply consistent_set_nesting_level
                    | apply Hkids
                    | apply consistent_score ]); exact Hr.
Qed.

(** C1.  For every root handle (null or not) and source text, the total
    complexity of the result of [calculate] is the sum of the increments
    of its factors: the sum as [size_t] addition computes it, which is
    the integer sum reduced modulo 2^64. *)
Theorem calculate_total_is_sum_of_increments
    (root_node : option TSNode) (source_code : string) :
  let result := calculate root_node source_code in
  total_complexity result = sum_increments (factors result)
  /\ total_complexity result = size_t_wrap (exact_sum (factors result)).
Proof.
  cbv zeta.
  assert (H : consistent (calculate root_node source_code)).
  { unfold calculate. destruct root_node as [root|]; [|reflexivity].
    destruct (_ || _).
    - destruct (ts_node_child_by_field_name _ _); [|reflexivity].
      apply consistent_analyze. reflexivity.
    - apply consistent_analyze. reflexivity. }
  split; [exact H|]. rewrite <- sum_increments_exact. exact H.
Qed.

(** *** Without overflow the total is the integer sum *)

Lemma nonnegative_add_factor r amount reason line :
  (0 <= amount)%Z -> nonnegative r -> nonnegative (add_factor r amount reason line).
Proof.
  intros Ha [Hn Hf]. split; [exact Hn|].
  cbn [add_factor factors]. apply List.Forall_app. split; [exact Hf|].
  constructor; [exact Ha | constructor].
Qed.

Lemma nonnegative_set_nesting_level r z :
  nonnegative r -> nonnegative (set_nesting_level r (size_t_wrap z)).
Proof.
  intros [_ Hf]. split; [|exact Hf].
  cbn [set_nesting_level nesting_level]. apply size_t_wrap_range.
Qed.

Lemma nonnegative_score parents type line r :
  nonnegative r -> nonnegative (score_control_structure parents type line r).
Proof.
  intros H. unfold score_control_structure, increment_for_hybrid,
    increment_for_structural, increment_for_nesting.
  destruct (is_else_if parents type).
  - apply nonnegative_add_factor; [lia | exact H].
  - destruct (_ && _).
    + apply nonnegative_add_factor; [apply H|].
      apply nonnegative_add_factor; [lia | exact H].
    + apply nonnegative_add_factor; [lia | exact H].
Qed.

Lemma nonnegative_analyze n : forall parents src r,
  nonnegative r -> nonnegative (analyze_control_flow parents n src r).
Proof.
  induction n as [ty fld sb eb sr er kids IH] using Node_forall_ind.
  intros parents src r Hr.
  rewrite List.Forall_forall in IH.
  rewrite analyze_control_flow_eq. cbn [node_type children start_row].
  destruct (ty =? "function_definition").
  - destruct (is_nested parents); [exact Hr|].
    destruct (ts_node_child_by_field_name _ _) as [body|] eqn:Hb; [|exact Hr].
    apply child_by_field_In in Hb. cbn [children] in Hb. now apply IH.
  - cbv zeta.
    assert (Hkids : forall r', nonnegative r' ->
              nonnegative (analyze_children parents
                             (mkNode ty fld sb eb sr er kids) src r')).
    { intros r' Hr'. unfold analyze_children. cbn [children].
      apply fold_left_preserves; [|exact Hr'].
      intros a c Hc Ha. now apply IH. }
    unfold size_t_incr, size_t_decr.
    destruct (is_control_structure ty), (increases_nesting_level ty);
      repeat (first [ apply nonnegative_set_nesting_level
                    | apply Hkids
                    | apply nonnegative_score ]); exact Hr.
Qed.

Lemma exact_sum_nonnegative fs :
  Forall (fun f => (0 <= increment f)%Z) fs -> (0 <= exact_sum fs)%Z.
Proof.
  unfold exact_sum. induction 1 as [|f fs Hf _ IH]; cbn [map fold_right]; lia.
Qed.

(** As long as the integer sum of the increments fits a [size_t], the
    total of [calculate] is that sum. *)
Lemma calculate_total_exact root_node source_code :
  (exact_sum (factors (calculate root_node source_code)) < SIZE_MAX_plus_1)%Z ->
  total_complexity (calculate root_node source_code)
  = exact_sum (factors (calculate root_node source_code)).
Proof.
  intros Hfit.
  assert (Hc : consistent (calculate root_node source_code)
               /\ nonnegative (calculate root_node source_code)).
  { assert (H0 : consistent (set_nesting_level new_result 0)
                 /\ nonnegative (set_nesting_level new_result 0)).
    { split; [reflexivity|]. split; [cbn; lia | constructor]. }
    destruct H0 as [Hc0 Hn0].
    assert (Hnew : consistent new_result /\ nonnegative new_result).
    { split; [reflexivity|]. split; [cbn; lia | constructor]. }
    unfold calculate. destruct root_node as [root|]; [|exact Hnew].
    destruct (_ || _).
    - destruct (ts_node_child_by_field_name _ _); [|exact Hnew].
      split; [now apply consistent_analyze | now apply nonnegative_analyze].
    - split; [now apply consistent_analyze | now apply nonnegative_analyze]. }
  destruct Hc as [Hc [_ Hf]].
  rewrite Hc, sum_increments_exact.
  apply size_t_wrap_small. split; [now apply exact_sum_nonnegative | exact Hfit].
Qed.

(** *** The nesting counter is restored *)

Lemma nesting_level_add_factor r amount reason line :
  nesting_level (add_factor r amount reason line) = nesting_level r.
Proof. reflexivity. Qed.

Lemma nesting_level_score parents type line r :
  nesting_level (score_control_structure parents type line r) = nesting_level r.
Proof.
  unfold score_control_structure, increment_for_hybrid,
    increment_for_structural, increment_for_nesting.
  destruct (is_else_if parents type); [reflexivity|].
  destruct (_ && _); reflexivity.
Qed.

Lemma nesting_level_analyze n : forall parents src r,
  is_size_t (nesting_level r) ->
  nesting_level (analyze_control_flow parents n src r) = nesting_level r.
Proof.
  induction n as [ty fld sb eb sr er kids IH] using Node_forall_ind.
  intros parents src r Hr.
  rewrite analyze_control_flow_eq. cbn [node_type children start_row].
  rewrite List.Forall_forall in IH.
  destruct (ty =? "function_definition").
  - destruct (is_nested parents); [reflexivity|].
    destruct (ts_node_child_by_field_name _ _) as [body|] eqn:Hb; [|reflexivity].
    apply child_by_field_In in Hb. cbn [children] in Hb. now apply IH.
  - cbv zeta.
    assert (Hkids : forall r', is_size_t (nesting_level r') ->
              nesting_level (analyze_children parents
                               (mkNode ty fld sb eb sr er kids) src r')
              = nesting_level r').
    { intros r' Hr'. unfold analyze_children. cbn [children].
      apply (fold_left_preserves _
               (fun a => nesting_level a = nesting_level r')); [|reflexivity].
      intros a c Hc Ha. rewrite <- Ha. apply IH; [exact Hc|].
      rewrite Ha. exact Hr'. }
    set (r1 := if is_control_structure ty then _ else r).
    assert (H1 : nesting_level r1 = nesting_level r).
    { subst r1. destruct (is_control_structure ty); [|reflexivity].
      apply nesting_level_score. }
    destruct (increases_nesting_level ty).
    + cbn [set_nesting_level nesting_level].
      rewrite Hkids.
      * cbn [set_nesting_level nesting_level].
        rewrite H1. now apply size_t_decr_incr.
      * cbn [set_nesting_level nesting_level]. apply size_t_wrap_range.
    + rewrite Hkids; [exact H1 | now rewrite H1].
Qed.

(** C2.  [analyze_control_flow] leaves [nesting_level] at the value it
    had before the call, on every path (nested function skipped, function
    without body, plain node, nesting construct), for every node, parent
    chain and result whose counter is a [size_t] value; and the result of
    [calculate] has [nesting_level] 0, the value it sets before the
    traversal. *)
Theorem nesting_level_restored
    (parents : list Node) (n : Node) (source_code : string)
    (result : ComplexityResult) (root_node : option TSNode) :
  is_size_t (nesting_level result) ->
  nesting_level (analyze_control_flow parents n source_code result)
  = nesting_level result
  /\ nesting_level (calculate root_node source_code) = 0%Z.
Proof.
  intros Hr. split; [now apply nesting_level_analyze|].
  unfold calculate. destruct root_node as [root|]; [|reflexivity].
  destruct (_ || _).
  - destruct (ts_node_child_by_field_name _ _); [|reflexivity].
    rewrite nesting_level_analyze; [reflexivity|].
    cbn. unfold is_size_t, SIZE_MAX_plus_1. lia.
  - rewrite nesting_level_analyze; [reflexivity|].
    cbn. unfold is_size_t, SIZE_MAX_plus_1. lia.
Qed.

(** *** Subtrees without control structures *)

Lemma plain_inv n :
  plain n ->
  is_control_structure (node_type n) = false /\ Forall plain (children n).
Proof.
  unfold plain. destruct n as [ty fld sb eb sr er kids].
  cbn [has_control_structure node_type children].
  intros H. apply orb_false_elim in H. destruct H as [Hty Hkids].
  split; [exact Hty|].
  rewrite List.Forall_forall. intros c Hc.
  destruct (has_control_structure c) eqn:E; [|reflexivity].
  assert (existsb has_control_structure kids = true)
    by (apply existsb_exists; eauto).
  congruence.
Qed.

Lemma analyze_plain n : forall parents src r,
  plain n -> analyze_control_flow parents n src r = r.
Proof.
  induction n as [ty fld sb eb sr er kids IH] using Node_forall_ind.
  intros parents src r Hp.
  apply plain_inv in Hp. cbn [node_type children] in Hp.
  destruct Hp as [Hty Hkids].
  rewrite List.Forall_forall in IH, Hkids.
  rewrite analyze_control_flow_eq. cbn [node_type children start_row].
  destruct (ty =? "function_definition").
  - destruct (is_nested parents); [reflexivity|].
    destruct (ts_node_child_by_field_name _ _) as [body|] eqn:Hb; [|reflexivity].
    apply child_by_field_In in Hb. cbn [children] in Hb. auto.
  - rewrite Hty, (not_control_not_nesting _ Hty). cbv zeta.
    unfold analyze_children. cbn [children].
    apply (fold_left_preserves _ (fun a => a = r)); [|reflexivity].
    intros a c Hc ->. auto.
Qed.

Lemma analyze_plain_list parents n src kids : forall r,
  Forall plain kids ->
  fold_left
    (fun acc child => analyze_control_flow (n :: parents) child src acc) kids r
  = r.
Proof.
  intros r Hk. rewrite List.Forall_forall in Hk.
  apply (fold_left_preserves _ (fun a => a = r)); [|reflexivity].
  intros a c Hc ->. apply analyze_plain. auto.
Qed.

(** C9.  When no node under the root handed to [calculate] has a
    control-structure type, whatever else the tree holds (logical AND/OR
    expressions included: [analyze_boolean_operators] is not part of the
    traversal), the result has total complexity 0 and no factor. *)
Theorem no_control_structure_scores_zero
    (root : TSNode) (source_code : string) :
  has_control_structure (ts_node root) = false ->
  total_complexity (calculate (Some root) source_code) = 0%Z
  /\ factors (calculate (Some root) source_code) = [].
Proof.
  intros Hp.
  assert (H : calculate (Some root) source_code = new_result).
  { unfold calculate.
    destruct (_ || _).
    - destruct (ts_node_child_by_field_name _ _) as [body|] eqn:Hb; [|reflexivity].
      apply child_by_field_In in Hb.
      apply plain_inv in Hp. destruct Hp as [_ Hk].
      rewrite List.Forall_forall in Hk.
      rewrite analyze_plain; [reflexivity | auto].
    - rewrite analyze_plain; [reflexivity | exact Hp]. }
  rewrite H. split; reflexivity.
Qed.

(** *** Nested function definitions *)

Lemma analyze_skips_nested_function parents n src r :
  node_type n = "function_definition" ->
  is_nested parents = true ->
  analyze_control_flow parents n src r = r.
Proof.
  intros Hty Hn. rewrite analyze_control_flow_eq, Hty, Hn. reflexivity.
Qed.

Lemma is_nested_types ps ps' :
  map node_type ps = map node_type ps' -> is_nested ps = is_nested ps'.
Proof.
  revert ps'. induction ps as [|p ps IH]; intros [|p' ps'] H;
    try discriminate; [reflexivity|].
  cbn [map] in H. injection H as Hp Hps. cbn [is_nested].
  rewrite Hp, (IH _ Hps). reflexivity.
Qed.

Lemma score_types ps ps' type line r :
  map node_type ps = map node_type ps' ->
  score_control_structure ps type line r = score_control_structure ps' type line r.
Proof.
  intros H. unfold score_control_structure, is_else_if.
  destruct ps as [|p ps], ps' as [|p' ps']; try discriminate; [reflexivity|].
  cbn [map] in H. injection H as Hp _. rewrite Hp. reflexivity.
Qed.

Lemma fold_left_pointwise {A B : Type} (f g : A -> B -> A) l :
  (forall a b, In b l -> f a b = g a b) ->
  forall a, fold_left f l a = fold_left g l a.
Proof.
  induction l as [|b l IH]; intros H a; [reflexivity|].
  cbn [fold_left]. rewrite H by now left.
  apply IH. intros a' b' Hb'. apply H. now right.
Qed.

Lemma fold_left_map {A B C : Type} (f : A -> C -> A) (g : B -> C) l :
  forall a, fold_left f (map g l) a = fold_left (fun acc x => f acc (g x)) l a.
Proof. induction l as [|b l IH]; intros a; [reflexivity | apply IH]. Qed.

Lemma strip_functions_type n : node_type (strip_functions n) = node_type n.
Proof. destruct n; reflexivity. Qed.

Lemma analyze_strip_functions n : forall ps ps' src r,
  map node_type ps = map node_type ps' ->
  is_nested ps = true ->
  analyze_control_flow ps' (strip_functions n) src r
  = analyze_control_flow ps n src r.
Proof.
  induction n as [ty fld sb eb sr er kids IH] using Node_forall_ind.
  intros ps ps' src r Hps Hn.
  rewrite List.Forall_forall in IH.
  rewrite !analyze_control_flow_eq.
  rewrite strip_functions_type.
  cbn [node_type node_field start_byte end_byte start_row end_row children
       strip_functions].
  destruct (ty =? "function_definition") eqn:Hty.
  - rewrite <- (is_nested_types _ _ Hps), Hn. reflexivity.
  - cbv zeta. rewrite <- (score_types ps ps') by exact Hps.
    assert (Hk : forall r2,
      analyze_children ps'
        (mkNode ty fld sb eb sr er (map strip_functions kids)) src r2
      = analyze_children ps (mkNode ty fld sb eb sr er kids) src r2).
    { intros r2. unfold analyze_children. cbn [children]. rewrite fold_left_map.
      apply fold_left_pointwise. intros a c Hc.
      apply IH; [exact Hc | |].
      - cbn [map node_type]. now rewrite Hps.
      - cbn [is_nested node_type]. now rewrite Hty. }
    rewrite Hk. reflexivity.
Qed.

Lemma strip_functions_find field kids :
  find (has_field field) (map strip_functions kids)
  = option_map strip_functions (find (has_field field) kids).
Proof.
  induction kids as [|c kids IH]; [reflexivity|].
  cbn [map find].
  replace (has_field field (strip_functions c)) with (has_field field c)
    by (destruct c; reflexivity).
  destruct (has_field field c); [reflexivity | exact IH].
Qed.

(** C5.  A [function_definition] node that the traversal meets below
    another function definition is left at once: the result is returned
    as it was, so nothing inside it is visited and no factor is recorded
    for it.  Hence the result of [calculate] on a function is the result
    on the same function with the inside of every function definition
    nested in it removed. *)
Theorem nested_function_contributes_nothing
    (parents : list Node) (n : Node) (source_code : string)
    (result : ComplexityResult) (root_parents : list Node) (fn : Node) :
  node_type n = "function_definition" ->
  is_nested parents = true ->
  node_type fn = "function_definition" ->
  analyze_control_flow parents n source_code result = result
  /\ calculate (Some (mkTSNode root_parents fn)) source_code
     = calculate (Some (mkTSNode root_parents (strip_nested_functions fn)))
         source_code.
Proof.
  intros Hn Hnested Hfn. split; [now apply analyze_skips_nested_function|].
  unfold calculate. cbn [ts_node ts_parents].
  replace (node_type (strip_nested_functions fn)) with (node_type fn)
    by reflexivity.
  rewrite Hfn. cbn [String.eqb Ascii.eqb Bool.eqb orb].
  unfold ts_node_child_by_field_name.
  cbn [strip_nested_functions children].
  rewrite strip_functions_find.
  destruct (find (has_field "body") (children fn)) as [body|]; [|reflexivity].
  cbn [option_map]. symmetry. apply analyze_strip_functions.
  - reflexivity.
  - cbn [is_nested]. rewrite Hfn. reflexivity.
Qed.

(** *** Structural and nesting increments *)

Lemma set_nesting_level_restore r :
  is_size_t (nesting_level r) ->
  let entered := set_nesting_level r (size_t_incr (nesting_level r)) in
  set_nesting_level entered (size_t_decr (nesting_level entered)) = r.
Proof.
  intros H. destruct r as [t l fs m]. cbn in *.
  unfold set_nesting_level. cbn. now rewrite size_t_decr_incr.
Qed.

Lemma wrapper_not_else type :
  is_control_structure type = false ->
  (type =? "else_clause") || (type =? "elif_clause") = false.
Proof.
  unfold is_control_structure, count_in, control_structures. cbn [existsb].
  intros H.
  repeat (apply orb_false_elim in H; destruct H as [? H]).
  apply orb_false_intro; assumption.
Qed.

Lemma analyze_wrapper ps n before m after src r :
  is_wrapper (node_type n) = true ->
  children n = (before ++ m :: after)%list ->
  Forall plain before ->
  Forall plain after ->
  analyze_control_flow ps n src r = analyze_control_flow (n :: ps) m src r.
Proof.
  unfold is_wrapper. intros Hw Hk Hb Ha.
  apply andb_prop in Hw. destruct Hw as [Hc Hf].
  apply negb_true_iff in Hc, Hf.
  rewrite analyze_control_flow_eq, Hf, Hc, (not_control_not_nesting _ Hc).
  cbv zeta. unfold analyze_children. rewrite Hk, fold_left_app.
  cbn [fold_left].
  rewrite (analyze_plain_list ps n src before r Hb).
  apply analyze_plain_list. exact Ha.
Qed.

Lemma analyze_only_construct x n :
  only_construct x n ->
  forall ps, not_under_else ps ->
  exists ps', not_under_else ps' /\
    forall src r, analyze_control_flow ps n src r = analyze_control_flow ps' x src r.
Proof.
  induction 1 as [|n m before after Hw Hk Hb Ha Hx IH]; intros ps Hps.
  - exists ps. split; [exact Hps | reflexivity].
  - destruct (IH (n :: ps)) as [ps' [Hps' Heq]].
    + cbn [not_under_else]. apply wrapper_not_else.
      unfold is_wrapper in Hw. apply andb_prop in Hw. destruct Hw as [Hc _].
      now apply negb_true_iff in Hc.
    + exists ps'. split; [exact Hps'|]. intros src r.
      rewrite (analyze_wrapper ps n before m after src r Hw Hk Hb Ha).
      apply Heq.
Qed.

Lemma analyze_if_node ps x src r :
  node_type x = "if_statement" ->
  Forall plain (children x) ->
  not_under_else ps ->
  is_size_t (nesting_level r) ->
  analyze_control_flow ps x src r = if_score (uint32_add (start_row x) 1) r.
Proof.
  intros Hty Hk Hps Hr.
  rewrite analyze_control_flow_eq, Hty.
  change ("if_statement" =? "function_definition") with false.
  change (is_control_structure "if_statement") with true.
  change (increases_nesting_level "if_statement") with true.
  cbv zeta. unfold analyze_children.
  rewrite (analyze_plain_list ps x src (children x) _ Hk).
  assert (Hs : score_control_structure ps "if_statement"
                 (uint32_add (start_row x) 1) r
               = if_score (uint32_add (start_row x) 1) r).
  { unfold score_control_structure, if_score, is_else_if.
    change ("if_statement" =? "if_statement") with true.
    change (increases_nesting_level "if_statement") with true.
    destruct ps as [|p ps]; [reflexivity|].
    cbn [not_under_else] in Hps. rewrite Hps. reflexivity. }
  rewrite Hs.
  apply set_nesting_level_restore.
  unfold if_score. destruct (0 <? nesting_level r)%Z; exact Hr.
Qed.

(** C3.  A function whose body holds a single [if] and nothing else that
    scores has total 1 and one factor, the structural one of the [if].
    A function whose body holds a single [for] that holds a single [if]
    has total 3 and three factors: the structural one of the [for], the
    structural one of the [if], and a nesting factor of the [if] whose
    increment is 1, the level in force before the [if] is entered.  In
    general such an [if] adds its structural factor and, only when the
    level before it is entered is above zero, a nesting factor equal to
    that level. *)
Theorem bare_if_scores_one_nested_if_scores_three
    (source1 source2 : string)
    (parents1 : list Node) (fn1 body1 if1 : Node)
    (parents2 : list Node) (fn2 body2 for2 inner if2 : Node)
    (before after : list Node) :
  node_type fn1 = "function_definition" ->
  ts_node_child_by_field_name fn1 "body" = Some body1 ->
  only_construct if1 body1 ->
  node_type if1 = "if_statement" ->
  Forall plain (children if1) ->
  node_type fn2 = "function_definition" ->
  ts_node_child_by_field_name fn2 "body" = Some body2 ->
  only_construct for2 body2 ->
  node_type for2 = "for_statement" ->
  children for2 = (before ++ inner :: after)%list ->
  Forall plain before ->
  Forall plain after ->
  only_construct if2 inner ->
  node_type if2 = "if_statement" ->
  Forall plain (children if2) ->
  let result1 := calculate (Some (mkTSNode parents1 fn1)) source1 in
  let result2 := calculate (Some (mkTSNode parents2 fn2)) source2 in
  let line_if1 := uint32_add (start_row if1) 1 in
  let line_for2 := uint32_add (start_row for2) 1 in
  let line_if2 := uint32_add (start_row if2) 1 in
  (total_complexity result1 = 1%Z
   /\ factors result1 = [mkFactor "if_statement" 1 line_if1])
  /\ (total_complexity result2 = 3%Z
      /\ factors result2 =
           [mkFactor "for_statement" 1 line_for2;
            mkFactor "if_statement" 1 line_if2;
            mkFactor "Nested if_statement" 1 line_if2])
  /\ (forall ps r,
        not_under_else ps ->
        is_size_t (nesting_level r) ->
        analyze_control_flow ps if2 source2 r =
        let r1 := increment_for_structural r "if_statement" line_if2 in
        if (0 <? nesting_level r)%Z
        then increment_for_nesting r1 (nesting_level r)
               "Nested if_statement" line_if2
        else r1).
Proof.
  intros Hfn1 Hb1 Ho1 Hif1 Hk1 Hfn2 Hb2 Ho2 Hfor2 Hkf Hbefore Hafter Ho3 Hif2 Hk2.
  cbv zeta.
  assert (Hzero : is_size_t 0) by (unfold is_size_t, SIZE_MAX_plus_1; lia).
  split; [|split].
  - rewrite (calculate_function parents1 fn1 body1 source1 Hfn1 Hb1).
    destruct (analyze_only_construct if1 body1 Ho1 (fn1 :: parents1))
      as [ps' [Hps' Heq]].
    { cbn [not_under_else]. rewrite Hfn1. reflexivity. }
    rewrite Heq, (analyze_if_node ps' if1) by assumption.
    split; reflexivity.
  - rewrite (calculate_function parents2 fn2 body2 source2 Hfn2 Hb2).
    destruct (analyze_only_construct for2 body2 Ho2 (fn2 :: parents2))
      as [ps' [Hps' Heq]].
    { cbn [not_under_else]. rewrite Hfn2. reflexivity. }
    rewrite Heq, analyze_control_flow_eq, Hfor2.
    change ("for_statement" =? "function_definition") with false.
    change (is_control_structure "for_statement") with true.
    change (increases_nesting_level "for_statement") with true.
    cbv zeta. unfold analyze_children.
    rewrite Hkf, fold_left_app. cbn [fold_left].
    rewrite (analyze_plain_list ps' for2 source2 before _ Hbefore).
    destruct (analyze_only_construct if2 inner Ho3 (for2 :: ps'))
      as [ps'' [Hps'' Heq']].
    { cbn [not_under_else]. rewrite Hfor2. reflexivity. }
    rewrite Heq', (analyze_if_node ps'' if2) by
      (try assumption; apply size_t_wrap_range).
    rewrite (analyze_plain_list ps' for2 source2 after _ Hafter).
    split; reflexivity.
  - intros ps r Hps Hr. now apply analyze_if_node.
Qed.

(** *** Switch statements *)

(** C6, as the code has it.  A [switch_statement] is neither a nesting
    construct nor a control structure: the nesting constructs are exactly
    the six types of [nesting_structures], and the traversal of a switch
    is the traversal of its children from the unchanged result, at the
    unchanged nesting level, with no factor for the switch itself. *)
Theorem switch_statement_is_transparent
    (parents : list Node) (sw : Node) (source_code : string)
    (result : ComplexityResult) :
  node_type sw = "switch_statement" ->
  increases_nesting_level (node_type sw) = false
  /\ is_control_structure (node_type sw) = false
  /\ (forall type,
        increases_nesting_level type = true <->
        In type [ "if_statement"; "for_statement"; "while_statement";
                  "do_statement"; "catch_clause"; "for_range_loop" ])
  /\ analyze_control_flow parents sw source_code result
     = analyze_children parents sw source_code result.
Proof.
  intros Hty. rewrite Hty. repeat split.
  - unfold increases_nesting_level, count_in. intros H.
    apply existsb_exists in H. destruct H as [s [Hin Heq]].
    apply String.eqb_eq in Heq. subst s. exact Hin.
  - intros H. unfold increases_nesting_level, count_in.
    apply existsb_exists. exists type. split; [exact H|].
    apply String.eqb_refl.
  - rewrite analyze_control_flow_eq, Hty. reflexivity.
Qed.

Lemma switch_statement_is_transparent_witness :
  node_type Samples.switch_if_switch = "switch_statement"
  /\ analyze_control_flow [Samples.switch_if_body] Samples.switch_if_switch
       Samples.switch_if_source new_result
     = analyze_children [Samples.switch_if_body] Samples.switch_if_switch
         Samples.switch_if_source new_result.
Proof.
  split; [reflexivity|].
  apply (switch_statement_is_transparent [Samples.switch_if_body]
           Samples.switch_if_switch Samples.switch_if_source new_result).
  reflexivity.
Defined.

(** C6, counterexample.  In a function whose body is a [switch] holding
    an [if] under a [case], the [if] gets its structural factor only:
    the switch did not raise the nesting level, so there is no nesting
    factor and the total is 2, not 3. *)
Lemma switch_adds_no_nesting_depth :
  increases_nesting_level "switch_statement" = false
  /\ total_complexity
       (calculate (Some (mkTSNode [Samples.switch_if_tree] Samples.switch_if_function))
          Samples.switch_if_source) = 2%Z
  /\ factors
       (calculate (Some (mkTSNode [Samples.switch_if_tree] Samples.switch_if_function))
          Samples.switch_if_source)
     = [ mkFactor "case_statement" 1 3; mkFactor "if_statement" 1 4 ].
Proof. repeat split; vm_compute; reflexivity. Qed.

(** *** Else-if chains *)


(** An [else_clause] is scored as a control structure of its own. *)
Lemma else_clause_is_structural ps line r :
  is_control_structure "else_clause" = true
  /\ score_control_structure ps "else_clause" line r
     = increment_for_structural r "else_clause" line.
Proof. split; reflexivity. Qed.






(** The two chains on the sample texts, and a chain of four branches in
    C++: each further else-if lies one [if_statement] deeper and its
    nesting factor grows by one. *)
Example direct_else_chain_factors :
  factors
    (calculate
       (Some (mkTSNode [Samples.direct_else_chain_tree]
                Samples.direct_else_chain_function))
       Samples.direct_else_chain_source)
  = [ mkFactor "if_statement" 1 2;
      mkFactor "if_statement" 1 3;
      mkFactor "Nested if_statement" 1 3 ].
Proof. vm_compute. reflexivity. Qed.

Example py_elif_chain_factors :
  factors
    (calculate
       (Some (mkTSNode [Samples.py_elif_chain_tree] Samples.py_elif_chain_function))
       Samples.py_elif_chain_source)
  = [ mkFactor "if_statement" 1 2;
      mkFactor "elif_clause" 1 4;
      mkFactor "else_clause" 1 6 ].
Proof. vm_compute. reflexivity. Qed.

Example long_else_chain_factors :
  total_complexity
    (calculate
       (Some (mkTSNode [Samples.long_else_chain_tree]
                Samples.long_else_chain_function))
       Samples.long_else_chain_source) = 6%Z
  /\ factors
       (calculate
          (Some (mkTSNode [Samples.long_else_chain_tree]
                   Samples.long_else_chain_function))
          Samples.long_else_chain_source)
     = [ mkFactor "if_statement" 1 2;
         mkFactor "if_statement" 1 3;
         mkFactor "Nested if_statement" 1 3;
         mkFactor "if_statement" 1 4;
         mkFactor "Nested if_statement" 2 4 ].
Proof. split; vm_compute; reflexivity. Qed.

(** [analyze_boolean_operators] would record the logical AND of the
    sample; [calculate] never calls it. *)
Example boolean_operator_not_counted :
  factors (analyze_boolean_operators (Some Samples.boolean_only_conjunction) new_result)
  = [ mkFactor "Boolean operator: &&" 1 2 ]
  /\ factors
       (calculate (Some (mkTSNode [Samples.boolean_only_tree]
                           Samples.boolean_only_function))
          Samples.boolean_only_source) = [].
Proof. split; vm_compute; reflexivity. Qed.

(** The example of the repository: the comments of
    [examples/vowel_count.cpp] expect +1, +2, +3 and +1, total 7. *)
Example vowel_count_scores_seven :
  total_complexity
    (calculate (Some (mkTSNode [Samples.vowel_count_tree] Samples.vowel_count_function))
       Samples.vowel_count_source) = 7%Z
  /\ map (fun f => (description f, increment f, line_number f))
       (factors
          (calculate
             (Some (mkTSNode [Samples.vowel_count_tree] Samples.vowel_count_function))
             Samples.vowel_count_source))
     = [ ("for_range_loop", 1%Z, 6%Z);
         ("for_range_loop", 1%Z, 7%Z); ("Nested for_range_loop", 1%Z, 7%Z);
         ("if_statement", 1%Z, 8%Z); ("Nested if_statement", 2%Z, 8%Z);
         ("if_statement", 1%Z, 14%Z) ].
Proof. split; vm_compute; reflexivity. Qed.

(** *** The earlier revision on the same samples *)

(** In the earlier revision too, the traversal keeps the total equal to
    the sum of the increments. *)
Lemma earlier_revision_consistent n : forall parents src r,
  consistent r -> consistent (EarlierRevision.analyze_control_flow parents n src r).
Proof.
  induction n as [ty fld sb eb sr er kids IH] using Node_forall_ind.
  intros parents src r Hr.
  rewrite List.Forall_forall in IH.
  set (n := mkNode ty fld sb eb sr er kids).
  assert (Hkids : forall r', consistent r' ->
            consistent
              (fold_left
                 (fun acc child =>
                    EarlierRevision.analyze_control_flow (n :: parents) child src acc)
                 kids r')).
  { intros r' Hr'. apply fold_left_preserves; [|exact Hr'].
    intros a c Hc Ha. now apply IH. }
  assert (Hscore : forall line,
            consistent (EarlierRevision.score_control_structure parents n line r)).
  { intros line. unfold EarlierRevision.score_control_structure,
      increment_for_hybrid, increment_for_structural, increment_for_nesting.
    destruct (EarlierRevision.is_else_if _ _).
    - now apply consistent_add_factor.
    - destruct (_ && _); repeat apply consistent_add_factor; exact Hr. }
  subst n. cbn [EarlierRevision.analyze_control_flow]. cbv zeta.
  destruct (EarlierRevision.is_control_structure _),
           (EarlierRevision.increases_nesting_level _);
    repeat (first [ apply consistent_set_nesting_level
                  | apply Hkids
                  | apply Hscore ]); exact Hr.
Qed.

(** There the switch raises the nesting level, so the [if] under its
    [case] gets a nesting factor of 1 next to its structural one. *)
Example earlier_revision_switch_nests :
  EarlierRevision.increases_nesting_level Samples.switch_if_switch = true
  /\ factors
       (EarlierRevision.analyze_control_flow [Samples.switch_if_function]
          Samples.switch_if_body Samples.switch_if_source new_result)
     = [ mkFactor "Control structure: switch_statement" 1 2;
         mkFactor "Control structure: case_statement" 1 3;
         mkFactor "Control structure: if_statement" 1 4;
         mkFactor "Nested if_statement" 1 4 ].
Proof. split; vm_compute; reflexivity. Qed.

(** There the traversal enters a nested function definition and charges
    its [if] to the enclosing function. *)
Example earlier_revision_enters_nested_function :
  factors
    (EarlierRevision.analyze_control_flow [Samples.py_nested_outer]
       Samples.py_nested_outer_body Samples.py_nested_source new_result)
  = [ mkFactor "Control structure: if_statement" 1 3 ]
  /\ factors
       (analyze_control_flow [Samples.py_nested_outer]
          Samples.py_nested_outer_body Samples.py_nested_source new_result)
     = [].
Proof. split; vm_compute; reflexivity. Qed.

(** *** Instances on the sample trees *)

Lemma nesting_level_restored_witness :
  is_size_t (nesting_level (set_nesting_level new_result 2))
  /\ nesting_level
       (analyze_control_flow [Samples.for_if_function; Samples.for_if_tree]
          Samples.for_if_body Samples.for_if_source
          (set_nesting_level new_result 2))
     = 2%Z
  /\ nesting_level
       (calculate (Some (mkTSNode [Samples.for_if_tree] Samples.for_if_function))
          Samples.for_if_source) = 0%Z.
Proof.
  assert (H : is_size_t (nesting_level (set_nesting_level new_result 2))).
  { unfold is_size_t, SIZE_MAX_plus_1. cbn. lia. }
  split; [exact H|].
  exact (nesting_level_restored [Samples.for_if_function; Samples.for_if_tree]
           Samples.for_if_body Samples.for_if_source
           (set_nesting_level new_result 2)
           (Some (mkTSNode [Samples.for_if_tree] Samples.for_if_function)) H).
Defined.

Lemma no_control_structure_scores_zero_witness :
  has_control_structure Samples.boolean_only_function = false
  /\ total_complexity
       (calculate (Some (mkTSNode [Samples.boolean_only_tree]
                           Samples.boolean_only_function))
          Samples.boolean_only_source) = 0%Z
  /\ factors
       (calculate (Some (mkTSNode [Samples.boolean_only_tree]
                           Samples.boolean_only_function))
          Samples.boolean_only_source) = [].
Proof.
  split; [reflexivity|].
  apply (no_control_structure_scores_zero
           (mkTSNode [Samples.boolean_only_tree] Samples.boolean_only_function)
           Samples.boolean_only_source).
  reflexivity.
Defined.

Lemma nested_function_contributes_nothing_witness :
  node_type Samples.py_nested_inner = "function_definition"
  /\ is_nested [Samples.py_nested_outer_body; Samples.py_nested_outer;
                Samples.py_nested_tree] = true
  /\ analyze_control_flow
       [Samples.py_nested_outer_body; Samples.py_nested_outer;
        Samples.py_nested_tree]
       Samples.py_nested_inner Samples.py_nested_source new_result
     = new_result
  /\ calculate (Some (mkTSNode [Samples.py_nested_tree] Samples.py_nested_outer))
       Samples.py_nested_source
     = calculate
         (Some (mkTSNode [Samples.py_nested_tree]
                  (strip_nested_functions Samples.py_nested_outer)))
         Samples.py_nested_source.
Proof.
  split; [reflexivity|]. split; [reflexivity|].
  apply (nested_function_contributes_nothing
           [Samples.py_nested_outer_body; Samples.py_nested_outer;
            Samples.py_nested_tree]
           Samples.py_nested_inner Samples.py_nested_source new_result
           [Samples.py_nested_tree] Samples.py_nested_outer);
    reflexivity.
Defined.

Lemma bare_if_scores_one_nested_if_scores_three_witness :
  (total_complexity
     (calculate (Some (mkTSNode [Samples.bare_if_tree] Samples.bare_if_function))
        Samples.bare_if_source) = 1%Z
   /\ factors
        (calculate (Some (mkTSNode [Samples.bare_if_tree] Samples.bare_if_function))
           Samples.bare_if_source)
      = [ mkFactor "if_statement" 1 (uint32_add (start_row Samples.bare_if_if) 1) ])
  /\ (total_complexity
        (calculate (Some (mkTSNode [Samples.for_if_tree] Samples.for_if_function))
           Samples.for_if_source) = 3%Z
      /\ factors
           (calculate (Some (mkTSNode [Samples.for_if_tree] Samples.for_if_function))
              Samples.for_if_source)
         = [ mkFactor "for_statement" 1 (uint32_add (start_row Samples.for_if_for) 1);
             mkFactor "if_statement" 1 (uint32_add (start_row Samples.for_if_if) 1);
             mkFactor "Nested if_statement" 1
               (uint32_add (start_row Samples.for_if_if) 1) ]).
Proof.
  assert (Hplain : forall l, forallb (fun c => negb (has_control_structure c)) l = true ->
                             Forall plain l).
  { intros l H. rewrite List.Forall_forall. intros c Hc.
    rewrite forallb_forall in H. apply H in Hc.
    now apply negb_true_iff in Hc. }
  destruct (bare_if_scores_one_nested_if_scores_three
              Samples.bare_if_source Samples.for_if_source
              [Samples.bare_if_tree] Samples.bare_if_function
              Samples.bare_if_body Samples.bare_if_if
              [Samples.for_if_tree] Samples.for_if_function
              Samples.for_if_body Samples.for_if_for
              Samples.for_if_for_body Samples.for_if_if
              [mkNode "for" None 18 21 1 1 []] [])
    as [H1 [H2 _]].
  - reflexivity.
  - reflexivity.
  - apply (only_inside _ _ Samples.bare_if_if [] []);
      [reflexivity | reflexivity | apply Hplain; reflexivity
      | apply Hplain; reflexivity | apply only_here].
  - reflexivity.
  - apply Hplain. reflexivity.
  - reflexivity.
  - reflexivity.
  - apply (only_inside _ _ Samples.for_if_for [] []);
      [reflexivity | reflexivity | apply Hplain; reflexivity
      | apply Hplain; reflexivity | apply only_here].
  - reflexivity.
  - reflexivity.
  - apply Hplain. reflexivity.
  - apply Hplain. reflexivity.
  - apply (only_inside _ _ Samples.for_if_if [] []);
      [reflexivity | reflexivity | apply Hplain; reflexivity
      | apply Hplain; reflexivity | apply only_here].
  - reflexivity.
  - apply Hplain. reflexivity.
  - split; [exact H1 | exact H2].
Defined.

End ComplexityFacts.

(** ** The extractors *)

Module ParserFacts.
Import Notions BaseFacts.

(** *** Sizes *)

Lemma node_size_eq n : node_size n = S (stack_size (children n)).
Proof.
  destruct n as [ty fld sb eb sr er kids]. cbn [node_size children].
  f_equal.
Qed.

Lemma stack_size_app l1 l2 :
  stack_size (l1 ++ l2) = (stack_size l1 + stack_size l2)%nat.
Proof.
  induction l1 as [|n l1 IH]; [reflexivity|].
  cbn [app stack_size]. rewrite IH. lia.
Qed.

Lemma child_size c kids : In c kids -> (node_size c <= stack_size kids)%nat.
Proof.
  induction kids as [|k kids IH]; intros H; [destruct H|].
  cbn [stack_size]. destruct H as [->|H]; [lia|]. apply IH in H. lia.
Qed.

Lemma below_size n d : below n d -> (node_size d < node_size n)%nat.
Proof.
  induction 1 as [n c Hc | n c d Hc Hd IH].
  - rewrite (node_size_eq n). apply child_size in Hc. lia.
  - rewrite (node_size_eq n). apply child_size in Hc. lia.
Qed.

Lemma below_irrefl n : ~ below n n.
Proof. intros H. apply below_size in H. lia. Qed.

(** *** [find_function_name]: the recursion and the stack loop agree *)

Lemma find_function_name_eq n :
  CppParser.find_function_name n =
  if node_type n =? "function_declarator" then
    match ts_node_child_by_field_name n "declarator" with
    | Some decl => CppParser.find_function_name decl
    | None => None
    end
  else
    match CppParser.name_at n with
    | Some found => Some found
    | None => first_some CppParser.find_function_name (children n)
    end.
Proof.
  rewrite <- with_field_child_spec. destruct n; reflexivity.
Qed.

Lemma first_some_app {A B : Type} (f : A -> option B) l1 l2 :
  first_some f (l1 ++ l2) =
  match first_some f l1 with
  | Some y => Some y
  | None => first_some f l2
  end.
Proof.
  induction l1 as [|x l1 IH]; [reflexivity|].
  cbn [app first_some]. destruct (f x); [reflexivity | exact IH].
Qed.

(** With a budget above the number of nodes on the stack the loop ends,
    and it returns what the recursion finds in the stacked subtrees. *)
Lemma find_function_name_loop_correct fuel : forall nodes,
  (stack_size nodes < fuel)%nat ->
  CppParser.find_function_name_loop fuel nodes
  = Some (first_some CppParser.find_function_name nodes).
Proof.
  induction fuel as [|fuel IH]; intros nodes Hsize; [lia|].
  destruct nodes as [|current nodes]; [reflexivity|].
  cbn [CppParser.find_function_name_loop first_some stack_size] in *.
  rewrite (find_function_name_eq current).
  pose proof (node_size_eq current) as Hcur.
  destruct (node_type current =? "function_declarator").
  - destruct (ts_node_child_by_field_name current "declarator") as [decl|] eqn:Hd.
    + apply child_by_field_In, child_size in Hd.
      rewrite (IH [decl]) by (cbn [stack_size]; lia).
      cbn [first_some].
      destruct (CppParser.find_function_name decl); [reflexivity|].
      apply IH. lia.
    + apply IH. lia.
  - destruct (CppParser.name_at current); [reflexivity|].
    rewrite IH by (rewrite stack_size_app; lia).
    now rewrite first_some_app.
Qed.

(** [find_function_name] is the loop started on the declarator alone. *)
Lemma find_function_name_is_loop declarator :
  CppParser.find_function_name_loop (S (node_size declarator)) [declarator]
  = Some (CppParser.find_function_name declarator).
Proof.
  rewrite find_function_name_loop_correct by (cbn [stack_size]; lia).
  cbn [first_some]. now destruct (CppParser.find_function_name declarator).
Qed.

(** *** [extract_function_name]: the recursion and the stack loop agree *)

Lemma search_identifier_eq n source :
  Analyzer.search_identifier n source =
  match Analyzer.identifier_text n source with
  | Some text => Some text
  | None =>
      Analyzer.last_some (fun child => Analyzer.search_identifier child source)
        (children n)
  end.
Proof. destruct n; reflexivity. Qed.

Lemma last_some_rev {A B : Type} (f : A -> option B) l :
  Analyzer.last_some f l = first_some f (rev l).
Proof.
  induction l as [|x l IH]; [reflexivity|].
  cbn [Analyzer.last_some rev]. rewrite first_some_app, <- IH.
  cbn [first_some]. destruct (Analyzer.last_some f l); [reflexivity|].
  now destruct (f x).
Qed.

Lemma stack_size_rev l : stack_size (rev l) = stack_size l.
Proof.
  induction l as [|n l IH]; [reflexivity|].
  cbn [rev]. rewrite stack_size_app, IH. cbn [stack_size]. lia.
Qed.

Lemma extract_function_name_loop_correct source fuel : forall nodes,
  (stack_size nodes < fuel)%nat ->
  Analyzer.extract_function_name_loop fuel nodes source
  = Some match first_some (fun n => Analyzer.search_identifier n source) nodes with
         | Some text => text
         | None => ""
         end.
Proof.
  induction fuel as [|fuel IH]; intros nodes Hsize; [lia|].
  destruct nodes as [|current nodes]; [reflexivity|].
  cbn [Analyzer.extract_function_name_loop first_some stack_size] in *.
  rewrite (search_identifier_eq current).
  pose proof (node_size_eq current) as Hcur.
  destruct (Analyzer.identifier_text current source); [reflexivity|].
  rewrite IH by (rewrite stack_size_app, stack_size_rev; lia).
  now rewrite first_some_app, last_some_rev.
Qed.

(** [extract_function_name] is the loop started on the node alone. *)
Lemma extract_function_name_is_loop n source :
  Analyzer.extract_function_name_loop (S (node_size n)) [n] source
  = Some (Analyzer.extract_function_name n source).
Proof.
  rewrite extract_function_name_loop_correct by (cbn [stack_size]; lia).
  unfold Analyzer.extract_function_name. cbn [first_some].
  now destruct (Analyzer.search_identifier n source).
Qed.

(** *** The C++ walk *)

Lemma cpp_collect_functions_eq ps n src fs scope :
  CppParser.collect_functions ps n src fs scope =
  if node_type n =? "function_definition" then
    match CppParser.resolve_name n with
    | Some name_node => (fs ++ [CppParser.make_info ps n name_node src scope])%list
    | None => cpp_collect_children ps n src fs scope
    end
  else cpp_collect_children ps n src fs scope.
Proof. destruct n; reflexivity. Qed.

(** A fold that only ever appends, of which every step adds elements
    satisfying [Q]. *)
Lemma fold_left_appends {A B : Type} (f : list A -> B -> list A)
    (Q : A -> Prop) l :
  (forall acc b, In b l ->
     exists added, f acc b = (acc ++ added)%list /\ Forall Q added) ->
  forall acc, exists added,
    fold_left f l acc = (acc ++ added)%list /\ Forall Q added.
Proof.
  induction l as [|b l IH]; intros Hf acc.
  - exists []. split; [now rewrite app_nil_r | constructor].
  - cbn [fold_left].
    destruct (Hf acc b) as [added1 [E1 Q1]]; [now left|].
    destruct (IH (fun acc' b' Hb' => Hf acc' b' (or_intror Hb')) (f acc b))
      as [added2 [E2 Q2]].
    exists (added1 ++ added2)%list. split.
    + rewrite E2, E1. now rewrite app_assoc.
    + apply List.Forall_app. split; assumption.
Qed.

Lemma unit_from_child n c strictly info :
  In c (children n) -> unit_from c false info -> unit_from n strictly info.
Proof.
  intros Hc [ps [d [Hnode [Hb | [_ Hd]]]]]; exists ps, d; split; trivial; left.
  - now apply below_deeper with c.
  - subst d. now apply below_child.
Qed.

Lemma cpp_collect_added n : forall ps src fs scope,
  exists added,
    CppParser.collect_functions ps n src fs scope = (fs ++ added)%list
    /\ Forall (unit_from n false) added.
Proof.
  induction n as [ty fld sb eb sr er kids IH] using Node_forall_ind.
  intros ps src fs scope.
  rewrite List.Forall_forall in IH.
  set (n := mkNode ty fld sb eb sr er kids) in *.
  assert (Hkids : exists added,
             cpp_collect_children ps n src fs scope = (fs ++ added)%list
             /\ Forall (unit_from n false) added).
  { unfold cpp_collect_children.
    apply fold_left_appends. intros acc c Hc.
    destruct (IH c Hc (n :: ps) src acc scope) as [added [E Q]].
    exists added. split; [exact E|].
    eapply List.Forall_impl; [|exact Q].
    intros info. now apply unit_from_child. }
  rewrite cpp_collect_functions_eq.
  destruct (node_type n =? "function_definition"); [|exact Hkids].
  destruct (CppParser.resolve_name n) as [name_node|]; [|exact Hkids].
  eexists. split; [reflexivity|].
  constructor; [|constructor].
  exists ps, n. split; [reflexivity|]. right. now split.
Qed.

Lemma cpp_collect_children_added n ps src fs scope :
  exists added,
    cpp_collect_children ps n src fs scope = (fs ++ added)%list
    /\ Forall (unit_from n true) added.
Proof.
  unfold cpp_collect_children.
  apply fold_left_appends. intros acc c Hc.
  destruct (cpp_collect_added c (n :: ps) src acc scope) as [added [E Q]].
  exists added. split; [exact E|].
  eapply List.Forall_impl; [|exact Q].
  intros info. now apply unit_from_child.
Qed.

(** *** The loop of the orchestrator *)



(** On the sample file the operator function is passed over and the
    function after it is yielded and analysed. *)
Example operator_and_get_units :
  map ParserBase.name
    (CppParser.collect_functions [] Samples.operator_and_get_tree
       Samples.operator_and_get_source [] "") = ["get"]
  /\ map Analyzer.function_name
       (Analyzer.analyze_content (fun _ _ => Some Samples.operator_and_get_tree)
          Analyzer.registered_factory 0 Samples.operator_and_get_source
          "sample.cpp" "cpp") = ["get"].
Proof. split; vm_compute; reflexivity. Qed.

(** *** The Python walk *)

Lemma python_collect_functions_eq ps n src fs :
  PythonParser.collect_functions ps n src fs =
  if node_type n =? "function_definition" then
    python_collect_children ps n src (fs ++ [PythonParser.make_info ps n src])
  else if node_type n =? "decorated_definition" then
    match ts_node_child_by_field_name n "definition" with
    | None => fs
    | Some func_node =>
        python_collect_children ps n src
          (fs ++ [PythonParser.make_info (n :: ps) func_node src])
    end
  else python_collect_children ps n src fs.
Proof. destruct n; reflexivity. Qed.

Lemma fold_left_acc_app {A B : Type} (f : list A -> B -> list A) l :
  (forall acc b, In b l -> f acc b = (acc ++ f [] b)%list) ->
  forall acc, fold_left f l acc = (acc ++ fold_left f l [])%list.
Proof.
  induction l as [|b l IH]; intros Hf acc.
  - now rewrite app_nil_r.
  - cbn [fold_left].
    assert (Hl : forall acc' b', In b' l -> f acc' b' = (acc' ++ f [] b')%list)
      by (intros acc' b' Hb'; apply Hf; now right).
    rewrite (IH Hl (f acc b)), (IH Hl (f [] b)), (Hf acc b) by now left.
    now rewrite app_assoc.
Qed.

(** The units found before a call stay in front; what the call adds does
    not depend on them. *)
Lemma python_collect_app n : forall ps src fs,
  PythonParser.collect_functions ps n src fs
  = (fs ++ PythonParser.collect_functions ps n src [])%list.
Proof.
  induction n as [ty fld sb eb sr er kids IH] using Node_forall_ind.
  intros ps src fs.
  rewrite List.Forall_forall in IH.
  set (n := mkNode ty fld sb eb sr er kids) in *.
  assert (Hkids : forall acc,
             python_collect_children ps n src acc
             = (acc ++ python_collect_children ps n src [])%list).
  { unfold python_collect_children.
    apply fold_left_acc_app. intros acc c Hc. now apply IH. }
  rewrite !python_collect_functions_eq.
  destruct (node_type n =? "function_definition").
  - rewrite Hkids, (Hkids ([] ++ _)%list). cbn [app]. now rewrite <- app_assoc.
  - destruct (node_type n =? "decorated_definition"); [|apply Hkids].
    destruct (ts_node_child_by_field_name n "definition"); [|now rewrite app_nil_r].
    rewrite Hkids, (Hkids ([] ++ _)%list). cbn [app]. now rewrite <- app_assoc.
Qed.

Lemma python_collect_keeps ps n src fs info :
  In info fs -> In info (PythonParser.collect_functions ps n src fs).
Proof. intros H. rewrite python_collect_app. apply in_or_app. now left. Qed.

Lemma python_collect_children_reach ps n src c info :
  In c (children n) ->
  (forall acc, In info (PythonParser.collect_functions (n :: ps) c src acc)) ->
  forall acc, In info (python_collect_children ps n src acc).
Proof.
  unfold python_collect_children.
  induction (children n) as [|k kids IH]; intros Hc Hinfo acc; [destruct Hc|].
  cbn [fold_left]. destruct Hc as [-> | Hc].
  - apply (fold_left_preserves _ (fun a => In info a)); [|apply Hinfo].
    intros a b _ Ha. now apply python_collect_keeps.
  - now apply IH.
Qed.

Lemma python_reaches_collected src ps0 root ps d :
  reaches ps0 root ps d ->
  node_type d = "function_definition" ->
  forall fs,
    In (PythonParser.make_info ps d src)
       (PythonParser.collect_functions ps0 root src fs).
Proof.
  intros Hr Hd.
  induction Hr as [ps n | ps n c ps' d Hcut Hc Hr IH]; intros fs.
  - rewrite python_collect_functions_eq, Hd.
    apply (fold_left_preserves _ (fun a => In (PythonParser.make_info ps n src) a)).
    + intros a b _ Ha. now apply python_collect_keeps.
    + apply in_or_app. right. now left.
  - specialize (IH Hd).
    rewrite python_collect_functions_eq.
    destruct (node_type n =? "function_definition");
      [now apply python_collect_children_reach with c|].
    unfold cuts_walk in Hcut.
    destruct (node_type n =? "decorated_definition");
      [|now apply python_collect_children_reach with c].
    destruct (ts_node_child_by_field_name n "definition");
      [now apply python_collect_children_reach with c | discriminate].
Qed.

(** C7, as the code has it.  The Python walk goes on below every
    function definition it records: a function definition [d] found
    anywhere under the root, below no decorated definition that lacks its
    [definition] field, is yielded as a unit, and the unit of a
    definition is built from its own node and parents and put before
    whatever its children yield.  The C++ walk returns once it has
    recorded a function definition whose name resolves: that call adds
    this one unit and nothing from inside the definition. *)
Theorem python_walk_descends_cpp_walk_stops
    (root : Node) (source : string) (ps : list Node) (d : Node)
    (cpp_parents : list Node) (cpp_fn name_node : Node)
    (cpp_source class_scope : string) (functions : list FunctionInfo) :
  reaches [] root ps d ->
  node_type d = "function_definition" ->
  node_type cpp_fn = "function_definition" ->
  CppParser.resolve_name cpp_fn = Some name_node ->
  In (PythonParser.make_info ps d source)
     (PythonParser.collect_functions [] root source [])
  /\ (forall fs,
        PythonParser.collect_functions ps d source fs
        = (fs ++ PythonParser.make_info ps d source
              :: python_collect_children ps d source [])%list)
  /\ CppParser.collect_functions cpp_parents cpp_fn cpp_source functions class_scope
     = (functions
          ++ [CppParser.make_info cpp_parents cpp_fn name_node cpp_source
                class_scope])%list.
Proof.
  intros Hr Hd Hc Hname. split; [|split].
  - now apply python_reaches_collected.
  - intros fs. rewrite python_collect_app, python_collect_functions_eq, Hd.
    unfold python_collect_children.
    rewrite fold_left_acc_app; [reflexivity|].
    intros acc c _. apply python_collect_app.
  - rewrite cpp_collect_functions_eq, Hc, Hname. reflexivity.
Qed.

Lemma python_walk_descends_cpp_walk_stops_witness :
  reaches [] Samples.py_nested_tree
    [Samples.py_nested_outer_body; Samples.py_nested_outer; Samples.py_nested_tree]
    Samples.py_nested_inner
  /\ In (PythonParser.make_info
           [Samples.py_nested_outer_body; Samples.py_nested_outer;
            Samples.py_nested_tree]
           Samples.py_nested_inner Samples.py_nested_source)
        (PythonParser.collect_functions [] Samples.py_nested_tree
           Samples.py_nested_source [])
  /\ CppParser.collect_functions [Samples.cpp_nested_tree] Samples.cpp_nested_outer
       Samples.cpp_nested_source [] ""
     = [ CppParser.make_info [Samples.cpp_nested_tree] Samples.cpp_nested_outer
           (mkNode "identifier" (Some "declarator") 5 10 0 0 [])
           Samples.cpp_nested_source "" ].
Proof.
  assert (Hr : reaches [] Samples.py_nested_tree
                 [Samples.py_nested_outer_body; Samples.py_nested_outer;
                  Samples.py_nested_tree]
                 Samples.py_nested_inner).
  { apply reaches_child with Samples.py_nested_outer;
      [reflexivity | now left |].
    apply reaches_child with Samples.py_nested_outer_body;
      [reflexivity | cbn; tauto |].
    apply reaches_child with Samples.py_nested_inner;
      [reflexivity | now left |].
    apply reaches_here. }
  split; [exact Hr|].
  destruct (python_walk_descends_cpp_walk_stops
              Samples.py_nested_tree Samples.py_nested_source
              [Samples.py_nested_outer_body; Samples.py_nested_outer;
               Samples.py_nested_tree]
              Samples.py_nested_inner
              [Samples.cpp_nested_tree] Samples.cpp_nested_outer
              (mkNode "identifier" (Some "declarator") 5 10 0 0 [])
              Samples.cpp_nested_source "" [] Hr)
    as [H1 [_ H3]]; try reflexivity.
  split; [exact H1 | exact H3].
Defined.

(** C7, counterexample.  In the C++ sample a function definition with a
    resolvable name lies inside the body of another one; the walk yields
    the outer definition alone. *)
Lemma cpp_nested_definition_not_yielded :
  below Samples.cpp_nested_outer Samples.cpp_nested_inner
  /\ node_type Samples.cpp_nested_inner = "function_definition"
  /\ option_map (fun found => extract_node_text found Samples.cpp_nested_source)
       (CppParser.resolve_name Samples.cpp_nested_inner) = Some "inner"
  /\ map ParserBase.name
       (CppParser.collect_functions [] Samples.cpp_nested_tree
          Samples.cpp_nested_source [] "") = ["outer"].
Proof.
  split.
  - apply below_deeper with Samples.cpp_nested_outer_body; [cbn; tauto|].
    apply below_child. now left.
  - repeat split; vm_compute; reflexivity.
Qed.

(** On the Python sample both definitions are yielded, the nested one
    under its qualified name. *)
Example py_nested_units :
  map ParserBase.name
    (PythonParser.collect_functions [] Samples.py_nested_tree
       Samples.py_nested_source []) = ["outer"; "outer.inner"].
Proof. vm_compute. reflexivity. Qed.

End ParserFacts.

(** ** The parser registry *)

Module FactoryFacts.
Import ParserFactory Notions.

(** The extension table after the two registrations of the constructor
    of [Analyzer]. *)
Lemma registered_extensions (ext : string) :
  extensions_ Analyzer.registered_factory !! ext =
  if existsb (String.eqb ext) CppParser.get_extensions then Some "cpp"
  else if ext =? "py" then Some "python"
  else None.
Proof.
  unfold Analyzer.registered_factory, register_parser, empty_factory.
  cbn [extensions_ parsers_ get_extensions get_language_name
       CppParser.get_extensions PythonParser.get_extensions
       CppParser.get_language_name PythonParser.get_language_name
       fold_left existsb].
  rewrite !lookup_insert, lookup_empty.
  repeat match goal with
         | |- context [decide (?k = ext)] =>
             destruct (decide (k = ext)) as [<- | ?]; [reflexivity|]
         end.
  repeat match goal with
         | H : ?k <> ext |- _ =>
             assert (String.eqb ext k = false)
               by (apply String.eqb_neq; congruence);
             clear H
         end.
  repeat match goal with
         | H : String.eqb ext _ = false |- _ => rewrite H; clear H
         end.
  reflexivity.
Qed.

Lemma registered_parsers :
  create_parser Analyzer.registered_factory "cpp" = Some Cpp
  /\ create_parser Analyzer.registered_factory "python" = Some Python.
Proof. split; vm_compute; reflexivity. Qed.

(** C8, as the code has it.  Resolution by file name takes the extension
    of the path, gives nothing when there is none, drops its leading dot
    and looks the rest up as it is written, letter case included: the six
    C++ extensions give the C++ parser, [py] gives the Python parser and
    everything else gives nothing.  So [.py] resolves to Python, [.hpp]
    to C++, [.rs] and a missing extension to nothing, and so does
    [.HPP]. *)
Theorem extension_lookup_is_case_sensitive (path : string) :
  create_parser_for_file Analyzer.registered_factory path =
    (let ext := strip_dot (path_extension path) in
     if String.eqb (path_extension path) "" then None
     else if existsb (String.eqb ext) [ "cpp"; "cxx"; "cc"; "hpp"; "hxx"; "h" ]
          then Some Cpp
     else if ext =? "py" then Some Python
     else None)
  /\ create_parser_for_file Analyzer.registered_factory "tools/main.py" = Some Python
  /\ create_parser_for_file Analyzer.registered_factory "widget.hpp" = Some Cpp
  /\ create_parser_for_file Analyzer.registered_factory "lib.rs" = None
  /\ create_parser_for_file Analyzer.registered_factory "Makefile" = None
  /\ create_parser_for_file Analyzer.registered_factory "widget.HPP" = None.
Proof.
  split; [|repeat split; vm_compute; reflexivity].
  unfold create_parser_for_file. cbv zeta.
  destruct (String.eqb (path_extension path) ""); [reflexivity|].
  rewrite registered_extensions.
  change CppParser.get_extensions with [ "cpp"; "cxx"; "cc"; "hpp"; "hxx"; "h" ].
  destruct (existsb _ _); [apply registered_parsers|].
  destruct (_ =? "py"); [apply registered_parsers | reflexivity].
Qed.

(** C8, counterexample.  For [widget.HPP] the code finds no parser,
    where a lookup of the lowercased extension finds the C++ parser. *)
Lemma uppercase_extension_is_not_resolved :
  create_parser_for_file Analyzer.registered_factory "widget.HPP" = None
  /\ create_for_extension_as_specified Analyzer.registered_factory "widget.HPP"
     = Some Cpp.
Proof. split; vm_compute; reflexivity. Qed.

End FactoryFacts.

(** ** Searches and folds over the children of a node *)

Module WalkFacts.

Lemma first_some_found {A B : Type} (f : A -> option B) (l : list A) (y : B) :
  first_some f l = Some y -> exists x, In x l /\ f x = Some y.
Proof.
  induction l as [|x l IH]; cbn [first_some]; [discriminate|].
  destruct (f x) as [z|] eqn:Hx.
  - intros H. injection H as <-. exists x. split; [now left | exact Hx].
  - intros H. destruct (IH H) as [x' [Hin Hf]]. exists x'. split; [now right | exact Hf].
Qed.

Lemma first_some_not_none {A B : Type} (f : A -> option B) (l : list A) (x : A) :
  In x l -> f x <> None -> first_some f l <> None.
Proof.
  induction l as [|a l IH]; intros Hin Hx; [destruct Hin|].
  cbn [first_some]. destruct (f a) eqn:Ha; [discriminate|].
  destruct Hin as [->|Hin]; [congruence | now apply IH].
Qed.

Lemma fold_left_member {A B : Type} (f : list A -> B -> list A) (u : A)
    (Q : B -> Prop) (l : list B) :
  (forall c acc, In c l -> In u (f acc c) -> In u acc \/ Q c) ->
  forall acc, In u (fold_left f l acc) -> In u acc \/ exists c, In c l /\ Q c.
Proof.
  induction l as [|c l IH]; intros Hstep acc H; [now left|].
  cbn [fold_left] in H.
  apply IH in H; [|intros c' acc' Hc'; apply Hstep; now right].
  destruct H as [H | [c' [Hin Hq]]].
  - apply Hstep in H; [|now left].
    destruct H as [H | H]; [now left|]. right. exists c. split; [now left | exact H].
  - right. exists c'. split; [now right | exact Hq].
Qed.

Lemma fold_left_keeps {A B : Type} (f : list A -> B -> list A) (u : A)
    (l : list B) :
  (forall c acc, In c l -> In u acc -> In u (f acc c)) ->
  forall acc, In u acc -> In u (fold_left f l acc).
Proof.
  induction l as [|c l IH]; intros Hstep acc H; [exact H|].
  cbn [fold_left]. apply IH; [intros c' acc' Hc'; apply Hstep; now right|].
  apply Hstep; [now left | exact H].
Qed.

Lemma fold_left_reaches {A B : Type} (f : list A -> B -> list A) (u : A)
    (l : list B) (c : B) :
  (forall c' acc, In c' l -> In u acc -> In u (f acc c')) ->
  In c l ->
  (forall acc, In u (f acc c)) ->
  forall acc, In u (fold_left f l acc).
Proof.
  induction l as [|a l IH]; intros Hkeep Hin Hc acc; [destruct Hin|].
  cbn [fold_left]. destruct Hin as [->|Hin].
  - apply fold_left_keeps; [intros c' acc' Hc'; apply Hkeep; now right | apply Hc].
  - apply IH; [intros c' acc' Hc'; apply Hkeep; now right | exact Hin | exact Hc].
Qed.

End WalkFacts.

(** ** The parser registry: registration and lookup *)

Module RegistryProperties.
Import ParserFactory FactoryListing.

Lemma lookup_registered_extensions (exts : list string) (lang : string) :
  forall (table : gmap string string) (ext : string),
    fold_left (fun acc e => <[e := lang]> acc) exts table !! ext =
    if existsb (String.eqb ext) exts then Some lang else table !! ext.
Proof.
  induction exts as [|e exts IH]; intros table ext; [reflexivity|].
  cbn [fold_left existsb]. rewrite IH.
  destruct (existsb (String.eqb ext) exts); [now rewrite orb_true_r|].
  rewrite orb_false_r, lookup_insert.
  destruct (decide (e = ext)) as [->|Hne].
  - now rewrite String.eqb_refl.
  - destruct (String.eqb ext e) eqn:E; [|reflexivity].
    apply String.eqb_eq in E. congruence.
Qed.

Lemma existsb_eqb_In (ext : string) (exts : list string) :
  existsb (String.eqb ext) exts = true <-> In ext exts.
Proof.
  rewrite existsb_exists. split.
  - intros [x [Hin Heq]]. apply String.eqb_eq in Heq. now subst.
  - intros Hin. exists ext. split; [exact Hin | apply String.eqb_refl].
Qed.

Lemma language_name_injective (p q : Parser) :
  get_language_name p = get_language_name q -> p = q.
Proof. destruct p, q; intros H; try reflexivity; discriminate. Qed.

(** X1.  After [register_parser] of a parser, [create_parser] under its
    language name gives that parser, and every path whose extension, dot
    removed, is one the parser claims resolves to it, whatever the
    registry held before: the last registration wins.  Extensions the
    parser does not claim, and other language names, keep what they had. *)
Theorem register_then_resolve
    (f : Factory) (p : Parser) (path : string) :
  path_extension path <> "" ->
  In (strip_dot (path_extension path)) (get_extensions p) ->
  create_parser (register_parser f (Some p)) (get_language_name p) = Some p
  /\ create_parser_for_file (register_parser f (Some p)) path = Some p
  /\ (forall ext, ~ In ext (get_extensions p) ->
        extensions_ (register_parser f (Some p)) !! ext = extensions_ f !! ext)
  /\ (forall lang, lang <> get_language_name p ->
        create_parser (register_parser f (Some p)) lang = create_parser f lang).
Proof.
  intros Hext Hin.
  assert (Hp : create_parser (register_parser f (Some p)) (get_language_name p)
               = Some p).
  { unfold create_parser, register_parser. cbn [parsers_].
    now rewrite lookup_insert_eq. }
  split; [exact Hp|]. split; [|split].
  - unfold create_parser_for_file. cbv zeta.
    apply String.eqb_neq in Hext. rewrite Hext.
    replace (extensions_ (register_parser f (Some p))
               !! strip_dot (path_extension path))
      with (Some (get_language_name p)); [exact Hp|].
    unfold register_parser. cbn [extensions_].
    rewrite lookup_registered_extensions.
    apply existsb_eqb_In in Hin. now rewrite Hin.
  - intros ext Hnot. unfold register_parser. cbn [extensions_].
    rewrite lookup_registered_extensions.
    destruct (existsb (String.eqb ext) (get_extensions p)) eqn:E; [|reflexivity].
    apply existsb_eqb_In in E. contradiction.
  - intros lang Hne. unfold create_parser, register_parser. cbn [parsers_].
    now rewrite lookup_insert_ne by congruence.
Qed.

Lemma register_then_resolve_witness :
  path_extension "src/lexer.cc" <> ""
  /\ In (strip_dot (path_extension "src/lexer.cc")) (get_extensions Cpp)
  /\ create_parser_for_file
       (register_parser (register_parser empty_factory (Some Python)) (Some Cpp))
       "src/lexer.cc" = Some Cpp.
Proof.
  assert (H1 : path_extension "src/lexer.cc" <> "") by (vm_compute; discriminate).
  assert (H2 : In (strip_dot (path_extension "src/lexer.cc")) (get_extensions Cpp))
    by (vm_compute; tauto).
  split; [exact H1|]. split; [exact H2|].
  exact (proj1 (proj2 (register_then_resolve
                         (register_parser empty_factory (Some Python)) Cpp
                         "src/lexer.cc" H1 H2))).
Defined.

Lemma registry_ok_register (f : Factory) (parser : option Parser) :
  registry_ok f -> registry_ok (register_parser f parser).
Proof.
  intros Hok. destruct parser as [p|]; [|exact Hok].
  intros ext lang. unfold register_parser. cbn [extensions_ parsers_].
  rewrite lookup_registered_extensions.
  destruct (existsb (String.eqb ext) (get_extensions p)) eqn:E.
  - intros [= <-]. exists p. rewrite lookup_insert_eq.
    repeat split. now apply existsb_eqb_In.
  - intros Hold. destruct (Hok ext lang Hold) as [q [Hq [Hname Hin]]].
    destruct (decide (get_language_name p = lang)) as [Heq|Hne].
    + assert (q = p) by (apply language_name_injective; congruence). subst q.
      apply existsb_eqb_In in Hin. congruence.
    + exists q. rewrite lookup_insert_ne by exact Hne. now repeat split.
Qed.

Lemma registry_ok_registrations (regs : list (option Parser)) :
  registry_ok (registrations regs).
Proof.
  unfold registrations.
  assert (H : forall f, registry_ok f -> registry_ok (fold_left register_parser regs f)).
  { induction regs as [|r regs IH]; intros f Hf; [exact Hf|].
    cbn [fold_left]. apply IH. now apply registry_ok_register. }
  apply H. intros ext lang. unfold empty_factory. cbn [extensions_].
  rewrite lookup_empty. discriminate.
Qed.

Lemma registered_parser_was_given (regs : list (option Parser)) :
  forall f lang p,
    parsers_ (fold_left register_parser regs f) !! lang = Some p ->
    parsers_ f !! lang = Some p \/ In (Some p) regs.
Proof.
  induction regs as [|r regs IH]; intros f lang p H; [now left|].
  cbn [fold_left] in H. apply IH in H. destruct H as [H | H]; [|right; now right].
  destruct r as [q|]; [|now left].
  unfold register_parser in H. cbn [parsers_] in H.
  rewrite lookup_insert in H.
  destruct (decide (get_language_name q = lang)); [|now left].
  injection H as <-. right. now left.
Qed.

(** X2.  In a registry built from the empty one by any sequence of
    registrations, resolution by file name gives nothing only when the
    path has no extension or the extension is not in the table: an
    extension of the table always leads to a parser.  The parser given
    is one that was registered and it claims the extension of the file. *)
Theorem registered_extension_always_resolves
    (regs : list (option Parser)) (path : string) :
  let f := registrations regs in
  (create_parser_for_file f path = None <->
   path_extension path = ""
   \/ extensions_ f !! strip_dot (path_extension path) = None)
  /\ (forall p, create_parser_for_file f path = Some p ->
        In (Some p) regs
        /\ In (strip_dot (path_extension path)) (get_extensions p)).
Proof.
  cbv zeta. pose proof (registry_ok_registrations regs) as Hok.
  unfold create_parser_for_file. cbv zeta.
  destruct (String.eqb (path_extension path) "") eqn:Hext.
  - apply String.eqb_eq in Hext. split; [|discriminate].
    split; [now left | reflexivity].
  - apply String.eqb_neq in Hext.
    destruct (extensions_ (registrations regs) !! strip_dot (path_extension path))
      as [lang|] eqn:Hl.
    + destruct (Hok _ _ Hl) as [q [Hq [Hname Hin]]].
      unfold create_parser. rewrite Hq. unfold clone. split.
      * split; [discriminate | intros [H | H]; [contradiction | discriminate]].
      * intros p [= <-]. split; [|exact Hin].
        unfold registrations in Hq. apply registered_parser_was_given in Hq.
        destruct Hq as [Hq | Hq]; [|exact Hq].
        unfold empty_factory in Hq. cbn [parsers_] in Hq.
        rewrite lookup_empty in Hq. discriminate.
    + split; [|discriminate]. split; [now right | reflexivity].
Qed.

(** X3.  [get_supported_languages] lists, each once, exactly the language
    names under which [create_parser] gives a parser. *)
Theorem supported_languages_are_the_creatable_ones (f : Factory) (lang : string) :
  (In lang (get_supported_languages f) <-> create_parser f lang <> None)
  /\ List.NoDup (get_supported_languages f).
Proof.
  unfold get_supported_languages, create_parser. split.
  - rewrite in_map_iff. split.
    + intros [[k p] [Hk Hin]]. cbn in Hk. subst k.
      apply list_elem_of_In, elem_of_map_to_list in Hin. now rewrite Hin.
    + destruct (parsers_ f !! lang) as [p|] eqn:Hp; [|congruence].
      intros _. exists (lang, p). split; [reflexivity|].
      now apply list_elem_of_In, elem_of_map_to_list.
  - apply NoDup_ListNoDup.
    change (NoDup ((map_to_list (parsers_ f)).*1)).
    apply NoDup_fst_map_to_list.
Qed.

End RegistryProperties.

(** ** The traversal of the calculator: further properties *)

Module TraversalProperties.
Import Complexity Notions TraversalNotions BaseFacts ComplexityFacts.

Lemma fold_left_related {A B : Type} (f : A -> B -> A) (R : A -> A -> Prop) l :
  (forall a a0 b, In b l -> R a a0 -> R (f a b) (f a0 b)) ->
  forall a a0, R a a0 -> R (fold_left f l a) (fold_left f l a0).
Proof.
  induction l as [|b l IH]; intros Hf a a0 Ha; [exact Ha|].
  cbn [fold_left]. apply IH.
  - intros x x0 c Hc. apply Hf. now right.
  - apply Hf; [now left | exact Ha].
Qed.

Lemma extends_add_factor before base r r0 amount reason line :
  extends before base r r0 ->
  extends before base (add_factor r amount reason line)
    (add_factor r0 amount reason line).
Proof.
  intros [Hn [Hf Ht]]. unfold extends, add_factor.
  cbn [nesting_level factors total_complexity]. repeat split.
  - exact Hn.
  - rewrite Hf. now rewrite app_assoc.
  - unfold size_t_add, size_t_wrap in *.
    rewrite !Z.mod_mod by (unfold SIZE_MAX_plus_1; lia).
    rewrite <- (Zplus_mod_idemp_l (total_complexity r)), Ht.
    rewrite Zplus_mod_idemp_l, Zplus_mod_idemp_r. f_equal. lia.
Qed.

Lemma extends_set_nesting_level before base r r0 level :
  extends before base r r0 ->
  extends before base (set_nesting_level r level) (set_nesting_level r0 level).
Proof. intros [Hn [Hf Ht]]. now repeat split. Qed.

Lemma extends_score before base parents type line r r0 :
  extends before base r r0 ->
  extends before base (score_control_structure parents type line r)
    (score_control_structure parents type line r0).
Proof.
  intros H. pose proof H as [Hn _].
  unfold score_control_structure, increment_for_hybrid,
    increment_for_structural, increment_for_nesting.
  destruct (is_else_if parents type); [now apply extends_add_factor|].
  cbn [add_factor nesting_level]. rewrite Hn.
  destruct (_ && _); repeat apply extends_add_factor; exact H.
Qed.

Lemma extends_analyze before base n : forall parents src r r0,
  extends before base r r0 ->
  extends before base (analyze_control_flow parents n src r)
    (analyze_control_flow parents n src r0).
Proof.
  induction n as [ty fld sb eb sr er kids IH] using Node_forall_ind.
  intros parents src r r0 H.
  rewrite List.Forall_forall in IH.
  rewrite !analyze_control_flow_eq. cbn [node_type children start_row].
  destruct (ty =? "function_definition").
  - destruct (is_nested parents); [exact H|].
    destruct (ts_node_child_by_field_name _ _) as [body|] eqn:Hb; [|exact H].
    apply child_by_field_In in Hb. cbn [children] in Hb. now apply IH.
  - cbv zeta.
    assert (Hkids : forall a a0, extends before base a a0 ->
              extends before base
                (analyze_children parents (mkNode ty fld sb eb sr er kids) src a)
                (analyze_children parents (mkNode ty fld sb eb sr er kids) src a0)).
    { unfold analyze_children. cbn [children].
      apply fold_left_related. intros a a0 c Hc Ha. now apply IH. }
    set (r1 := if is_control_structure ty then _ else r).
    set (r1' := if is_control_structure ty then _ else r0).
    assert (H1 : extends before base r1 r1').
    { subst r1 r1'. destruct (is_control_structure ty); [|exact H].
      now apply extends_score. }
    pose proof H1 as [Hn1 _].
    destruct (increases_nesting_level ty).
    + rewrite Hn1.
      set (a := analyze_children _ _ _ _).
      set (a0 := analyze_children _ _ _ (set_nesting_level r1' _)).
      assert (Ha : extends before base a a0).
      { subst a a0. apply Hkids. now apply extends_set_nesting_level. }
      pose proof Ha as [Hna _]. rewrite Hna.
      now apply extends_set_nesting_level.
    + now apply Hkids.
Qed.

(** X4.  The factor list only grows at its end, and what a traversal
    appends depends on the node, its parents and the nesting level only:
    the factors after the call are the factors before it followed by the
    factors the same call records on a result without factors at the same
    level, the total grows by the total of that run (in [size_t]
    arithmetic) and the level comes out the same. *)
Theorem traversal_only_appends
    (parents : list Node) (n : Node) (source_code : string)
    (result : ComplexityResult) :
  let alone :=
    analyze_control_flow parents n source_code
      (fresh_result (nesting_level result)) in
  let after := analyze_control_flow parents n source_code result in
  factors after = (factors result ++ factors alone)%list
  /\ size_t_wrap (total_complexity after)
     = size_t_wrap (total_complexity result + total_complexity alone)
  /\ nesting_level after = nesting_level alone.
Proof.
  cbv zeta.
  destruct (extends_analyze (factors result) (total_complexity result) n
              parents source_code result (fresh_result (nesting_level result)))
    as [Hn [Hf Ht]].
  - unfold extends, fresh_result. cbn [nesting_level factors total_complexity].
    repeat split. + now rewrite app_nil_r. + f_equal. lia.
  - now repeat split.
Qed.

Lemma analyze_ignores_source n : forall parents src1 src2 r,
  analyze_control_flow parents n src1 r = analyze_control_flow parents n src2 r.
Proof.
  induction n as [ty fld sb eb sr er kids IH] using Node_forall_ind.
  intros parents src1 src2 r.
  rewrite List.Forall_forall in IH.
  rewrite !analyze_control_flow_eq. cbn [node_type children start_row].
  destruct (ty =? "function_definition").
  - destruct (is_nested parents); [reflexivity|].
    destruct (ts_node_child_by_field_name _ _) as [body|] eqn:Hb; [|reflexivity].
    apply child_by_field_In in Hb. cbn [children] in Hb. now apply IH.
  - cbv zeta.
    assert (Hkids : forall a,
              analyze_children parents (mkNode ty fld sb eb sr er kids) src1 a
              = analyze_children parents (mkNode ty fld sb eb sr er kids) src2 a).
    { intros a. unfold analyze_children. cbn [children].
      apply fold_left_pointwise. intros acc c Hc. now apply IH. }
    now rewrite Hkids.
Qed.

(** X5.  The score is read off the tree alone: [calculate] gives the same
    result whatever source text it is handed with a root. *)
Theorem calculate_ignores_source_text
    (root_node : option TSNode) (source1 source2 : string) :
  calculate root_node source1 = calculate root_node source2.
Proof.
  unfold calculate. destruct root_node as [root|]; [|reflexivity].
  destruct (_ || _).
  - destruct (ts_node_child_by_field_name _ _); [|reflexivity].
    apply analyze_ignores_source.
  - apply analyze_ignores_source.
Qed.

Lemma function_complexities_analyze n : forall parents src r,
  function_complexities (analyze_control_flow parents n src r)
  = function_complexities r.
Proof.
  induction n as [ty fld sb eb sr er kids IH] using Node_forall_ind.
  intros parents src r.
  rewrite List.Forall_forall in IH.
  rewrite analyze_control_flow_eq. cbn [node_type children start_row].
  destruct (ty =? "function_definition").
  - destruct (is_nested parents); [reflexivity|].
    destruct (ts_node_child_by_field_name _ _) as [body|] eqn:Hb; [|reflexivity].
    apply child_by_field_In in Hb. cbn [children] in Hb. now apply IH.
  - cbv zeta.
    assert (Hkids : forall a,
              function_complexities
                (analyze_children parents (mkNode ty fld sb eb sr er kids) src a)
              = function_complexities a).
    { intros a. unfold analyze_children. cbn [children].
      apply (fold_left_preserves _
               (fun x => function_complexities x = function_complexities a));
        [|reflexivity].
      intros x c Hc Hx. rewrite <- Hx. now apply IH. }
    assert (Hscore : forall line,
              function_complexities (score_control_structure parents ty line r)
              = function_complexities r).
    { intros line. unfold score_control_structure, increment_for_hybrid,
        increment_for_structural, increment_for_nesting.
      destruct (is_else_if parents ty); [reflexivity|].
      destruct (_ && _); reflexivity. }
    destruct (is_control_structure ty), (increases_nesting_level ty);
      cbn [set_nesting_level function_complexities];
      rewrite Hkids; cbn [set_nesting_level function_complexities];
      try apply Hscore; reflexivity.
Qed.

(** X6.  The per-function map of [ComplexityResult] is never written:
    the result of [calculate] holds the empty map for every root. *)
Theorem calculate_leaves_function_map_empty
    (root_node : option TSNode) (source_code : string) :
  function_complexities (calculate root_node source_code) = ∅.
Proof.
  unfold calculate. destruct root_node as [root|]; [|reflexivity].
  destruct (_ || _).
  - destruct (ts_node_child_by_field_name _ _); [|reflexivity].
    now rewrite function_complexities_analyze.
  - now rewrite function_complexities_analyze.
Qed.

End TraversalProperties.

(** ** The size of the increments *)

Module IncrementProperties.
Import Complexity Notions TraversalNotions BaseFacts ComplexityFacts.

Lemma increments_within_add_factor low high r amount reason line :
  low <= amount <= high ->
  increments_within low high r ->
  increments_within low high (add_factor r amount reason line).
Proof.
  intros Ha H. unfold increments_within, add_factor. cbn [factors].
  apply List.Forall_app. split; [exact H|]. constructor; [exact Ha | constructor].
Qed.

Lemma increments_within_score low high parents type line r :
  low <= 1 <= high ->
  (0 < nesting_level r -> low <= nesting_level r <= high) ->
  increments_within low high r ->
  increments_within low high (score_control_structure parents type line r).
Proof.
  intros H1 Hl H. unfold score_control_structure, increment_for_hybrid,
    increment_for_structural, increment_for_nesting.
  destruct (is_else_if parents type).
  - now apply increments_within_add_factor.
  - cbn [add_factor nesting_level].
    destruct (increases_nesting_level type); cbn [andb].
    + destruct (0 <? nesting_level r)%Z eqn:E.
      * apply Z.ltb_lt in E.
        apply increments_within_add_factor; [now apply Hl|].
        now apply increments_within_add_factor.
      * now apply increments_within_add_factor.
    + now apply increments_within_add_factor.
Qed.

Lemma nesting_level_after_score parents type line r :
  nesting_level (score_control_structure parents type line r) = nesting_level r.
Proof.
  unfold score_control_structure, increment_for_hybrid,
    increment_for_structural, increment_for_nesting.
  destruct (is_else_if parents type); [reflexivity|].
  destruct (_ && _); reflexivity.
Qed.

Lemma increments_positive_analyze n : forall parents src r,
  is_size_t (nesting_level r) ->
  increments_within 1 (SIZE_MAX_plus_1 - 1) r ->
  increments_within 1 (SIZE_MAX_plus_1 - 1) (analyze_control_flow parents n src r).
Proof.
  induction n as [ty fld sb eb sr er kids IH] using Node_forall_ind.
  intros parents src r Hr H.
  rewrite List.Forall_forall in IH.
  rewrite analyze_control_flow_eq. cbn [node_type children start_row].
  destruct (ty =? "function_definition").
  - destruct (is_nested parents); [exact H|].
    destruct (ts_node_child_by_field_name _ _) as [body|] eqn:Hb; [|exact H].
    apply child_by_field_In in Hb. cbn [children] in Hb. now apply IH.
  - cbv zeta.
    assert (Hkids : forall a, is_size_t (nesting_level a) ->
              increments_within 1 (SIZE_MAX_plus_1 - 1) a ->
              increments_within 1 (SIZE_MAX_plus_1 - 1)
                (analyze_children parents (mkNode ty fld sb eb sr er kids) src a)).
    { intros a Ha Hwa. unfold analyze_children. cbn [children].
      apply (fold_left_preserves _
               (fun x => nesting_level x = nesting_level a
                         /\ increments_within 1 (SIZE_MAX_plus_1 - 1) x));
        [|now split].
      intros x c Hc [Hx Hwx]. split.
      - rewrite <- Hx. apply nesting_level_analyze. now rewrite Hx.
      - apply IH; [exact Hc | now rewrite Hx | exact Hwx]. }
    set (r1 := if is_control_structure ty then _ else r).
    assert (H1 : nesting_level r1 = nesting_level r
                 /\ increments_within 1 (SIZE_MAX_plus_1 - 1) r1).
    { subst r1. destruct (is_control_structure ty); [|now split].
      split; [apply nesting_level_after_score|].
      apply increments_within_score; [unfold SIZE_MAX_plus_1; lia | | exact H].
      unfold is_size_t in Hr. lia. }
    destruct H1 as [Hn1 Hw1].
    destruct (increases_nesting_level ty).
    + apply Hkids; [apply size_t_wrap_range | exact Hw1].
    + apply Hkids; [now rewrite Hn1 | exact Hw1].
Qed.

(** X7.  Every factor that [calculate] records has an increment of at
    least 1 that is a [size_t] value: no factor of 0 is ever recorded
    (the nesting factor is only added for a level above zero). *)
Theorem every_increment_is_positive
    (root_node : option TSNode) (source_code : string) :
  Forall (fun f => 1 <= increment f < SIZE_MAX_plus_1)
    (factors (calculate root_node source_code)).
Proof.
  assert (H : increments_within 1 (SIZE_MAX_plus_1 - 1)
                (calculate root_node source_code)).
  { assert (H0 : is_size_t (nesting_level (set_nesting_level new_result 0)))
      by (cbn; unfold is_size_t, SIZE_MAX_plus_1; lia).
    unfold calculate. destruct root_node as [root|]; [|constructor].
    destruct (_ || _).
    - destruct (ts_node_child_by_field_name _ _); [|constructor].
      apply increments_positive_analyze; [exact H0 | constructor].
    - apply increments_positive_analyze; [exact H0 | constructor]. }
  unfold increments_within in H. eapply List.Forall_impl; [|exact H].
  intros f Hf. cbv beta in Hf. lia.
Qed.

Lemma nesting_depth_eq n :
  nesting_depth n =
  (if increases_nesting_level (node_type n) then 1 else 0)
  + fold_right (fun child acc => Z.max (nesting_depth child) acc) 0 (children n).
Proof. destruct n; reflexivity. Qed.

Lemma max_depth_nonneg (kids : list Node) :
  0 <= fold_right (fun child acc => Z.max (nesting_depth child) acc) 0 kids.
Proof. induction kids as [|c kids IH]; cbn [fold_right]; lia. Qed.

Lemma child_depth_le_max (c : Node) (kids : list Node) :
  In c kids ->
  nesting_depth c
  <= fold_right (fun child acc => Z.max (nesting_depth child) acc) 0 kids.
Proof.
  induction kids as [|k kids IH]; intros H; [destruct H|].
  cbn [fold_right]. destruct H as [->|H]; [lia|]. apply IH in H. lia.
Qed.

Lemma nesting_depth_nonneg n : 0 <= nesting_depth n.
Proof.
  rewrite nesting_depth_eq. pose proof (max_depth_nonneg (children n)).
  destruct (increases_nesting_level (node_type n)); lia.
Qed.

Lemma increments_bounded_analyze (bound : Z) n : forall parents src r,
  1 <= bound < SIZE_MAX_plus_1 ->
  0 <= nesting_level r ->
  nesting_level r + nesting_depth n <= bound ->
  increments_within 1 bound r ->
  increments_within 1 bound (analyze_control_flow parents n src r).
Proof.
  induction n as [ty fld sb eb sr er kids IH] using Node_forall_ind.
  intros parents src r Hb Hr Hd H.
  rewrite List.Forall_forall in IH.
  rewrite nesting_depth_eq in Hd. cbn [node_type children] in Hd.
  pose proof (max_depth_nonneg kids) as Hmax.
  rewrite analyze_control_flow_eq. cbn [node_type children start_row].
  destruct (ty =? "function_definition").
  - destruct (is_nested parents); [exact H|].
    destruct (ts_node_child_by_field_name _ _) as [body|] eqn:Hbody; [|exact H].
    apply child_by_field_In in Hbody. cbn [children] in Hbody.
    apply IH; try assumption.
    pose proof (child_depth_le_max body kids Hbody).
    destruct (increases_nesting_level ty); lia.
  - cbv zeta.
    assert (Hkids : forall a,
              0 <= nesting_level a ->
              (forall c, In c kids -> nesting_level a + nesting_depth c <= bound) ->
              increments_within 1 bound a ->
              increments_within 1 bound
                (analyze_children parents (mkNode ty fld sb eb sr er kids) src a)).
    { intros a Ha Hc Hwa. unfold analyze_children. cbn [children].
      apply (fold_left_preserves _
               (fun x => nesting_level x = nesting_level a
                         /\ increments_within 1 bound x));
        [|now split].
      intros x c Hin [Hx Hwx].
      assert (Hsize : is_size_t (nesting_level x)).
      { rewrite Hx. specialize (Hc c Hin).
        pose proof (nesting_depth_nonneg c). unfold is_size_t. lia. }
      split.
      - rewrite <- Hx. now apply nesting_level_analyze.
      - apply IH; try assumption; rewrite Hx; [exact Ha | now apply Hc]. }
    set (r1 := if is_control_structure ty then _ else r).
    assert (H1 : nesting_level r1 = nesting_level r
                 /\ increments_within 1 bound r1).
    { subst r1. destruct (is_control_structure ty); [|now split].
      split; [apply nesting_level_after_score|].
      apply increments_within_score; [lia | | exact H].
      destruct (increases_nesting_level ty); lia. }
    destruct H1 as [Hn1 Hw1].
    destruct (increases_nesting_level ty).
    + assert (Hlevel : size_t_incr (nesting_level r1) = nesting_level r + 1).
      { rewrite Hn1. unfold size_t_incr. apply size_t_wrap_small.
        unfold is_size_t. lia. }
      apply Hkids; cbn [set_nesting_level nesting_level]; rewrite ?Hlevel;
        [lia | | exact Hw1].
      intros c Hc. pose proof (child_depth_le_max c kids Hc). lia.
    + apply Hkids; rewrite ?Hn1; [exact Hr | | exact Hw1].
      intros c Hc. pose proof (child_depth_le_max c kids Hc). lia.
Qed.

(** X8.  No increment exceeds the nesting depth of what is scored: when
    the root handed to [calculate] has at most [d] nesting constructs
    inside one another (and [d] is below 2^64), every factor has an
    increment between 1 and the larger of 1 and [d]. *)
Theorem increments_bounded_by_nesting_depth
    (root : TSNode) (source_code : string) :
  nesting_depth (ts_node root) < SIZE_MAX_plus_1 ->
  Forall (fun f => 1 <= increment f <= Z.max 1 (nesting_depth (ts_node root)))
    (factors (calculate (Some root) source_code)).
Proof.
  intros Hd.
  set (bound := Z.max 1 (nesting_depth (ts_node root))).
  assert (Hb : 1 <= bound < SIZE_MAX_plus_1)
    by (subst bound; unfold SIZE_MAX_plus_1 in *; lia).
  change (increments_within 1 bound (calculate (Some root) source_code)).
  unfold calculate.
  destruct (_ || _).
  - destruct (ts_node_child_by_field_name _ _) as [body|] eqn:Hbody; [|constructor].
    apply child_by_field_In in Hbody.
    apply increments_bounded_analyze; try assumption; cbn [set_nesting_level nesting_level];
      [lia | | constructor].
    pose proof (child_depth_le_max body _ Hbody).
    pose proof (nesting_depth_eq (ts_node root)).
    destruct (increases_nesting_level (node_type (ts_node root))); subst bound; lia.
  - apply increments_bounded_analyze; try assumption; cbn [set_nesting_level nesting_level];
      [lia | subst bound; lia | constructor].
Qed.

Lemma increments_bounded_by_nesting_depth_witness :
  nesting_depth Samples.vowel_count_function = 3
  /\ Forall (fun f => 1 <= increment f <= 3)
       (factors
          (calculate
             (Some (mkTSNode [Samples.vowel_count_tree] Samples.vowel_count_function))
             Samples.vowel_count_source)).
Proof.
  split; [reflexivity|].
  assert (H : nesting_depth Samples.vowel_count_function < SIZE_MAX_plus_1)
    by (vm_compute; reflexivity).
  exact (increments_bounded_by_nesting_depth
           (mkTSNode [Samples.vowel_count_tree] Samples.vowel_count_function)
           Samples.vowel_count_source H).
Defined.

End IncrementProperties.

(** ** The orchestrator: results of a content, a file, a directory *)

Module OrchestratorProperties.
Import Complexity ParserFactory Analyzer Notions FactoryListing FileAnalysis.
Import BaseFacts ComplexityFacts.

Lemma calculate_consistent root_node source_code :
  consistent (calculate root_node source_code).
Proof.
  unfold calculate. destruct root_node as [root|]; [|reflexivity].
  destruct (_ || _).
  - destruct (ts_node_child_by_field_name _ _); [|reflexivity].
    apply consistent_analyze. reflexivity.
  - apply consistent_analyze. reflexivity.
Qed.

Lemma analyze_function_result_of path lang content root_node threshold results func :
  Forall (result_of path lang content root_node threshold) results ->
  Forall (result_of path lang content root_node threshold)
    (analyze_function path lang content root_node threshold results func).
Proof.
  intros H. unfold analyze_function.
  destruct (String.eqb (ParserBase.name func) "") eqn:Hname; [exact H|].
  apply String.eqb_neq in Hname.
  destruct (find_function_node _ _ _ _) as [function_node|] eqn:Hfind; [|exact H].
  cbn [Analyzer.complexity].
  destruct (_ >=? _)%Z eqn:Hge; [|exact H].
  apply List.Forall_app. split; [exact H|]. constructor; [|constructor].
  unfold result_of.
  cbn [Analyzer.file_path Analyzer.language Analyzer.function_name
       Analyzer.complexity Analyzer.factors].
  split; [reflexivity|]. split; [reflexivity|]. split; [exact Hname|].
  split; [apply Z.geb_le in Hge; exact Hge|].
  split; [apply calculate_consistent|].
  exists function_node. split; [exact Hfind|]. split; reflexivity.
Qed.

(** X9.  Every result that [analyze_content] returns carries the file
    path and the language it was called with, the language being [cpp]
    or [python]; its function name is not empty; its complexity is at
    least the threshold and is the ([size_t]) sum of the increments of
    its factors; and complexity and factors are those [calculate] gives
    for the node that [find_function_node] finds under that name in the
    tree of the content. *)
Theorem content_results_are_well_formed
    (ts_parse : Parser -> string -> option Node) (f : Factory) (threshold : Z)
    (content path lang : string) :
  Forall
    (fun res =>
       (lang = "cpp" \/ lang = "python")
       /\ exists grammar root_node,
            grammar_of lang = Some grammar
            /\ ts_parse grammar content = Some root_node
            /\ result_of path lang content root_node threshold res)
    (analyze_content ts_parse f threshold content path lang).
Proof.
  unfold analyze_content.
  destruct (grammar_of lang) as [grammar|] eqn:Hg; [|constructor].
  assert (Hlang : lang = "cpp" \/ lang = "python").
  { unfold grammar_of in Hg.
    destruct (lang =? "cpp") eqn:E1; [left; now apply String.eqb_eq|].
    destruct (lang =? "python") eqn:E2; [right; now apply String.eqb_eq|].
    discriminate. }
  destruct (ts_parse grammar content) as [root_node|] eqn:Hp; [|constructor].
  destruct (create_parser f lang) as [parser|]; [|constructor].
  eapply List.Forall_impl.
  2:{ apply (fold_left_preserves _
               (Forall (result_of path lang content root_node threshold)));
        [|constructor].
      intros a b _ Ha. now apply analyze_function_result_of. }
  intros res Hres. split; [exact Hlang|]. now exists grammar, root_node.
Qed.

Lemma analyze_function_filter path lang content root_node low high results func :
  low <= high ->
  analyze_function path lang content root_node high
    (List.filter (fun r => (Analyzer.complexity r >=? high)%Z) results) func
  = List.filter (fun r => (Analyzer.complexity r >=? high)%Z)
      (analyze_function path lang content root_node low results func).
Proof.
  intros Hle. unfold analyze_function.
  destruct (String.eqb (ParserBase.name func) ""); [reflexivity|].
  destruct (find_function_node _ _ _ _) as [function_node|]; [|reflexivity].
  cbn [Analyzer.complexity].
  destruct (_ >=? high)%Z eqn:Hhigh.
  - assert (Hlow : (total_complexity (calculate (Some function_node) content)
                    >=? low)%Z = true).
    { apply Z.geb_le. apply Z.geb_le in Hhigh. lia. }
    rewrite Hlow. rewrite List.filter_app. cbn [List.filter Analyzer.complexity].
    now rewrite Hhigh.
  - destruct (_ >=? low)%Z; [|reflexivity].
    rewrite List.filter_app. cbn [List.filter Analyzer.complexity].
    rewrite Hhigh. now rewrite app_nil_r.
Qed.

(** X10.  The threshold only filters: under a higher threshold
    [analyze_content] returns the results it returns under a lower one
    that reach the higher threshold, in the same order. *)
Theorem higher_threshold_only_filters
    (ts_parse : Parser -> string -> option Node) (f : Factory) (low high : Z)
    (content path lang : string) :
  low <= high ->
  analyze_content ts_parse f high content path lang
  = List.filter (fun r => (Analyzer.complexity r >=? high)%Z)
      (analyze_content ts_parse f low content path lang).
Proof.
  intros Hle. unfold analyze_content.
  destruct (grammar_of lang) as [grammar|]; [|reflexivity].
  destruct (ts_parse grammar content) as [root_node|]; [|reflexivity].
  destruct (create_parser f lang) as [parser|]; [|reflexivity].
  generalize (Analyzer.parse_functions ts_parse parser
                (mkParserContext content path)).
  intros units.
  change (@nil AnalysisResult)
    with (List.filter (fun r => (Analyzer.complexity r >=? high)%Z) []) at 1.
  generalize (@nil AnalysisResult).
  induction units as [|func units IH]; intros results; [reflexivity|].
  cbn [fold_left]. rewrite (analyze_function_filter _ _ _ _ low high) by exact Hle.
  apply IH.
Qed.

Lemma higher_threshold_only_filters_witness :
  0 <= 5
  /\ analyze_content (fun _ _ => Some Samples.vowel_count_tree)
       registered_factory 5 Samples.vowel_count_source "vowel_count.cpp" "cpp"
     = List.filter (fun r => (Analyzer.complexity r >=? 5)%Z)
         (analyze_content (fun _ _ => Some Samples.vowel_count_tree)
            registered_factory 0 Samples.vowel_count_source "vowel_count.cpp" "cpp").
Proof.
  split; [lia|].
  apply (higher_threshold_only_filters (fun _ _ => Some Samples.vowel_count_tree)
           registered_factory 0 5 Samples.vowel_count_source "vowel_count.cpp" "cpp").
  lia.
Defined.

Lemma results_follow_units path lang content root_node threshold units :
  forall results,
  exists added,
    map result_key
      (fold_left (analyze_function path lang content root_node threshold)
         units results)
    = (map result_key results ++ added)%list
    /\ sublist added (map unit_key units).
Proof.
  induction units as [|func units IH]; intros results.
  - exists []. split; [cbn; now rewrite app_nil_r | constructor].
  - cbn [fold_left map].
    destruct (IH (analyze_function path lang content root_node threshold
                    results func)) as [added [Heq Hsub]].
    rewrite Heq. unfold analyze_function.
    destruct (String.eqb (ParserBase.name func) "");
      [exists added; split; [reflexivity | now apply sublist_cons]|].
    destruct (find_function_node _ _ _ _) as [function_node|];
      [|exists added; split; [reflexivity | now apply sublist_cons]].
    destruct (_ >=? _)%Z;
      [|exists added; split; [reflexivity | now apply sublist_cons]].
    exists (unit_key func :: added). split; [|now apply sublist_skip].
    rewrite map_app, <- app_assoc. reflexivity.
Qed.

(** X28.  The results of [analyze_content] follow the units of the
    extractor: read as (name, first line, last line), the results are
    the units with some of them left out, in the order in which the
    extractor yields them; a unit gives at most one result. *)
Theorem content_results_follow_the_units
    (ts_parse : Parser -> string -> option Node) (f : Factory) (threshold : Z)
    (content path lang : string) :
  sublist
    (map result_key (analyze_content ts_parse f threshold content path lang))
    (map unit_key
       match create_parser f lang with
       | Some parser =>
           Analyzer.parse_functions ts_parse parser (mkParserContext content path)
       | None => []
       end).
Proof.
  unfold analyze_content.
  destruct (grammar_of lang) as [grammar|]; [|apply sublist_nil_l].
  destruct (ts_parse grammar content) as [root_node|]; [|apply sublist_nil_l].
  destruct (create_parser f lang) as [parser|]; [|apply sublist_nil_l].
  cbv zeta.
  destruct (results_follow_units path lang content root_node threshold
              (Analyzer.parse_functions ts_parse parser
                 (mkParserContext content path)) [])
    as [added [Heq Hsub]].
  rewrite Heq. exact Hsub.
Qed.

End OrchestratorProperties.

(** ** One file, many files *)

Module FileProperties.
Import Complexity ParserFactory Analyzer Notions FactoryListing FileAnalysis.
Import BaseFacts.

Section WithEnvironment.
Variable ts_parse : Parser -> string -> option Node.
Variable read_file_content : string -> option string.
Variable list_files : string -> bool -> option (list string).
Variable is_git_repo : string -> bool.
Variable list_git_files : string -> option (list string).
Variable matches_pattern : string -> string -> bool.

Lemma content_results_labelled f threshold content path lang :
  Forall
    (fun res =>
       Analyzer.file_path res = path
       /\ Analyzer.language res = lang
       /\ threshold <= Analyzer.complexity res)
    (analyze_content ts_parse f threshold content path lang).
Proof.
  unfold analyze_content.
  destruct (grammar_of lang) as [grammar|]; [|constructor].
  destruct (ts_parse grammar content) as [root_node|]; [|constructor].
  destruct (create_parser f lang) as [parser|]; [|constructor].
  apply fold_left_preserves; [|constructor].
  intros results func _ H. unfold analyze_function.
  destruct (String.eqb (ParserBase.name func) ""); [exact H|].
  destruct (find_function_node _ _ _ _) as [function_node|]; [|exact H].
  cbn [Analyzer.complexity].
  destruct (_ >=? _)%Z eqn:Hge; [|exact H].
  apply List.Forall_app. split; [exact H|]. constructor; [|constructor].
  cbn [Analyzer.file_path Analyzer.language Analyzer.complexity].
  split; [reflexivity|]. split; [reflexivity|].
  apply Z.geb_le in Hge. exact Hge.
Qed.

Lemma content_results_need_grammar f threshold content path lang :
  analyze_content ts_parse f threshold content path lang <> [] ->
  exists grammar root_node parser,
    grammar_of lang = Some grammar
    /\ ts_parse grammar content = Some root_node
    /\ create_parser f lang = Some parser.
Proof.
  unfold analyze_content.
  destruct (grammar_of lang) as [grammar|] eqn:Hg; [|congruence].
  destruct (ts_parse grammar content) as [root_node|] eqn:Hp; [|congruence].
  destruct (create_parser f lang) as [parser|] eqn:Hcp; [|congruence].
  intros _. now exists grammar, root_node, parser.
Qed.

(** X11.  [analyze_file] returns results only for a file that could be
    read, is not empty, and whose language (the one set on the analyzer,
    else the one detected from the file name) is not empty, has a
    grammar ([cpp] or [python]) and a registered parser, and whose
    content could be parsed; every result bears the path of the file and
    that language, and reaches the threshold of the analyzer. *)
Theorem file_results_need_a_readable_supported_file
    (f : Factory) (s : Settings) (file_path : string) :
  let results :=
    analyze_file ts_parse read_file_content f s file_path in
  let lang := chosen_language f s file_path in
  Forall
    (fun res =>
       Analyzer.file_path res = file_path
       /\ Analyzer.language res = lang
       /\ complexity_threshold_ s <= Analyzer.complexity res)
    results
  /\ (results <> [] ->
      exists content grammar root_node parser,
        read_file_content file_path = Some content
        /\ content <> ""
        /\ lang <> ""
        /\ grammar_of lang = Some grammar
        /\ ts_parse grammar content = Some root_node
        /\ create_parser f lang = Some parser
        /\ results
           = analyze_content ts_parse f (complexity_threshold_ s)
               content file_path lang).
Proof.
  cbv zeta. unfold analyze_file.
  destruct (read_file_content file_path) as [content|];
    [|split; [constructor | congruence]].
  destruct (String.eqb content "") eqn:Hc; [split; [constructor | congruence]|].
  destruct (String.eqb (chosen_language f s file_path) "") eqn:Hl;
    [split; [constructor | congruence]|].
  apply String.eqb_neq in Hc. apply String.eqb_neq in Hl.
  split; [apply content_results_labelled|].
  intros Hne. destruct (content_results_need_grammar _ _ _ _ _ Hne)
    as [grammar [root_node [parser [Hg [Hp Hcp]]]]].
  exists content, grammar, root_node, parser.
  split; [reflexivity|]. split; [exact Hc|]. split; [exact Hl|].
  split; [exact Hg|]. split; [exact Hp|]. split; [exact Hcp | reflexivity].
Qed.

Lemma language_name_not_empty (p : Parser) : get_language_name p <> "".
Proof. destruct p; discriminate. Qed.

Lemma grammar_of_language_name (p : Parser) :
  grammar_of (get_language_name p) = Some p.
Proof. destruct p; reflexivity. Qed.

(** X12.  In a registry built by registrations alone, the language that
    [detect_language] gives for a file name is empty exactly when no
    parser is found for the file; otherwise it is the language name of a
    registered parser, for which [analyze_content] has a grammar and
    [create_parser] gives that parser: a detected language is never
    rejected as unsupported. *)
Theorem detected_language_is_supported
    (regs : list (option Parser)) (file_path : string) :
  let f := registrations regs in
  (detect_language f file_path = "" <-> create_parser_for_file f file_path = None)
  /\ (forall p,
        create_parser_for_file f file_path = Some p ->
        detect_language f file_path = get_language_name p
        /\ grammar_of (detect_language f file_path) = Some p
        /\ create_parser f (detect_language f file_path) = Some p).
Proof.
  cbv zeta. split.
  - unfold detect_language.
    destruct (create_parser_for_file _ _) as [p|]; [|tauto].
    split; [|discriminate]. intros H. now apply language_name_not_empty in H.
  - intros p Hp. unfold detect_language. rewrite Hp.
    split; [reflexivity|]. split; [apply grammar_of_language_name|].
    unfold create_parser_for_file in Hp.
    destruct (String.eqb (path_extension file_path) ""); [discriminate|].
    destruct (extensions_ (registrations regs) !! strip_dot (path_extension file_path))
      as [lang|] eqn:Hext; [|discriminate].
    destruct (RegistryProperties.registry_ok_registrations regs _ _ Hext)
      as [q [Hq [Hname _]]].
    unfold create_parser in Hp |- *. rewrite Hq in Hp.
    injection Hp as Hp. unfold clone in Hp. subst q.
    rewrite Hname. now rewrite Hq.
Qed.

Lemma analyze_files_from f s files : forall results,
  fold_left
    (fun results file =>
       if should_analyze_file matches_pattern f s file
       then (results ++ analyze_file ts_parse read_file_content f s file)%list
       else results)
    files results
  = (results
     ++ concat (map (analyze_file ts_parse read_file_content f s)
                  (List.filter (should_analyze_file matches_pattern f s) files)))%list.
Proof.
  induction files as [|file files IH]; intros results.
  - cbn. now rewrite app_nil_r.
  - cbn [fold_left List.filter]. rewrite IH.
    destruct (should_analyze_file matches_pattern f s file); [|reflexivity].
    cbn [map concat]. now rewrite app_assoc.
Qed.

(** X13.  [analyze_directory] returns, in the order of the listing, the
    results of [analyze_file] for the listed files that
    [should_analyze_file] accepts, and nothing for a directory that
    cannot be listed; [analyze_git_repository] does the same with the
    files of the repository, and returns nothing for a path that is not
    a repository.  A file is accepted exactly when no ignore pattern
    matches its path and a parser is found for its name. *)
Theorem directory_results_are_the_accepted_files
    (f : Factory) (s : Settings) (path : string) (recursive : bool) :
  analyze_directory ts_parse read_file_content list_files matches_pattern
    f s path recursive
  = match list_files path recursive with
    | Some files =>
        concat (map (analyze_file ts_parse read_file_content f s)
                  (List.filter (should_analyze_file matches_pattern f s) files))
    | None => []
    end
  /\ analyze_git_repository ts_parse read_file_content is_git_repo list_git_files
       matches_pattern f s path
     = match (if is_git_repo path then list_git_files path else None) with
       | Some files =>
           concat (map (analyze_file ts_parse read_file_content f s)
                     (List.filter (should_analyze_file matches_pattern f s) files))
       | None => []
       end
  /\ (forall file,
        should_analyze_file matches_pattern f s file = true
        <-> (forall pattern, In pattern (ignore_patterns_ s) ->
               matches_pattern file pattern = false)
            /\ create_parser_for_file f file <> None).
Proof.
  split; [|split].
  - unfold analyze_directory. destruct (list_files path recursive); [|reflexivity].
    unfold analyze_files. now rewrite analyze_files_from.
  - unfold analyze_git_repository. destruct (is_git_repo path); [|reflexivity].
    destruct (list_git_files path); [|reflexivity].
    unfold analyze_files. now rewrite analyze_files_from.
  - intros file. unfold should_analyze_file.
    destruct (existsb (matches_pattern file) (ignore_patterns_ s)) eqn:He.
    + split; [discriminate|]. intros [Hno _].
      apply List.existsb_exists in He. destruct He as [pattern [Hin Hm]].
      rewrite (Hno pattern Hin) in Hm. discriminate.
    + assert (Hno : forall pattern, In pattern (ignore_patterns_ s) ->
                      matches_pattern file pattern = false).
      { intros pattern Hin.
        destruct (matches_pattern file pattern) eqn:Hm; [|reflexivity].
        assert (Hex : existsb (matches_pattern file) (ignore_patterns_ s) = true)
          by (apply List.existsb_exists; now exists pattern).
        congruence. }
      destruct (create_parser_for_file f file).
      * split; [intros _; split; [exact Hno | discriminate] | reflexivity].
      * split; [discriminate | intros [_ H]; now destruct H].
Qed.

End WithEnvironment.

End FileProperties.

(** ** Finding the node of a unit again *)

Module LookupProperties.
Import Complexity ParserFactory Analyzer Notions FileAnalysis.
Import BaseFacts ParserFacts WalkFacts.

Lemma find_function_node_eq ps n function_name source :
  find_function_node ps n function_name source =
  let search_children :=
    first_some
      (fun child => find_function_node (n :: ps) child function_name source)
      (children n) in
  let cpp_then_children :=
    if (node_type n =? "function_definition")
       && cpp_name_matches n function_name source
    then Some (mkTSNode ps n)
    else search_children in
  if (node_type n =? "function_definition")
     || (node_type n =? "decorated_definition") then
    match actual_func_node ps n with
    | None => None
    | Some actual =>
        if python_name_matches actual function_name source
        then Some actual
        else cpp_then_children
    end
  else cpp_then_children.
Proof. destruct n; reflexivity. Qed.

Lemma actual_func_node_located ps n actual :
  actual_func_node ps n = Some actual -> located ps n actual.
Proof.
  unfold actual_func_node.
  destruct (node_type n =? "decorated_definition").
  - destruct (ts_node_child_by_field_name n "definition") as [c|] eqn:Hc;
      [|discriminate].
    intros H. injection H as <-.
    apply located_child with (c := c); [now apply child_by_field_In in Hc|].
    constructor.
  - intros H. injection H as <-. constructor.
Qed.

Lemma find_function_node_sound n : forall ps function_name source h,
  find_function_node ps n function_name source = Some h ->
  located ps n h
  /\ (accepted_python h function_name source
      \/ accepted_cpp h function_name source).
Proof.
  induction n as [ty fld sb eb sr er kids IH] using Node_forall_ind.
  intros ps function_name source h.
  rewrite List.Forall_forall in IH.
  rewrite find_function_node_eq. cbv zeta.
  set (n := mkNode ty fld sb eb sr er kids).
  assert (Hchildren :
            first_some
              (fun child => find_function_node (n :: ps) child function_name source)
              (children n) = Some h ->
            located ps n h
            /\ (accepted_python h function_name source
                \/ accepted_cpp h function_name source)).
  { intros H. apply first_some_found in H. destruct H as [c [Hin Hc]].
    destruct (IH c Hin _ _ _ _ Hc) as [Hloc Hacc].
    split; [now apply located_child with (c := c) | exact Hacc]. }
  assert (Hcpp :
            (if (node_type n =? "function_definition")
                && cpp_name_matches n function_name source
             then Some (mkTSNode ps n)
             else first_some
                    (fun child =>
                       find_function_node (n :: ps) child function_name source)
                    (children n)) = Some h ->
            located ps n h
            /\ (accepted_python h function_name source
                \/ accepted_cpp h function_name source)).
  { destruct (_ && _) eqn:Hc; [|exact Hchildren].
    intros H. injection H as <-. apply andb_prop in Hc. destruct Hc as [Ht Hm].
    apply String.eqb_eq in Ht.
    split; [constructor | right; now split]. }
  destruct (_ || _); [|exact Hcpp].
  destruct (actual_func_node ps n) as [actual|] eqn:Ha; [|discriminate].
  destruct (python_name_matches actual function_name source) eqn:Hm; [|exact Hcpp].
  intros H. injection H as <-.
  split; [now apply actual_func_node_located | now left].
Qed.

Lemma find_function_node_complete ps n ps' d :
  reaches ps n ps' d ->
  forall function_name source,
    node_type d = "function_definition" ->
    python_name_matches (mkTSNode ps' d) function_name source = true
    \/ cpp_name_matches d function_name source = true ->
    find_function_node ps n function_name source <> None.
Proof.
  induction 1 as [ps n | ps n c ps' d Hcut Hin Hreach IH];
    intros function_name source Hty Hacc; rewrite find_function_node_eq; cbv zeta.
  - rewrite Hty. cbn [String.eqb orb andb].
    replace ("function_definition" =? "function_definition") with true
      by (symmetry; apply String.eqb_refl).
    cbn [orb andb]. unfold actual_func_node. rewrite Hty.
    replace ("function_definition" =? "decorated_definition") with false
      by reflexivity.
    destruct (python_name_matches _ _ _); [discriminate|].
    destruct Hacc as [Hacc | Hacc]; [discriminate|]. rewrite Hacc. discriminate.
  - specialize (IH function_name source Hty Hacc).
    assert (Hchildren :
              first_some
                (fun child =>
                   find_function_node (n :: ps) child function_name source)
                (children n) <> None)
      by (now apply first_some_not_none with (x := c)).
    assert (Hcpp :
              (if (node_type n =? "function_definition")
                  && cpp_name_matches n function_name source
               then Some (mkTSNode ps n)
               else first_some
                      (fun child =>
                         find_function_node (n :: ps) child function_name source)
                      (children n)) <> None)
      by (destruct (_ && _); [discriminate | exact Hchildren]).
    destruct (_ || _); [|exact Hcpp].
    unfold actual_func_node. unfold cuts_walk in Hcut.
    destruct (node_type n =? "decorated_definition").
    + destruct (ts_node_child_by_field_name n "definition") as [definition|];
        [|cbn in Hcut; discriminate Hcut].
      cbv beta iota.
      destruct (python_name_matches (mkTSNode (n :: ps) definition)
                  function_name source);
        [discriminate | exact Hcpp].
    + cbv beta iota.
      destruct (python_name_matches (mkTSNode ps n) function_name source);
        [discriminate | exact Hcpp].
Qed.

(** X14.  What [find_function_node] returns is a node at or under the
    node it was started on, with its true chain of ancestors, that is
    accepted for the name the Python way or the C++ way.  When it
    returns nothing, no function definition that the search reaches
    (the search does not go under a [decorated_definition] without
    [definition] field) is accepted for the name in either way. *)
Theorem lookup_returns_an_accepted_node
    (ps : list Node) (n : Node) (function_name source : string) :
  match find_function_node ps n function_name source with
  | Some h =>
      located ps n h
      /\ (accepted_python h function_name source
          \/ accepted_cpp h function_name source)
  | None =>
      forall ps' d,
        reaches ps n ps' d ->
        node_type d = "function_definition" ->
        python_name_matches (mkTSNode ps' d) function_name source = false
        /\ cpp_name_matches d function_name source = false
  end.
Proof.
  destruct (find_function_node ps n function_name source) as [h|] eqn:Hf.
  - now apply find_function_node_sound.
  - intros ps' d Hreach Hty.
    pose proof (find_function_node_complete ps n ps' d Hreach function_name
                  source Hty) as Hc.
    destruct (python_name_matches _ _ _) eqn:Hp;
      [exfalso; apply Hc; [now left | exact Hf]|].
    destruct (cpp_name_matches _ _ _) eqn:Hq;
      [exfalso; apply Hc; [now right | exact Hf]|].
    now split.
Qed.

Lemma fitting_identifier_text n source :
  fitting_identifier n source ->
  extract_function_name n source = extract_node_text n source.
Proof.
  intros [Hty [Hse [Hs [He Hu]]]].
  unfold extract_function_name. rewrite search_identifier_eq.
  unfold identifier_text, extract_node_text. rewrite Hty.
  replace ("identifier" =? "identifier") with true by reflexivity.
  replace (start_byte n <? Z.of_nat (String.length source))%Z with true
    by (symmetry; apply Z.ltb_lt; lia).
  replace (end_byte n <=? Z.of_nat (String.length source))%Z with true
    by (symmetry; apply Z.leb_le; lia).
  replace (start_byte n >? end_byte n)%Z with false
    by (symmetry; rewrite Z.gtb_ltb; apply Z.ltb_ge; lia).
  replace (end_byte n >? Z.of_nat (String.length source))%Z with false
    by (symmetry; rewrite Z.gtb_ltb; apply Z.ltb_ge; lia).
  cbn [andb orb]. unfold substr, uint32_wrap.
  rewrite Z.mod_small by (unfold UINT32_MAX_plus_1 in *; lia).
  rewrite Z.min_l by lia. reflexivity.
Qed.

Lemma full_name_is_qualify source : forall ps name,
  names_fit ps source ->
  full_name ps source name = PythonParser.qualify ps source name.
Proof.
  induction ps as [|parent up IH]; intros name Hfit; [reflexivity|].
  cbn [full_name PythonParser.qualify].
  assert (Hup : names_fit up source).
  { intros fn nm Hin. apply Hfit. now right. }
  destruct (node_type parent =? "function_definition") eqn:Hty; [|now apply IH].
  apply String.eqb_eq in Hty.
  destruct (ts_node_child_by_field_name parent "name") as [parent_name|] eqn:Hn;
    [|now apply IH].
  rewrite (fitting_identifier_text parent_name source)
    by (apply (Hfit parent parent_name); [now left | exact Hty | exact Hn]).
  now apply IH.
Qed.

(** X15.  A Python function definition that the walk reaches, and whose
    own and enclosing functions' name nodes are identifiers with a span
    inside the source, is yielded as a unit by the extractor, and
    [find_function_node] finds a node for the qualified name of that
    unit: the name rebuilt by the orchestrator is the name the
    extractor built. *)
Theorem python_unit_is_found_again
    (root_node : Node) (source : string) (ps : list Node) (d name_node : Node) :
  reaches [] root_node ps d ->
  node_type d = "function_definition" ->
  ts_node_child_by_field_name d "name" = Some name_node ->
  names_fit (d :: ps) source ->
  let unit := PythonParser.make_info ps d source in
  In unit (PythonParser.collect_functions [] root_node source [])
  /\ python_name_matches (mkTSNode ps d) (ParserBase.name unit) source = true
  /\ exists h,
       find_function_node [] root_node (ParserBase.name unit) source = Some h
       /\ located [] root_node h.
Proof.
  intros Hreach Hty Hname Hfit. cbv zeta.
  assert (Hmatch : python_name_matches (mkTSNode ps d)
                     (ParserBase.name (PythonParser.make_info ps d source))
                     source = true).
  { unfold python_name_matches, PythonParser.make_info.
    cbn [ts_node ts_parents ParserBase.name]. rewrite Hname.
    rewrite (fitting_identifier_text name_node source)
      by (apply (Hfit d name_node); [now left | exact Hty | exact Hname]).
    rewrite full_name_is_qualify
      by (intros fn nm Hin; apply Hfit; now right).
    apply String.eqb_refl. }
  split; [now apply python_reaches_collected|]. split; [exact Hmatch|].
  destruct (find_function_node [] root_node
              (ParserBase.name (PythonParser.make_info ps d source)) source)
    as [h|] eqn:Hf.
  - exists h. split; [reflexivity|]. now apply find_function_node_sound in Hf.
  - exfalso.
    apply (find_function_node_complete [] root_node ps d Hreach _ source Hty
             (or_introl Hmatch)).
    exact Hf.
Qed.

Lemma py_nested_inner_reached :
  reaches [] Samples.py_nested_tree
    [Samples.py_nested_outer_body; Samples.py_nested_outer; Samples.py_nested_tree]
    Samples.py_nested_inner.
Proof.
  apply reaches_child with (c := Samples.py_nested_outer);
    [reflexivity | cbn; tauto |].
  apply reaches_child with (c := Samples.py_nested_outer_body);
    [reflexivity | cbn; tauto |].
  apply reaches_child with (c := Samples.py_nested_inner);
    [reflexivity | cbn; tauto |].
  constructor.
Qed.

Lemma python_unit_is_found_again_witness :
  ParserBase.name
    (PythonParser.make_info
       [Samples.py_nested_outer_body; Samples.py_nested_outer;
        Samples.py_nested_tree]
       Samples.py_nested_inner Samples.py_nested_source) = "outer.inner"
  /\ exists h,
       find_function_node [] Samples.py_nested_tree "outer.inner"
         Samples.py_nested_source = Some h
       /\ located [] Samples.py_nested_tree h.
Proof.
  split; [reflexivity|].
  refine (proj2 (proj2
    (python_unit_is_found_again Samples.py_nested_tree Samples.py_nested_source
       [Samples.py_nested_outer_body; Samples.py_nested_outer;
        Samples.py_nested_tree]
       Samples.py_nested_inner
       (mkNode "identifier" (Some "name") 21 26 1 1 [])
       py_nested_inner_reached eq_refl eq_refl _))).
  intros fn nm Hin Hty Hnm.
  cbn [In] in Hin.
  destruct Hin as [<- | [<- | [<- | [<- | []]]]];
    try (vm_compute in Hty; discriminate Hty);
    vm_compute in Hnm; injection Hnm as <-;
    unfold fitting_identifier; repeat split; vm_compute;
    (reflexivity || discriminate).
Defined.

(** X16.  A C++ function definition that the search reaches, and whose
    name node (the one [find_function_name] resolves in its declarator)
    is an identifier with a span inside the source, is found under the
    name of the unit the extractor builds for it. *)
Theorem cpp_unit_is_found_again
    (root_node : Node) (source : string) (ps : list Node) (d name_node : Node) :
  reaches [] root_node ps d ->
  node_type d = "function_definition" ->
  CppParser.resolve_name d = Some name_node ->
  fitting_identifier name_node source ->
  let unit := CppParser.make_info ps d name_node source "" in
  cpp_name_matches d (ParserBase.name unit) source = true
  /\ exists h,
       find_function_node [] root_node (ParserBase.name unit) source = Some h
       /\ located [] root_node h.
Proof.
  intros Hreach Hty Hname Hfit. cbv zeta.
  assert (Hmatch : cpp_name_matches d
                     (ParserBase.name
                        (CppParser.make_info ps d name_node source ""))
                     source = true).
  { unfold cpp_name_matches, CppParser.make_info.
    cbn [ParserBase.name String.eqb]. rewrite Hname.
    rewrite (fitting_identifier_text name_node source Hfit).
    apply String.eqb_refl. }
  split; [exact Hmatch|].
  destruct (find_function_node [] root_node
              (ParserBase.name (CppParser.make_info ps d name_node source ""))
              source) as [h|] eqn:Hf.
  - exists h. split; [reflexivity|]. now apply find_function_node_sound in Hf.
  - exfalso.
    apply (find_function_node_complete [] root_node ps d Hreach _ source Hty
             (or_intror Hmatch)).
    exact Hf.
Qed.

Lemma vowel_count_function_reached :
  reaches [] Samples.vowel_count_tree [Samples.vowel_count_tree]
    Samples.vowel_count_function.
Proof.
  apply reaches_child with (c := Samples.vowel_count_function);
    [reflexivity | cbn; tauto |].
  constructor.
Qed.

Lemma cpp_unit_is_found_again_witness :
  exists h,
    find_function_node [] Samples.vowel_count_tree
      (ParserBase.name
         (CppParser.make_info [Samples.vowel_count_tree]
            Samples.vowel_count_function
            (mkNode "identifier" (Some "declarator") 12 23 0 0 [])
            Samples.vowel_count_source ""))
      Samples.vowel_count_source = Some h
    /\ located [] Samples.vowel_count_tree h.
Proof.
  refine (proj2
    (cpp_unit_is_found_again Samples.vowel_count_tree Samples.vowel_count_source
       [Samples.vowel_count_tree] Samples.vowel_count_function
       (mkNode "identifier" (Some "declarator") 12 23 0 0 [])
       vowel_count_function_reached eq_refl eq_refl _)).
  unfold fitting_identifier; repeat split; vm_compute;
    (reflexivity || discriminate).
Defined.

End LookupProperties.

(** ** The extractors: which units, in which order *)

Module ExtractorProperties.
Import ParserFactory Notions ExtractorNotions.
Import BaseFacts ParserFacts WalkFacts.

(** *** The C++ walk *)

Lemma cpp_collect_keeps n ps src fs scope u :
  In u fs -> In u (CppParser.collect_functions ps n src fs scope).
Proof.
  intros H. destruct (cpp_collect_added n ps src fs scope) as [added [-> _]].
  apply in_or_app. now left.
Qed.

Lemma cpp_collect_member n : forall ps src fs scope u,
  In u (CppParser.collect_functions ps n src fs scope) ->
  In u fs
  \/ exists ps' d, cpp_reaches ps n ps' d /\ cpp_unit_at ps' d src scope u.
Proof.
  induction n as [ty fld sb eb sr er kids IH] using Node_forall_ind.
  intros ps src fs scope u. rewrite List.Forall_forall in IH.
  set (n := mkNode ty fld sb eb sr er kids).
  assert (Hchildren :
            is_cpp_unit_node n = false ->
            In u (cpp_collect_children ps n src fs scope) ->
            In u fs
            \/ exists ps' d, cpp_reaches ps n ps' d /\ cpp_unit_at ps' d src scope u).
  { intros Hno H. unfold cpp_collect_children in H.
    apply (fold_left_member _ u
             (fun c => exists ps' d,
                cpp_reaches (n :: ps) c ps' d /\ cpp_unit_at ps' d src scope u))
      in H.
    - destruct H as [H | [c [Hin [ps' [d [Hr Hu]]]]]]; [now left|].
      right. exists ps', d. split; [|exact Hu].
      now apply cpp_reaches_child with (c := c).
    - intros c acc Hin Hc. now apply (IH c Hin) in Hc. }
  rewrite cpp_collect_functions_eq.
  destruct (node_type n =? "function_definition") eqn:Hty.
  - destruct (CppParser.resolve_name n) as [name_node|] eqn:Hname.
    + intros H. apply in_app_or in H. destruct H as [H | [<- | []]]; [now left|].
      right. exists ps, n. split; [constructor|].
      split; [now apply String.eqb_eq|]. now exists name_node.
    + apply Hchildren. unfold is_cpp_unit_node. rewrite Hty, Hname. reflexivity.
  - apply Hchildren. unfold is_cpp_unit_node. rewrite Hty. reflexivity.
Qed.

Lemma cpp_reaches_collected src scope ps0 n ps d u :
  cpp_reaches ps0 n ps d ->
  cpp_unit_at ps d src scope u ->
  forall fs, In u (CppParser.collect_functions ps0 n src fs scope).
Proof.
  induction 1 as [ps n | ps n c ps' d Hno Hin Hreach IH]; intros Hu fs.
  - destruct Hu as [Hty [name_node [Hname ->]]].
    rewrite cpp_collect_functions_eq, Hty, Hname.
    replace ("function_definition" =? "function_definition") with true
      by reflexivity.
    apply in_or_app. right. now left.
  - assert (Hc : In u (cpp_collect_children ps n src fs scope)).
    { unfold cpp_collect_children.
      apply fold_left_reaches with (c := c); [|exact Hin|].
      - intros c' acc _. apply cpp_collect_keeps.
      - intros acc. now apply IH. }
    rewrite cpp_collect_functions_eq. unfold is_cpp_unit_node in Hno.
    destruct (node_type n =? "function_definition"); [|exact Hc].
    destruct (CppParser.resolve_name n); [discriminate Hno | exact Hc].
Qed.

(** X17.  The units of the C++ extractor are exactly the units of the
    outermost function definitions with a resolvable name: a unit is
    yielded if and only if it is the record built for a function
    definition, at or below the start node, whose declarator holds a
    name and none of whose ancestors up to the start node is such a
    definition. *)
Theorem cpp_units_are_the_outermost_definitions
    (ps : list Node) (n : Node) (source class_scope : string)
    (info : FunctionInfo) :
  In info (CppParser.collect_functions ps n source [] class_scope)
  <-> exists ps' d,
        cpp_reaches ps n ps' d /\ cpp_unit_at ps' d source class_scope info.
Proof.
  split.
  - intros H. apply cpp_collect_member in H. destruct H as [[] | H]. exact H.
  - intros [ps' [d [Hr Hu]]]. now apply cpp_reaches_collected with ps' d.
Qed.

(** *** The Python walk *)

Lemma python_collect_member n : forall ps src fs u,
  In u (PythonParser.collect_functions ps n src fs) ->
  In u fs
  \/ exists ps' d, reaches ps n ps' d /\ python_unit_at ps' d src u.
Proof.
  induction n as [ty fld sb eb sr er kids IH] using Node_forall_ind.
  intros ps src fs u. rewrite List.Forall_forall in IH.
  set (n := mkNode ty fld sb eb sr er kids).
  assert (Hchildren :
            forall acc,
              cuts_walk n = false ->
              In u (python_collect_children ps n src acc) ->
              In u acc
              \/ exists ps' d, reaches ps n ps' d /\ python_unit_at ps' d src u).
  { intros acc Hno H. unfold python_collect_children in H.
    apply (fold_left_member _ u
             (fun c => exists ps' d,
                reaches (n :: ps) c ps' d /\ python_unit_at ps' d src u))
      in H.
    - destruct H as [H | [c [Hin [ps' [d [Hr Hu]]]]]]; [now left|].
      right. exists ps', d. split; [|exact Hu].
      now apply reaches_child with (c := c).
    - intros c acc' Hin Hc. now apply (IH c Hin) in Hc. }
  rewrite python_collect_functions_eq. unfold cuts_walk in Hchildren.
  destruct (node_type n =? "function_definition") eqn:Hty.
  - apply String.eqb_eq in Hty. intros H.
    apply Hchildren in H;
      [|rewrite Hty; reflexivity].
    destruct H as [H | H]; [|now right].
    apply in_app_or in H. destruct H as [H | [<- | []]]; [now left|].
    right. exists ps, n. split; [constructor|]. left. now split.
  - destruct (node_type n =? "decorated_definition") eqn:Hdec.
    + apply String.eqb_eq in Hdec.
      destruct (ts_node_child_by_field_name n "definition") as [func_node|] eqn:Hdef;
        [|now left].
      intros H. apply Hchildren in H; [|reflexivity].
      destruct H as [H | H]; [|now right].
      apply in_app_or in H. destruct H as [H | [<- | []]]; [now left|].
      right. exists ps, n. split; [constructor|]. right.
      split; [exact Hdec|]. now exists func_node.
    + intros H. apply Hchildren in H; [exact H | reflexivity].
Qed.

Lemma python_unit_collected src ps0 n ps d u :
  reaches ps0 n ps d ->
  python_unit_at ps d src u ->
  forall fs, In u (PythonParser.collect_functions ps0 n src fs).
Proof.
  induction 1 as [ps n | ps n c ps' d Hno Hin Hreach IH]; intros Hu fs.
  - rewrite python_collect_functions_eq.
    destruct Hu as [[Hty ->] | [Hty [func_node [Hdef ->]]]]; rewrite Hty.
    + replace ("function_definition" =? "function_definition") with true
        by reflexivity.
      unfold python_collect_children.
      apply fold_left_keeps; [intros c acc _; apply python_collect_keeps|].
      apply in_or_app. right. now left.
    + replace ("decorated_definition" =? "function_definition") with false
        by reflexivity.
      replace ("decorated_definition" =? "decorated_definition") with true
        by reflexivity.
      rewrite Hdef. unfold python_collect_children.
      apply fold_left_keeps; [intros c acc _; apply python_collect_keeps|].
      apply in_or_app. right. now left.
  - assert (Hc : forall acc, In u (python_collect_children ps n src acc)).
    { intros acc. apply python_collect_children_reach with (c := c); [exact Hin|].
      intros acc'. now apply IH. }
    rewrite python_collect_functions_eq. unfold cuts_walk in Hno.
    destruct (node_type n =? "function_definition"); [apply Hc|].
    destruct (node_type n =? "decorated_definition"); [|apply Hc].
    destruct (ts_node_child_by_field_name n "definition");
      [apply Hc | discriminate Hno].
Qed.

(** X18.  The units of the Python extractor are exactly the units built
    at the nodes its walk reaches: for every function definition
    reached, the unit of that definition, and for every decorated
    definition reached that has a [definition] field, the unit of that
    field, whatever its node type. *)
Theorem python_units_are_the_reached_definitions
    (ps : list Node) (n : Node) (source : string) (info : FunctionInfo) :
  In info (PythonParser.collect_functions ps n source [])
  <-> exists ps' d, reaches ps n ps' d /\ python_unit_at ps' d source info.
Proof.
  split.
  - intros H. apply python_collect_member in H. destruct H as [[] | H]. exact H.
  - intros [ps' [d [Hr Hu]]]. now apply python_unit_collected with ps' d.
Qed.

Lemma python_collect_children_app ps n src fs :
  python_collect_children ps n src fs
  = (fs ++ python_collect_children ps n src [])%list.
Proof.
  unfold python_collect_children. apply fold_left_acc_app.
  intros acc c _. apply python_collect_app.
Qed.

(** X19.  A decorated function is yielded twice: the walk records the
    [definition] field of a [decorated_definition] and then visits the
    children of the decorated definition, the function definition among
    them, which it records again as the same unit. *)
Theorem decorated_function_is_yielded_twice
    (ps : list Node) (n func_node : Node) (source : string)
    (functions : list FunctionInfo) :
  node_type n = "decorated_definition" ->
  ts_node_child_by_field_name n "definition" = Some func_node ->
  node_type func_node = "function_definition" ->
  let unit := PythonParser.make_info (n :: ps) func_node source in
  exists between after,
    PythonParser.collect_functions ps n source functions
    = (functions ++ unit :: between ++ unit :: after)%list.
Proof.
  intros Hdec Hdef Hty. cbv zeta.
  set (unit := PythonParser.make_info (n :: ps) func_node source).
  rewrite python_collect_functions_eq, Hdec, Hdef.
  replace ("decorated_definition" =? "function_definition") with false
    by reflexivity.
  replace ("decorated_definition" =? "decorated_definition") with true
    by reflexivity.
  pose proof (child_by_field_In _ _ _ Hdef) as Hin.
  apply in_split in Hin. destruct Hin as [l1 [l2 Hkids]].
  rewrite python_collect_children_app. unfold python_collect_children.
  rewrite Hkids, fold_left_app. cbn [fold_left].
  set (step := fun acc child =>
                 PythonParser.collect_functions (n :: ps) child source acc).
  rewrite (fold_left_acc_app step l2)
    by (intros acc c _; apply python_collect_app).
  unfold step at 2.
  rewrite (python_collect_app func_node).
  rewrite (python_collect_functions_eq (n :: ps) func_node source []), Hty.
  replace ("function_definition" =? "function_definition") with true
    by reflexivity.
  rewrite python_collect_children_app. cbn [app]. fold unit.
  exists (fold_left step l1 []),
         (python_collect_children (n :: ps) func_node source []
          ++ fold_left step l2 [])%list.
  rewrite <- !app_assoc. cbn [app]. reflexivity.
Qed.

Lemma decorated_function_is_yielded_twice_witness :
  exists between after,
    PythonParser.collect_functions [DecoratedSample.decorated_tree]
      DecoratedSample.decorated_definition DecoratedSample.decorated_source []
    = ([] ++ PythonParser.make_info
               [DecoratedSample.decorated_definition; DecoratedSample.decorated_tree]
               DecoratedSample.decorated_function DecoratedSample.decorated_source
          :: between
          ++ PythonParser.make_info
               [DecoratedSample.decorated_definition; DecoratedSample.decorated_tree]
               DecoratedSample.decorated_function DecoratedSample.decorated_source
          :: after)%list.
Proof.
  apply (decorated_function_is_yielded_twice [DecoratedSample.decorated_tree]
           DecoratedSample.decorated_definition DecoratedSample.decorated_function
           DecoratedSample.decorated_source []);
    reflexivity.
Defined.

(** On the sample the decorated function [f] is listed twice, and the
    orchestrator reports it twice. *)
Example decorated_sample_units :
  map ParserBase.name
    (PythonParser.collect_functions [] DecoratedSample.decorated_tree
       DecoratedSample.decorated_source []) = ["f"; "f"]
  /\ map Analyzer.function_name
       (Analyzer.analyze_content (fun _ _ => Some DecoratedSample.decorated_tree)
          Analyzer.registered_factory 0 DecoratedSample.decorated_source
          "sample.py" "python") = ["f"; "f"].
Proof. split; vm_compute; reflexivity. Qed.

End ExtractorProperties.

(** ** Texts and names *)

Module NameProperties.
Import ParserFactory Analyzer Notions ExtractorNotions.
Import BaseFacts ParserFacts WalkFacts.

Lemma length_substring (s : string) : forall n m,
  String.length (String.substring n m s)
  = Nat.min m (String.length s - n).
Proof.
  induction s as [|a s IH]; intros n m.
  - destruct n, m; reflexivity.
  - destruct n as [|n].
    + destruct m as [|m]; [reflexivity|].
      cbn [String.substring String.length]. rewrite IH.
      rewrite Nat.sub_0_r. cbn [Nat.sub]. lia.
    + cbn [String.substring String.length]. rewrite IH. reflexivity.
Qed.

(** X20.  [extract_node_text] never reads outside the source: for a span
    that ends before it starts or after the end of the source it gives
    the empty text, for any other span (start not negative) a text of
    exactly [end_byte - start_byte] characters; in no case a text longer
    than the source. *)
Theorem node_text_stays_inside_the_source (n : Node) (source_code : string) :
  let text := extract_node_text n source_code in
  let size := Z.of_nat (String.length source_code) in
  (start_byte n > end_byte n \/ end_byte n > size -> text = "")
  /\ (0 <= start_byte n <= end_byte n /\ end_byte n <= size ->
      Z.of_nat (String.length text) = end_byte n - start_byte n)
  /\ (String.length text <= String.length source_code)%nat.
Proof.
  cbv zeta. unfold extract_node_text.
  split; [|split].
  - intros H.
    destruct ((start_byte n >? end_byte n) || (end_byte n >? _))%Z eqn:E;
      [reflexivity|].
    apply Bool.orb_false_elim in E. destruct E as [E1 E2].
    rewrite Z.gtb_ltb in E1, E2. apply Z.ltb_ge in E1, E2. lia.
  - intros [H1 H2].
    replace ((start_byte n >? end_byte n) || (end_byte n >? _))%Z with false.
    + rewrite length_substring. lia.
    + symmetry. apply Bool.orb_false_intro; rewrite Z.gtb_ltb; apply Z.ltb_ge; lia.
  - destruct (_ || _)%Z; [cbn; lia|]. rewrite length_substring. lia.
Qed.

Lemma at_or_below_child n c d :
  In c (children n) -> at_or_below c d -> at_or_below n d.
Proof.
  intros Hin [-> | H]; right; [now constructor | now apply below_deeper with c].
Qed.

Lemma is_name_under_child n c found :
  In c (children n) -> is_name_under c found -> is_name_under n found.
Proof.
  intros Hin [Hb Hk]. split; [now apply at_or_below_child with c|].
  destruct Hk as [Hk | [q [Hq Hk]]]; [now left|].
  right. exists q. split; [now apply at_or_below_child with c | exact Hk].
Qed.

Lemma find_function_name_found n : forall found,
  CppParser.find_function_name n = Some found -> is_name_under n found.
Proof.
  induction n as [ty fld sb eb sr er kids IH] using Node_forall_ind.
  intros found. rewrite List.Forall_forall in IH.
  set (n := mkNode ty fld sb eb sr er kids).
  rewrite find_function_name_eq.
  destruct (node_type n =? "function_declarator").
  - destruct (ts_node_child_by_field_name n "declarator") as [decl|] eqn:Hd;
      [|discriminate].
    apply child_by_field_In in Hd. intros H.
    apply is_name_under_child with decl; [exact Hd | now apply IH].
  - unfold CppParser.name_at.
    destruct (node_type n =? "identifier") eqn:Hid.
    + intros H. injection H as <-. apply String.eqb_eq in Hid.
      split; [now left | now left].
    + destruct (CppParser.is_qualified (node_type n)) eqn:Hq.
      * destruct (ts_node_child_by_field_name n "name") as [nm|] eqn:Hn.
        -- intros H. injection H as <-.
           split; [right; constructor; now apply child_by_field_In in Hn|].
           right. exists n. split; [now left | now split].
        -- intros H. apply first_some_found in H.
           destruct H as [c [Hin Hc]].
           apply is_name_under_child with c; [exact Hin | now apply IH].
      * intros H. apply first_some_found in H.
        destruct H as [c [Hin Hc]].
        apply is_name_under_child with c; [exact Hin | now apply IH].
Qed.

(** X21.  The name node that [find_function_name] returns lies at or
    below the declarator it was given and is an [identifier], or the
    [name] field of a qualified or scoped identifier there; when it
    returns nothing the declarator itself is no such node.  The loop of
    the source, run on its stack with more steps than the declarator
    has nodes, ends with that same answer. *)
Theorem resolved_name_lies_in_the_declarator (declarator : Node) :
  match CppParser.find_function_name declarator with
  | Some found => is_name_under declarator found
  | None =>
      node_type declarator <> "identifier"
      /\ (CppParser.is_qualified (node_type declarator) = true ->
          ts_node_child_by_field_name declarator "name" = None)
  end
  /\ forall fuel,
       (node_size declarator < fuel)%nat ->
       CppParser.find_function_name_loop fuel [declarator]
       = Some (CppParser.find_function_name declarator).
Proof.
  split.
  - destruct (CppParser.find_function_name declarator) as [found|] eqn:Hf;
      [now apply find_function_name_found|].
    rewrite find_function_name_eq in Hf.
    destruct (node_type declarator =? "function_declarator") eqn:Hfd.
    + apply String.eqb_eq in Hfd. rewrite Hfd. split; [discriminate|].
      intros H. discriminate H.
    + unfold CppParser.name_at in Hf.
      destruct (node_type declarator =? "identifier") eqn:Hid; [discriminate|].
      apply String.eqb_neq in Hid. split; [exact Hid|].
      intros Hq. rewrite Hq in Hf.
      destruct (ts_node_child_by_field_name declarator "name");
        [discriminate | reflexivity].
  - intros fuel Hfuel.
    rewrite find_function_name_loop_correct
      by (cbn [stack_size]; lia).
    cbn [first_some]. now destruct (CppParser.find_function_name declarator).
Qed.

Lemma length_substr (s : string) (pos count : Z) :
  (String.length (substr s pos count) <= String.length s)%nat.
Proof. unfold substr. rewrite length_substring. lia. Qed.

Lemma last_some_found {A B : Type} (f : A -> option B) (l : list A) (y : B) :
  last_some f l = Some y -> exists x, In x l /\ f x = Some y.
Proof.
  induction l as [|x l IH]; cbn [last_some]; [discriminate|].
  destruct (last_some f l) as [z|] eqn:Hl.
  - intros H. injection H as <-. destruct (IH eq_refl) as [x' [Hin Hf]].
    exists x'. split; [now right | exact Hf].
  - intros H. exists x. split; [now left | exact H].
Qed.

Lemma search_identifier_length source n : forall text,
  search_identifier n source = Some text ->
  (String.length text <= String.length source)%nat.
Proof.
  induction n as [ty fld sb eb sr er kids IH] using Node_forall_ind.
  intros text. rewrite List.Forall_forall in IH.
  rewrite search_identifier_eq.
  destruct (identifier_text _ source) as [found|] eqn:Hid.
  - intros H. injection H as <-. unfold identifier_text in Hid.
    destruct (_ && _); [|discriminate]. injection Hid as <-.
    apply length_substr.
  - intros H. apply last_some_found in H. destruct H as [c [Hin Hc]].
    now apply (IH c Hin).
Qed.

(** X22.  The loop of [extract_function_name], run on its stack with
    more steps than the node has nodes, ends with the answer of the
    search.  For an identifier whose span lies inside the source that
    answer is its text, the one [extract_node_text] gives; and whatever
    the node, the answer is never longer than the source. *)
Theorem name_text_search_ends (n : Node) (source : string) :
  (forall fuel,
     (node_size n < fuel)%nat ->
     extract_function_name_loop fuel [n] source
     = Some (extract_function_name n source))
  /\ (FileAnalysis.fitting_identifier n source ->
      extract_function_name n source = extract_node_text n source)
  /\ (String.length (extract_function_name n source) <= String.length source)%nat.
Proof.
  split; [|split].
  - intros fuel Hfuel.
    rewrite extract_function_name_loop_correct by (cbn [stack_size]; lia).
    cbn [first_some]. unfold extract_function_name.
    now destruct (search_identifier n source).
  - apply LookupProperties.fitting_identifier_text.
  - unfold extract_function_name.
    destruct (search_identifier n source) as [text|] eqn:Hs; [|cbn; lia].
    now apply search_identifier_length with n.
Qed.

Lemma concat_last_two (sep a b : string) : forall l,
  String.concat sep (l ++ [(a ++ sep ++ b)%string])%list
  = String.concat sep (l ++ [a; b])%list.
Proof.
  induction l as [|x l IH]; [reflexivity|].
  destruct l as [|y l]; [reflexivity|].
  change (String.concat sep (x :: (y :: l) ++ [(a ++ sep ++ b)%string])
          = String.concat sep (x :: (y :: l) ++ [a; b])).
  cbn [String.concat app] in IH |- *. now rewrite IH.
Qed.

Lemma qualify_joined source : forall ps name,
  PythonParser.qualify ps source name
  = String.concat "." (rev (enclosing_names ps source) ++ [name])%list.
Proof.
  induction ps as [|parent up IH]; intros name; [reflexivity|].
  cbn [PythonParser.qualify enclosing_names].
  destruct (node_type parent =? "function_definition"); [|apply IH].
  destruct (ts_node_child_by_field_name parent "name") as [parent_name|];
    [|apply IH].
  rewrite IH. cbn [rev]. rewrite <- app_assoc. cbn [app].
  apply concat_last_two.
Qed.

(** X23.  The name of a Python unit is the dotted path of its enclosing
    functions: the names of the function definitions among its ancestors
    that have a [name] field, outermost first, then its own name, joined
    by periods; other ancestors (classes, blocks, decorated definitions)
    add nothing.  A function without [name] field gets the empty name,
    without any prefix. *)
Theorem python_unit_name_is_the_dotted_path
    (ps : list Node) (d : Node) (source : string) :
  ParserBase.name (PythonParser.make_info ps d source)
  = match ts_node_child_by_field_name d "name" with
    | Some name_node =>
        String.concat "."
          (rev (enclosing_names ps source)
           ++ [extract_node_text name_node source])%list
    | None => ""
    end.
Proof.
  unfold PythonParser.make_info. cbn [ParserBase.name].
  destruct (ts_node_child_by_field_name d "name"); [|reflexivity].
  apply qualify_joined.
Qed.

End NameProperties.

(** ** The summary that is displayed *)

Module ReportProperties.
Import Analyzer Report BaseFacts.

Lemma file_total_unmentioned path results : forall start,
  mentions path results = false -> file_total path results start = start.
Proof.
  induction results as [|r rs IH]; intros start H; [reflexivity|].
  cbn [mentions existsb] in H. apply Bool.orb_false_elim in H.
  destruct H as [Hr Hrs]. cbn [file_total fold_left]. rewrite Hr.
  now apply IH.
Qed.

Lemma lookup_add_result summary r path :
  complexity_per_file (add_result summary r) !! path
  = if String.eqb (Analyzer.file_path r) path
    then Some (size_t_add (default 0 (complexity_per_file summary !! path))
                 (Analyzer.complexity r))
    else complexity_per_file summary !! path.
Proof.
  unfold add_result. cbn [complexity_per_file].
  destruct (String.eqb (Analyzer.file_path r) path) eqn:Hr.
  - apply String.eqb_eq in Hr. subst path. now rewrite lookup_insert_eq.
  - apply String.eqb_neq in Hr. now rewrite lookup_insert_ne by exact Hr.
Qed.

Lemma per_file_after path results : forall summary,
  complexity_per_file (fold_left add_result results summary) !! path
  = if mentions path results
    then Some (file_total path results
                 (default 0 (complexity_per_file summary !! path)))
    else complexity_per_file summary !! path.
Proof.
  induction results as [|r rs IH]; intros summary; [reflexivity|].
  cbn [fold_left]. rewrite IH, lookup_add_result.
  unfold mentions, file_total. cbn [existsb fold_left].
  fold (mentions path rs).
  destruct (String.eqb (Analyzer.file_path r) path) eqn:Hr; cbn [orb default];
    [|reflexivity].
  destruct (mentions path rs) eqn:Hrs; [reflexivity|].
  f_equal. symmetry. now apply file_total_unmentioned.
Qed.

Lemma table_sum_insert (table : gmap string Z) (key : string) (value : Z) :
  table_sum (<[key := value]> table)
  = value + table_sum table - default 0 (table !! key).
Proof.
  unfold table_sum.
  destruct (table !! key) as [old|] eqn:Hold; cbn [default from_option id].
  - rewrite <- insert_delete_eq.
    rewrite map_fold_insert_L; [| intros; lia | apply lookup_delete_eq].
    rewrite (map_fold_delete_L _ _ key old table);
      [cbv beta; lia | intros; lia | exact Hold].
  - rewrite map_fold_insert_L; [cbv beta; lia | intros; lia | exact Hold].
Qed.

Lemma summary_invariant results : forall summary,
  size_t_wrap (table_sum (complexity_per_file summary))
  = size_t_wrap (Report.total_complexity summary) ->
  let final := fold_left add_result results summary in
  size_t_wrap (table_sum (complexity_per_file final))
  = size_t_wrap (Report.total_complexity final)
  /\ size_t_wrap (Report.total_complexity final)
     = size_t_wrap (Report.total_complexity summary
                    + fold_right Z.add 0 (map Analyzer.complexity results)).
Proof.
  induction results as [|r rs IH]; intros summary H; cbv zeta.
  - cbn [fold_left map fold_right]. split; [exact H|]. f_equal. lia.
  - cbn [fold_left map fold_right].
    assert (Hstep : size_t_wrap (table_sum (complexity_per_file (add_result summary r)))
                    = size_t_wrap (Report.total_complexity (add_result summary r))).
    { unfold add_result. cbn [complexity_per_file Report.total_complexity].
      rewrite table_sum_insert.
      unfold size_t_add, size_t_wrap in *.
      set (old := default 0 (complexity_per_file summary !! Analyzer.file_path r)).
      rewrite Z.mod_mod by (unfold SIZE_MAX_plus_1; lia).
      replace ((old + Analyzer.complexity r) mod SIZE_MAX_plus_1
               + table_sum (complexity_per_file summary) - old)
        with ((old + Analyzer.complexity r) mod SIZE_MAX_plus_1
              + (table_sum (complexity_per_file summary) - old)) by lia.
      rewrite Zplus_mod_idemp_l.
      replace (old + Analyzer.complexity r
               + (table_sum (complexity_per_file summary) - old))
        with (table_sum (complexity_per_file summary) + Analyzer.complexity r)
        by lia.
      rewrite <- Zplus_mod_idemp_l, H, Zplus_mod_idemp_l. reflexivity. }
    destruct (IH (add_result summary r) Hstep) as [H1 H2].
    split; [exact H1|]. rewrite H2.
    unfold add_result. cbn [Report.total_complexity].
    unfold size_t_add, size_t_wrap. rewrite Zplus_mod_idemp_l. f_equal. lia.
Qed.

Lemma summary_total_in_range results : forall summary,
  is_size_t (Report.total_complexity summary) ->
  is_size_t (Report.total_complexity (fold_left add_result results summary)).
Proof.
  induction results as [|r rs IH]; intros summary H; [exact H|].
  cbn [fold_left]. apply IH. unfold add_result. cbn [Report.total_complexity].
  apply size_t_wrap_range.
Qed.

(** X24.  The summary of [display_results]: the table of totals per
    file has an entry exactly for the file paths that occur in the
    results, and the entry of a path is the ([size_t]) sum of the
    complexities of the results of that path; the overall total is the
    sum of all complexities modulo 2^64, and it is the sum of the
    per-file totals modulo 2^64. *)
Theorem summary_adds_up (results : list AnalysisResult) :
  let summary := summarize results in
  (forall path,
     complexity_per_file summary !! path
     = if mentions path results
       then Some (file_total path results 0)
       else None)
  /\ Report.total_complexity summary
     = size_t_wrap (fold_right Z.add 0 (map Analyzer.complexity results))
  /\ Report.total_complexity summary
     = size_t_wrap (table_sum (complexity_per_file summary)).
Proof.
  cbv zeta. unfold summarize.
  assert (H0 : size_t_wrap (table_sum (complexity_per_file (mkSummary 0 ∅)))
               = size_t_wrap (Report.total_complexity (mkSummary 0 ∅)))
    by reflexivity.
  destruct (summary_invariant results (mkSummary 0 ∅) H0) as [H1 H2].
  assert (Hr : is_size_t
                 (Report.total_complexity
                    (fold_left add_result results (mkSummary 0 ∅)))).
  { apply summary_total_in_range. cbn. unfold is_size_t, SIZE_MAX_plus_1. lia. }
  apply size_t_wrap_small in Hr.
  split; [|split].
  - intros path. rewrite per_file_after. cbn [complexity_per_file].
    rewrite lookup_empty. reflexivity.
  - rewrite <- Hr, H2. reflexivity.
  - rewrite H1. now rewrite Hr.
Qed.

End ReportProperties.

(** ** Helper functions *)

Module HelperProperties.
Import ParserFactory Analyzer Notions Helpers.
Import BaseFacts WalkFacts.

Lemma substring_of_empty n m : String.substring n m "" = "".
Proof. destruct n, m; reflexivity. Qed.

Lemma text_from_empty_source n : extract_node_text n "" = "".
Proof.
  unfold extract_node_text. destruct (_ || _)%Z; [reflexivity|].
  apply substring_of_empty.
Qed.

Lemma get_function_name_of_eq n :
  get_function_name_of n =
  if node_type n =? "identifier" then Some (extract_node_text n "")
  else first_some get_function_name_of (children n).
Proof. destruct n; reflexivity. Qed.

Lemma has_identifier_eq n :
  has_identifier n
  = (node_type n =? "identifier") || existsb has_identifier (children n).
Proof. destruct n; reflexivity. Qed.

Lemma get_function_name_of_spec n :
  get_function_name_of n = if has_identifier n then Some "" else None.
Proof.
  induction n as [ty fld sb eb sr er kids IH] using Node_forall_ind.
  rewrite get_function_name_of_eq, has_identifier_eq.
  cbn [node_type children].
  destruct (ty =? "identifier"); [now rewrite text_from_empty_source|].
  cbn [orb]. induction kids as [|c kids IHk]; [reflexivity|].
  cbn [first_some existsb].
  pose proof (List.Forall_inv IH) as Hc. rewrite Hc.
  destruct (has_identifier c); [reflexivity|].
  cbn [orb]. apply IHk. exact (List.Forall_inv_tail IH).
Qed.

(** X25.  [ParserBase::get_function_name] takes the text of the
    identifier it finds from an empty source text, so it never returns a
    name: its answer is the empty text when the subtree holds an
    [identifier] node, and nothing when it holds none or the node is
    null. *)
Theorem base_function_name_is_always_empty (node : option Node) :
  get_function_name node
  = match node with
    | Some n => if has_identifier n then Some "" else None
    | None => None
    end.
Proof.
  destruct node as [n|]; [apply get_function_name_of_spec | reflexivity].
Qed.

(** X26.  The calculator has its own [extract_node_text], without the
    check of the span.  For a span inside the source (and shorter than
    2^32) it gives the text that [ParserBase::extract_node_text] gives;
    for a start behind the end of the source it fails where the other
    returns the empty text. *)
Theorem calculator_text_agrees_inside_the_source
    (n : Node) (source_code : string) :
  let size := Z.of_nat (String.length source_code) in
  (0 <= start_byte n <= end_byte n /\ end_byte n <= size
   /\ end_byte n < UINT32_MAX_plus_1 ->
   calculator_extract_node_text n source_code
   = Some (extract_node_text n source_code))
  /\ (start_byte n > size ->
      calculator_extract_node_text n source_code = None
      /\ (0 <= end_byte n -> extract_node_text n source_code = "")).
Proof.
  cbv zeta. unfold calculator_extract_node_text, extract_node_text. split.
  - intros [H1 [H2 H3]].
    replace (start_byte n >? Z.of_nat (String.length source_code))%Z with false
      by (symmetry; rewrite Z.gtb_ltb; apply Z.ltb_ge; lia).
    replace ((start_byte n >? end_byte n)
             || (end_byte n >? Z.of_nat (String.length source_code)))%Z
      with false
      by (symmetry; apply Bool.orb_false_intro; rewrite Z.gtb_ltb;
          apply Z.ltb_ge; lia).
    unfold substr, uint32_wrap.
    rewrite Z.mod_small by (unfold UINT32_MAX_plus_1 in *; lia).
    rewrite Z.min_l by lia. reflexivity.
  - intros H.
    replace (start_byte n >? Z.of_nat (String.length source_code))%Z with true
      by (symmetry; rewrite Z.gtb_ltb; apply Z.ltb_lt; lia).
    split; [reflexivity|]. intros He.
    destruct ((start_byte n >? end_byte n)
              || (end_byte n >? Z.of_nat (String.length source_code)))%Z eqn:E;
      [reflexivity|].
    apply Bool.orb_false_elim in E. destruct E as [E1 E2].
    rewrite Z.gtb_ltb in E1, E2. apply Z.ltb_ge in E1, E2. lia.
Qed.

Lemma safe_string_length_spec (str : string) :
  safe_string_length str
  = if (Z.of_nat (String.length str) <? UINT32_MAX_plus_1)%Z
    then Some (Z.of_nat (String.length str))
    else None.
Proof.
  unfold safe_string_length, safe_cast_uint32.
  replace (Z.of_nat (String.length str) <? 0)%Z with false
    by (symmetry; apply Z.ltb_ge; lia).
  rewrite Bool.orb_false_r, Z.gtb_ltb.
  destruct (Z.of_nat (String.length str) <? UINT32_MAX_plus_1)%Z eqn:E.
  - apply Z.ltb_lt in E.
    replace (UINT32_MAX_plus_1 - 1 <? Z.of_nat (String.length str))%Z with false
      by (symmetry; apply Z.ltb_ge; lia).
    reflexivity.
  - apply Z.ltb_ge in E.
    replace (UINT32_MAX_plus_1 - 1 <? Z.of_nat (String.length str))%Z with true
      by (symmetry; apply Z.ltb_lt; lia).
    reflexivity.
Qed.

(** X27.  The conversion of the content length to [uint32_t] inside
    [parse_functions] matters only from 2^32 bytes on: below, the
    extractors and [analyze_content] behave as they do without the
    check; from there on the overflow error, caught inside
    [parse_functions], leaves no unit and so no analysis result. *)
Theorem length_check_only_matters_from_4GiB
    (ts_parse : Parser -> string -> option Node) (f : Factory) (threshold : Z)
    (parser : Parser) (content path lang : string) :
  let fits := (Z.of_nat (String.length content) <? UINT32_MAX_plus_1)%Z in
  checked_parse_functions ts_parse parser (mkParserContext content path)
  = (if fits
     then Analyzer.parse_functions ts_parse parser (mkParserContext content path)
     else [])
  /\ checked_analyze_content ts_parse f threshold content path lang
     = (if fits
        then analyze_content ts_parse f threshold content path lang
        else []).
Proof.
  cbv zeta.
  assert (H : checked_parse_functions ts_parse parser (mkParserContext content path)
              = if (Z.of_nat (String.length content) <? UINT32_MAX_plus_1)%Z
                then Analyzer.parse_functions ts_parse parser
                       (mkParserContext content path)
                else []).
  { unfold checked_parse_functions, Analyzer.parse_functions,
      CppParser.parse_functions, PythonParser.parse_functions.
    cbn [file_content]. rewrite safe_string_length_spec.
    destruct (String.eqb content "");
      [now destruct parser, (_ <? _)%Z|].
    destruct (_ <? _)%Z; [|reflexivity].
    destruct parser; reflexivity. }
  split; [exact H|].
  unfold checked_analyze_content, analyze_content.
  destruct (grammar_of lang) as [grammar|]; [|now destruct (_ <? _)%Z].
  destruct (ts_parse grammar content) as [root_node|]; [|now destruct (_ <? _)%Z].
  destruct (create_parser f lang) as [p|]; [|now destruct (_ <? _)%Z].
  cbv zeta.
  assert (Hp : checked_parse_functions ts_parse p (mkParserContext content path)
               = if (Z.of_nat (String.length content) <? UINT32_MAX_plus_1)%Z
                 then Analyzer.parse_functions ts_parse p
                        (mkParserContext content path)
                 else []).
  { unfold checked_parse_functions, Analyzer.parse_functions,
      CppParser.parse_functions, PythonParser.parse_functions.
    cbn [file_content]. rewrite safe_string_length_spec.
    destruct (String.eqb content "");
      [now destruct p, (_ <? _)%Z|].
    destruct (_ <? _)%Z; [|reflexivity].
    destruct p; reflexivity. }
  rewrite Hp. now destruct (_ <? _)%Z.
Qed.

End HelperProperties.

(** ** A candidate without a resolvable name *)

Module CandidateProperties.
Import ParserFactory Notions ExtractorNotions.
Import BaseFacts ParserFacts WalkFacts.







End CandidateProperties.
